(** * polymarket-mcp: custodial trading gateway

    A shallow embedding of the order gateway ([services/order.service.ts]
    with the getters of [services/key.service.ts]), of the two atomic batch
    handlers (the route POST /api/orders/execute-atomic of [routes/orders.ts]
    and the MCP tool [execute_atomic_orders]) and of the wallet provisioning
    service ([services/wallet.service.ts]: [deploySafeWallet],
    [createApiCredentials], [resetApiCredentials]).  Beyond these it covers
    the verification and reconciliation of orders ([verifyOrder],
    [syncAllUserOrders]), the route POST /api/orders/batch, the MCP tool
    [place_order], the recovery of a Safe address ([recoverSafeAddress]) and
    the list of approvals that [setTokenApprovals] builds.

    The TypeScript code is [async] code over three stores: the Prisma
    database, the Polygon chain, and the Polymarket relayer and CLOB.  Every
    [await] is sequential, so the code is embedded in a state-and-exception
    monad [M].

    - The state carries the database tables, the process-wide neg-risk cache
      and the transcript of the remote calls made so far.
    - The remote services are the oracles of a [World]; an oracle answers as
      a function of the transcript so far, so the same call may be answered
      differently the second time.  A remote call either throws or returns a
      payload, whose optional fields are [option]s.
    - Prisma calls are taken to succeed; timestamps, [console.log] lines and
      the address mapping registered for the HTTP interceptor are left out.
    - Numbers of the JSON bodies are rationals. *)

From Stdlib Require Import QArith Ascii String.
From stdpp Require Import gmap strings list pretty.

Close Scope Q_scope.
Open Scope string_scope.

(** ** JavaScript values used by the code *)

Module Js.

(** [!!s] for a string: the empty string is falsy. *)
Definition nonempty (s : string) : bool :=
  match s with EmptyString => false | String _ _ => true end.

(** Truthiness of an optional string field ([undefined], [null] and the
    empty string are falsy). *)
Definition truthy (o : option string) : bool :=
  match o with Some s => nonempty s | None => false end.

(** [a || b] on optional string fields. *)
Definition or (a b : option string) : option string :=
  if truthy a then a else b.

(** [a || d] where [d] is a string literal. *)
Definition or_default (a : option string) (d : string) : string :=
  match a with
  | Some s => if nonempty s then s else d
  | None => d
  end.

(** Truthiness of an optional number ([undefined] and [0] are falsy). *)
Definition truthy_num (o : option Z) : bool :=
  match o with Some z => negb (z =? 0)%Z | None => false end.

(** [s.includes(sub)]. *)
Fixpoint includes (s sub : string) : bool :=
  String.prefix sub s ||
  match s with
  | EmptyString => false
  | String _ s' => includes s' sub
  end.

Definition lower_ascii (c : ascii) : ascii :=
  let n := nat_of_ascii c in
  if (65 <=? n)%nat && (n <=? 90)%nat then ascii_of_nat (n + 32) else c.

(** [s.toLowerCase()] on the ASCII range. *)
Fixpoint toLowerCase (s : string) : string :=
  match s with
  | EmptyString => EmptyString
  | String c s' => String (lower_ascii c) (toLowerCase s')
  end.

Definition is_hex (c : ascii) : bool :=
  let n := nat_of_ascii c in
  ((48 <=? n)%nat && (n <=? 57)%nat) ||
  ((65 <=? n)%nat && (n <=? 70)%nat) ||
  ((97 <=? n)%nat && (n <=? 102)%nat).

(** The next [n] characters of [s] when all of them are hex digits. *)
Fixpoint take_hex (n : nat) (s : string) : option string :=
  match n with
  | O => Some EmptyString
  | S n' =>
      match s with
      | String c s' =>
          if is_hex c
          then match take_hex n' s' with
               | Some r => Some (String c r)
               | None => None
               end
          else None
      | EmptyString => None
      end
  end.

(** [s.match(/0x[a-fA-F0-9]{40}/)]: the leftmost match, if any. *)
Fixpoint match_address (s : string) : option string :=
  match s with
  | EmptyString => None
  | String c s' =>
      let here :=
        match s with
        | String "0"%char (String "x"%char rest) =>
            match take_hex 40 rest with
            | Some h => Some ("0x" ++ h)
            | None => None
            end
        | _ => None
        end in
      match here with
      | Some a => Some a
      | None => match_address s'
      end
  end.

(** A thrown value.  [message] is [e.message]; [response_data] is
    [e.response.data] when the thrown value carries a truthy one, already
    rendered as the text the handlers use ([JSON.stringify] for an
    object). *)
Record Error := mkError {
  message : string;
  response_data : option string
}.

Definition error (msg : string) : Error := mkError msg None.

(** [e.toString()] of an [Error]. *)
Definition toString (e : Error) : string :=
  if nonempty (message e) then "Error: " ++ message e else "Error".

(** [e?.response?.data || e?.message || e?.toString() || ''], rendered as
    text. *)
Definition detail (e : Error) : string :=
  match response_data e with
  | Some d => d
  | None => if nonempty (message e) then message e else toString e
  end.

End Js.

(** ** Node's [Buffer] base64 codec

    [Buffer.from(s, 'base64')] never throws: it reads the standard and the
    URL-safe alphabet, skips every other character and stops at the first
    ['=']; [buf.toString('base64')] writes the standard alphabet with
    padding.  Bytes are numbers below 256. *)

Module Buffer.

Inductive Symbol := Sextet (v : nat) | Pad | Skip.

Definition symbol (c : ascii) : Symbol :=
  let n := nat_of_ascii c in
  if (65 <=? n)%nat && (n <=? 90)%nat then Sextet (n - 65)
  else if (97 <=? n)%nat && (n <=? 122)%nat then Sextet (n - 71)
  else if (48 <=? n)%nat && (n <=? 57)%nat then Sextet (n + 4)
  else if (n =? 43)%nat || (n =? 45)%nat then Sextet 62
  else if (n =? 47)%nat || (n =? 95)%nat then Sextet 63
  else if (n =? 61)%nat then Pad
  else Skip.

Fixpoint sextets (s : string) : list nat :=
  match s with
  | EmptyString => []
  | String c s' =>
      match symbol c with
      | Sextet v => v :: sextets s'
      | Pad => []
      | Skip => sextets s'
      end
  end.

Fixpoint bytes_of (l : list nat) : list nat :=
  match l with
  | a :: b :: c :: d :: rest =>
      (a * 4 + b / 16) :: ((b mod 16) * 16 + c / 4) :: ((c mod 4) * 64 + d)
      :: bytes_of rest
  | [a; b; c] => [a * 4 + b / 16; (b mod 16) * 16 + c / 4]
  | [a; b] => [a * 4 + b / 16]
  | _ => []
  end.

(** [Buffer.from(s, 'base64')]. *)
Definition from_base64 (s : string) : list nat := bytes_of (sextets s).

Definition digit (v : nat) : ascii :=
  if (v <? 26)%nat then ascii_of_nat (v + 65)
  else if (v <? 52)%nat then ascii_of_nat (v + 71)
  else if (v <? 62)%nat then ascii_of_nat (v - 4)
  else if (v =? 62)%nat then "+"%char
  else "/"%char.

(** [buf.toString('base64')]. *)
Fixpoint toString_base64 (l : list nat) : string :=
  match l with
  | x :: y :: z :: rest =>
      String (digit (x / 4))
        (String (digit ((x mod 4) * 16 + y / 16))
           (String (digit ((y mod 16) * 4 + z / 64))
              (String (digit (z mod 64)) (toString_base64 rest))))
  | [x; y] =>
      String (digit (x / 4))
        (String (digit ((x mod 4) * 16 + y / 16))
           (String (digit ((y mod 16) * 4)) "="))
  | [x] =>
      String (digit (x / 4)) (String (digit ((x mod 4) * 16)) "==")
  | [] => ""
  end.

End Buffer.

(** ** Numbers

    Prices and sizes are JSON numbers; they are modelled as rationals and
    compared exactly. *)

Definition Qltb (a b : Q) : bool := negb (Qle_bool b a).
Definition Qleb (a b : Q) : bool := Qle_bool a b.

(** ** The database schema *)

Inductive UserStatus :=
  CREATED | SAFE_DEPLOYING | SAFE_DEPLOYED | SETTING_UP | READY.

Inductive OrderStatus :=
  PENDING | SUBMITTING | LIVE | MATCHED | FILLED | CANCELLED | FAILED.

Inductive OrderSide := BUY | SELL.

Inductive OrderType := LIMIT | MARKET | GTC | GTD | FOK | FAK.

#[global] Instance UserStatus_eq_dec : EqDecision UserStatus.
Proof. solve_decision. Defined.
#[global] Instance OrderStatus_eq_dec : EqDecision OrderStatus.
Proof. solve_decision. Defined.
#[global] Instance OrderType_eq_dec : EqDecision OrderType.
Proof. solve_decision. Defined.

Record Credentials := mkCredentials {
  key : string;
  secret : string;
  passphrase : string
}.

Record User := mkUser {
  u_status : UserStatus;
  u_eoaAddress : string;
  u_privateKey : bool;                  (* encryptedPrivateKey is present *)
  u_safeAddress : option string;
  u_safeDeployed : bool;
  u_credentials : option Credentials;   (* encryptedApiKey/Secret/Passphrase *)
  u_usdcApproved : bool;
  u_ctfApproved : bool;
  u_negRiskApproved : bool
}.

Record Order := mkOrder {
  o_id : string;
  o_userId : string;
  o_conditionId : string;
  o_tokenId : string;
  o_side : OrderSide;
  o_price : Q;
  o_size : Q;
  o_orderType : OrderType;
  o_expiration : option Z;
  o_clobOrderId : option string;
  o_status : OrderStatus;
  o_statusMessage : option string;
  o_filledSize : option Q
}.

Definition user_set_status (st : UserStatus) (u : User) : User :=
  mkUser st (u_eoaAddress u) (u_privateKey u) (u_safeAddress u)
         (u_safeDeployed u) (u_credentials u)
         (u_usdcApproved u) (u_ctfApproved u) (u_negRiskApproved u).

Definition user_set_safe (addr : string) (u : User) : User :=
  mkUser SAFE_DEPLOYED (u_eoaAddress u) (u_privateKey u) (Some addr)
         true (u_credentials u)
         (u_usdcApproved u) (u_ctfApproved u) (u_negRiskApproved u).

Definition user_set_credentials (c : option Credentials) (u : User) : User :=
  mkUser (u_status u) (u_eoaAddress u) (u_privateKey u) (u_safeAddress u)
         (u_safeDeployed u) c
         (u_usdcApproved u) (u_ctfApproved u) (u_negRiskApproved u).

Definition order_set_status (st : OrderStatus) (msg : option string)
    (o : Order) : Order :=
  mkOrder (o_id o) (o_userId o) (o_conditionId o) (o_tokenId o) (o_side o)
          (o_price o) (o_size o) (o_orderType o) (o_expiration o)
          (o_clobOrderId o) st
          (match msg with Some _ => msg | None => o_statusMessage o end)
          (o_filledSize o).

Definition order_set_live (clob : string) (o : Order) : Order :=
  mkOrder (o_id o) (o_userId o) (o_conditionId o) (o_tokenId o) (o_side o)
          (o_price o) (o_size o) (o_orderType o) (o_expiration o)
          (Some clob) LIVE (o_statusMessage o) (o_filledSize o).

Definition order_set_filled (st : option OrderStatus) (filled : Q)
    (o : Order) : Order :=
  mkOrder (o_id o) (o_userId o) (o_conditionId o) (o_tokenId o) (o_side o)
          (o_price o) (o_size o) (o_orderType o) (o_expiration o)
          (o_clobOrderId o)
          (match st with Some s => s | None => o_status o end)
          (o_statusMessage o) (Some filled).

Record Activity := mkActivity {
  a_userId : string;
  a_action : string;
  a_resourceId : string
}.

Record Transaction := mkTransaction {
  t_userId : string;
  t_type : string;
  t_status : string;
  t_txHash : string
}.

(** ** Remote services *)

(** The payload of [clobClient.postOrder]. *)
Record PostResponse := mkPostResponse {
  r_error : option string;
  r_message : option string;
  r_status : option Z;
  r_orderID : option string;
  r_orderId : option string;
  r_id : option string
}.

(** [createOrder] followed by [postOrder] of the CLOB client: either call
    throws, or [postOrder] returns a payload ([None] is [undefined]). *)
Inductive PostOutcome :=
| PostThrows (e : Js.Error)
| PostReturns (r : option PostResponse).

(** The payload of [clobClient.getOrder]; [size_matched] is given as the
    number [parseFloat] reads from it. *)
Record ClobOrder := mkClobOrder {
  c_status : option string;
  c_state : option string;
  c_size_matched : option Q;
  c_sizeMatched : option Q
}.

Inductive GetOrderOutcome :=
| GetThrows (e : Js.Error)
| GetReturns (c : option ClobOrder).

(** [fetch] of the CLOB market: it throws, answers not-ok, or answers a
    market whose [neg_risk] field is (or is not) [true]. *)
Inductive ClobMarketOutcome :=
| ClobFetchThrows
| ClobFetchNotOk
| ClobFetchOk (neg_risk : bool).

(** [fetch] of the Gamma markets: the list holds, per market returned,
    whether [negRisk === true || neg_risk === true]. *)
Inductive GammaOutcome :=
| GammaFetchThrows
| GammaFetchNotOk
| GammaFetchOk (markets : list bool).

(** The payload of [relayClient.deploy]. *)
Record DeployResponse := mkDeployResponse {
  d_proxyAddress : option string;
  d_proxyWallet : option string;
  d_transactionID : option string;
  d_transactionHash : option string
}.

Inductive DeployOutcome :=
| DeployThrows (e : Js.Error)
| DeployReturns (r : option DeployResponse).

(** The result of [relayClient.pollUntilState]. *)
Record PollResult := mkPollResult {
  pr_proxyAddress : option string;
  pr_transactionHash : option string
}.

Inductive PollOutcome :=
| PollThrows (e : Js.Error)
| PollReturns (r : option PollResult).

Inductive CodeOutcome :=
| CodeThrows (e : Js.Error)
| CodeReturns (code : string).

(** The payload of [deriveApiKey] and [createApiKey]. *)
Record KeyResponse := mkKeyResponse {
  k_apiKey : option string;
  k_key : option string;
  k_apiSecret : option string;
  k_secret : option string;
  k_apiPassphrase : option string;
  k_passphrase : option string
}.

Inductive KeyOutcome :=
| KeyThrows (e : Js.Error)
| KeyReturns (r : option KeyResponse).

(** The transcript of remote calls, oldest first. *)
Inductive Event :=
| EvFetchClobMarket (conditionId : string)
| EvFetchGammaMarkets (tokenId : string)
| EvPostOrder (tokenId : string) (negRisk : bool)
| EvGetOrder (clobOrderId : string)
| EvCancelOrder (clobOrderId : string)
| EvRelayDeploy (owner : string)
| EvPollUntilState (transactionID : string)
| EvGetCode (address : string)
| EvSleep (ms : Z)
| EvDeriveApiKey (owner : string)
| EvCreateApiKey (owner : string).

Record OrderOptions := mkOrderOptions {
  oo_tokenID : string;
  oo_price : Q;
  oo_size : Q;
  oo_side : OrderSide;
  oo_expiration : option Z
}.

(** Everything outside the process.  Each remote answer is a function of
    the transcript so far and of the call's arguments. *)
Record World := mkWorld {
  w_cuid : nat -> string;
  w_builderConfigured : bool;
  w_validateApiKey : string -> option string;
  w_externalId : string -> option string;
  w_fetchClobMarket : list Event -> string -> ClobMarketOutcome;
  w_fetchGammaMarkets : list Event -> string -> GammaOutcome;
  w_postOrder : list Event -> OrderOptions -> OrderType -> bool -> PostOutcome;
  w_stringify : PostResponse -> string;
  w_getOrder : list Event -> string -> GetOrderOutcome;
  w_cancelOrder : list Event -> string -> option Js.Error;
  w_relayDeploy : list Event -> string -> DeployOutcome;
  w_pollUntilState : list Event -> string -> PollOutcome;
  w_getCode : list Event -> string -> CodeOutcome;
  w_getCreate2Address : string -> option string;
  w_deriveApiKey : list Event -> string -> KeyOutcome;
  w_createApiKey : list Event -> string -> KeyOutcome;
  w_base64_decode : string -> option (list nat);
  w_base64_encode : list nat -> string;
  w_toFixed2 : Q -> string
}.

(** ** Process state and the monad of the embedding *)

Record State := mkState {
  users : gmap string User;
  orders : list Order;
  transactions : list Transaction;
  activityLog : list Activity;
  marketNegRiskCache : gmap string bool;
  trace : list Event;
  (* [console.warn] lines that the claims refer to *)
  warnings : list string;
  (* ghost: the status of a user after each write to its row, oldest first *)
  statusHistory : list (string * UserStatus)
}.

Inductive Result (A : Type) :=
| Ok (a : A)
| Throw (e : Js.Error).
Arguments Ok {A} a.
Arguments Throw {A} e.

Definition M (A : Type) : Type := State -> Result A * State.

Definition ret {A} (a : A) : M A := fun s => (Ok a, s).

Definition throw {A} (e : Js.Error) : M A := fun s => (Throw e, s).

Definition bind {A B} (m : M A) (k : A -> M B) : M B :=
  fun s =>
    match m s with
    | (Ok a, s') => k a s'
    | (Throw e, s') => (Throw e, s')
    end.

(** [try { m } catch (e) { h e }]. *)
Definition try_catch {A} (m : M A) (h : Js.Error -> M A) : M A :=
  fun s =>
    match m s with
    | (Ok a, s') => (Ok a, s')
    | (Throw e, s') => h e s'
    end.

Declare Scope monad_scope.
Delimit Scope monad_scope with monad.
Notation "x <- m ;; k" := (bind m (fun x => k))
  (at level 100, m at next level, right associativity) : monad_scope.
Notation "m >> k" := (bind m (fun _ => k))
  (at level 100, right associativity) : monad_scope.
Open Scope monad_scope.

Definition get : M State := fun s => (Ok s, s).

Definition modify (f : State -> State) : M unit := fun s => (Ok tt, f s).

(** A write to the row of user [id]; the ghost history records the status
    the row has afterwards. *)
Definition update_user (id : string) (f : User -> User) (s : State) : State :=
  mkState (alter f id (users s)) (orders s) (transactions s) (activityLog s)
          (marketNegRiskCache s) (trace s) (warnings s)
          (match users s !! id with
           | Some u => statusHistory s ++ [(id, u_status (f u))]
           | None => statusHistory s
           end).

Definition set_orders (f : list Order -> list Order) (s : State) : State :=
  mkState (users s) (f (orders s)) (transactions s) (activityLog s)
          (marketNegRiskCache s) (trace s) (warnings s) (statusHistory s).

Definition add_transaction (t : Transaction) (s : State) : State :=
  mkState (users s) (orders s) (transactions s ++ [t]) (activityLog s)
          (marketNegRiskCache s) (trace s) (warnings s) (statusHistory s).

Definition add_activity (a : Activity) (s : State) : State :=
  mkState (users s) (orders s) (transactions s) (activityLog s ++ [a])
          (marketNegRiskCache s) (trace s) (warnings s) (statusHistory s).

Definition cache_set (k : string) (v : bool) (s : State) : State :=
  mkState (users s) (orders s) (transactions s) (activityLog s)
          (<[k := v]> (marketNegRiskCache s)) (trace s) (warnings s)
          (statusHistory s).

Definition add_event (e : Event) (s : State) : State :=
  mkState (users s) (orders s) (transactions s) (activityLog s)
          (marketNegRiskCache s) (trace s ++ [e]) (warnings s) (statusHistory s).

Definition add_warning (line : string) (s : State) : State :=
  mkState (users s) (orders s) (transactions s) (activityLog s)
          (marketNegRiskCache s) (trace s) (warnings s ++ [line])
          (statusHistory s).

(** A remote call: the oracle reads the transcript, the call is recorded. *)
Definition remote {A} (ask : list Event -> A) (e : Event) : M A :=
  fun s => (Ok (ask (trace s)), add_event e s).

(** *** Prisma *)

Module prisma.

(** [prisma.user.findUnique({ where: { id } })]. *)
Definition user_findUnique (id : string) : M (option User) :=
  fun s => (Ok (users s !! id), s).

(** [prisma.user.update({ where: { id }, data })]. *)
Definition user_update (id : string) (f : User -> User) : M unit :=
  modify (update_user id f).

(** [prisma.order.create]: the row is appended and its position returned
    with it; later [update({ where: { id: order.id } })] calls address the
    row by that position. *)
Definition order_create (w : World) (mk : string -> Order) : M (nat * Order) :=
  fun s =>
    let row := length (orders s) in
    let o := mk (w_cuid w row) in
    (Ok (row, o), set_orders (fun os => (os ++ [o])%list) s).

Definition order_update (row : nat) (f : Order -> Order) : M unit :=
  modify (set_orders (alter f row)).

(** [prisma.order.findUnique({ where: { id } })] with its row. *)
Fixpoint find_row (p : Order -> bool) (os : list Order) (row : nat)
    : option (nat * Order) :=
  match os with
  | [] => None
  | o :: os' => if p o then Some (row, o) else find_row p os' (S row)
  end.

Definition order_findUnique_id (id : string) : M (option (nat * Order)) :=
  fun s => (Ok (find_row (fun o => bool_decide (o_id o = id)) (orders s) 0), s).

Definition order_findUnique_clobOrderId (id : string)
    : M (option (nat * Order)) :=
  fun s =>
    (Ok (find_row (fun o => bool_decide (o_clobOrderId o = Some id))
                  (orders s) 0), s).

(** [prisma.order.updateMany({ where: { clobOrderId: { in: ids } }, data })]. *)
Definition order_updateMany_clobOrderId_in (ids : list string)
    (f : Order -> Order) : M unit :=
  modify (set_orders (fmap (fun o =>
    match o_clobOrderId o with
    | Some c => if bool_decide (c ∈ ids) then f o else o
    | None => o
    end))).

Definition activityLog_create (a : Activity) : M unit :=
  modify (add_activity a).

Definition transaction_create (t : Transaction) : M unit :=
  modify (add_transaction t).

End prisma.

Definition UserStatus_name (st : UserStatus) : string :=
  match st with
  | CREATED => "CREATED"
  | SAFE_DEPLOYING => "SAFE_DEPLOYING"
  | SAFE_DEPLOYED => "SAFE_DEPLOYED"
  | SETTING_UP => "SETTING_UP"
  | READY => "READY"
  end.

Definition OrderStatus_name (st : OrderStatus) : string :=
  match st with
  | PENDING => "PENDING"
  | SUBMITTING => "SUBMITTING"
  | LIVE => "LIVE"
  | MATCHED => "MATCHED"
  | FILLED => "FILLED"
  | CANCELLED => "CANCELLED"
  | FAILED => "FAILED"
  end.

(** ** key.service.ts *)

Module KeyService.

(** [getUserWallet]: the wallet of the stored private key, given by its
    address. *)
Definition getUserWallet (userId : string) : M string :=
  ou <- prisma.user_findUnique userId ;;
  match ou with
  | Some u =>
      if u_privateKey u then ret (u_eoaAddress u)
      else throw (Js.error "User or private key not found")
  | None => throw (Js.error "User or private key not found")
  end.

Definition storeApiCredentials (userId : string) (c : Credentials) : M unit :=
  prisma.user_update userId (user_set_credentials (Some c)).

Definition is_space (c : ascii) : bool :=
  let n := nat_of_ascii c in
  (n =? 32)%nat || ((9 <=? n)%nat && (n <=? 13)%nat).

Definition is_base64_char (c : ascii) : bool :=
  let n := nat_of_ascii c in
  ((65 <=? n)%nat && (n <=? 90)%nat) || ((97 <=? n)%nat && (n <=? 122)%nat) ||
  ((48 <=? n)%nat && (n <=? 57)%nat) || (n =? 43)%nat || (n =? 47)%nat.

(** [secret.replace(/\s/g, '').replace(/-/g, '+').replace(/_/g, '/')]. *)
Fixpoint to_standard (s : string) : string :=
  match s with
  | EmptyString => EmptyString
  | String c s' =>
      if is_space c then to_standard s'
      else if Ascii.eqb c "-" then String "+" (to_standard s')
      else if Ascii.eqb c "_" then String "/" (to_standard s')
      else String c (to_standard s')
  end.

(** [while (secret.length % 4 !== 0) secret += '=']. *)
Definition pad4 (s : string) : string :=
  match (String.length s mod 4)%nat with
  | 1%nat => s ++ "==="
  | 2%nat => s ++ "=="
  | 3%nat => s ++ "="
  | _ => s
  end.

(** [/^[A-Za-z0-9+/]*={0,2}$/.test(s)]. *)
Fixpoint base64Regex_test (s : string) : bool :=
  match s with
  | EmptyString => true
  | String c s' =>
      if is_base64_char c then base64Regex_test s'
      else bool_decide (s = "=") || bool_decide (s = "==")
  end.

Definition corrupted : Js.Error :=
  Js.error "Stored API secret is corrupted (invalid base64). Call reset_credentials to regenerate.".

Definition getApiCredentials (w : World) (userId : string) : M Credentials :=
  ou <- prisma.user_findUnique userId ;;
  match ou with
  | Some u =>
      match u_credentials u with
      | Some c =>
          let secret := pad4 (to_standard (secret c)) in
          match w_base64_decode w secret with
          | Some _ =>
              if base64Regex_test secret
              then ret (mkCredentials (key c) secret (passphrase c))
              else throw corrupted
          | None => throw corrupted
          end
      | None => throw (Js.error "API credentials not found for user")
      end
  | None => throw (Js.error "API credentials not found for user")
  end.

End KeyService.

(** ** order.service.ts *)

Module OrderService.

Record CreateOrderParams := mkParams {
  userId : string;
  conditionId : string;
  tokenId : string;
  side : OrderSide;
  price : Q;
  size : Q;
  orderType : option OrderType;
  expiration : option Z
}.

Record OrderResult := mkOrderResult {
  res_orderId : string;
  res_clobOrderId : option string;
  res_status : OrderStatus;
  res_message : option string
}.

Definition isNegRiskMarket (w : World) (conditionId : string)
    (tokenId : option string) : M bool :=
  s <- get ;;
  match marketNegRiskCache s !! conditionId with
  | Some cached => ret cached
  | None =>
      let default := modify (cache_set conditionId false) >> ret false in
      clobResponse <- remote (fun t => w_fetchClobMarket w t conditionId)
                             (EvFetchClobMarket conditionId) ;;
      match clobResponse with
      | ClobFetchOk isNegRisk =>
          modify (cache_set conditionId isNegRisk) >> ret isNegRisk
      | ClobFetchThrows => default
      | ClobFetchNotOk =>
          match tokenId with
          | Some tok =>
              if Js.nonempty tok then
                response <- remote (fun t => w_fetchGammaMarkets w t tok)
                                   (EvFetchGammaMarkets tok) ;;
                match response with
                | GammaFetchOk (isNegRisk :: _) =>
                    modify (cache_set conditionId isNegRisk) >> ret isNegRisk
                | _ => default
                end
              else default
          | None => default
          end
      end
  end.

Definition mapOrderType (orderType : OrderType) : OrderType :=
  match orderType with
  | GTC | LIMIT => GTC
  | GTD => GTD
  | FOK => FOK
  | FAK => FAK
  | MARKET => FOK
  end.

(** The three input checks at the head of [createOrder]. *)
Definition validate (p : CreateOrderParams) : M unit :=
  if Qltb (price p) (1 # 100) || Qltb (99 # 100) (price p)
  then throw (Js.error "Price must be between 0.01 and 0.99")
  else if Qleb (size p) 0
  then throw (Js.error "Size must be positive")
  else if bool_decide (default GTC (orderType p) = GTD)
          && negb (Js.truthy_num (expiration p))
  then throw (Js.error "GTD orders require an expiration timestamp")
  else ret tt.

(** [orderResponse?.error || orderResponse?.status === 400 ||
    orderResponse?.status === 422]. *)
Definition error_shaped (r : PostResponse) : bool :=
  Js.truthy (r_error r) ||
  bool_decide (r_status r = Some 400%Z) || bool_decide (r_status r = Some 422%Z).

(** The helper [attemptOrder] of [createOrder]. *)
Definition attemptOrder (w : World) (oo : OrderOptions) (clobOrderType : OrderType)
    (negRiskFlag : bool) : M (option PostResponse) :=
  out <- remote (fun t => w_postOrder w t oo clobOrderType negRiskFlag)
                (EvPostOrder (oo_tokenID oo) negRiskFlag) ;;
  match out with
  | PostThrows e => throw e
  | PostReturns None => ret None
  | PostReturns (Some orderResponse) =>
      if error_shaped orderResponse then
        let errorMsg :=
          Js.or_default (Js.or (r_error orderResponse) (r_message orderResponse))
                        "Order rejected" in
        throw (Js.mkError errorMsg (Some (w_stringify w orderResponse)))
      else ret (Some orderResponse)
  end.

(** How the handler of the first attempt reads the rejection text. *)
Inductive Rejection :=
| CorruptedSigning
| InvalidSignature
| TickSize
| BalanceAllowance
| OtherRejection.

Definition classify (errorMsg : string) : Rejection :=
  if Js.includes errorMsg "Invalid character" || Js.includes errorMsg "base64"
  then CorruptedSigning
  else if Js.includes errorMsg "INVALID_SIGNATURE"
  then InvalidSignature
  else if Js.includes errorMsg "MIN_TICK_SIZE" || Js.includes errorMsg "tick"
  then TickSize
  else if Js.includes errorMsg "balance" || Js.includes errorMsg "allowance"
          || Js.includes errorMsg "INSUFFICIENT" || Js.includes errorMsg "not enough"
  then BalanceAllowance
  else OtherRejection.

(** The first attempt and its [catch (firstError)] handler. *)
Definition submitOrder (w : World) (conditionId : string) (oo : OrderOptions)
    (clobOrderType : OrderType) (isNegRisk : bool) : M (option PostResponse) :=
  try_catch (attemptOrder w oo clobOrderType isNegRisk)
    (fun firstError =>
       let errorMsg := Js.detail firstError in
       match classify errorMsg with
       | CorruptedSigning =>
           throw (Js.error ("Order signing failed (credentials may be corrupted): "
                            ++ errorMsg ++ ". Try calling reset_credentials."))
       | InvalidSignature =>
           throw (Js.error
             "Invalid signature - credentials may be corrupted. Try reset_credentials.")
       | TickSize =>
           throw (Js.error ("Price does not meet minimum tick size requirements: "
                            ++ errorMsg))
       | BalanceAllowance =>
           try_catch
             (response <- attemptOrder w oo clobOrderType (negb isNegRisk) ;;
              modify (cache_set conditionId (negb isNegRisk)) >>
              ret response)
             (fun retryError =>
                throw (Js.error
                  ("Order failed with both exchange contracts. Original error: "
                   ++ errorMsg
                   ++ ". This usually means insufficient USDC balance in your Safe wallet. Please ensure you have enough USDC deposited.")))
       | OtherRejection =>
           throw (Js.error ("Polymarket rejected order: " ++ errorMsg))
       end).

(** [clobResponse.orderID || clobResponse.orderId || clobResponse.id || null]. *)
Definition extract_clobOrderId (r : PostResponse) : option string :=
  let v := Js.or (Js.or (r_orderID r) (r_orderId r)) (r_id r) in
  if Js.truthy v then v else None.

Definition orderOptions_of (p : CreateOrderParams) : OrderOptions :=
  let clobOrderType := mapOrderType (default GTC (orderType p)) in
  mkOrderOptions (tokenId p) (price p) (size p) (side p)
    (if bool_decide (clobOrderType = GTD) && Js.truthy_num (expiration p)
     then expiration p else None).

(** The [try] block up to the first attempt: the row goes to SUBMITTING,
    the wallet and the credentials are read, the routing is looked up. *)
Definition prepare (w : World) (p : CreateOrderParams) (row : nat) : M bool :=
  prisma.order_update row (order_set_status SUBMITTING None) >>
  wallet <- KeyService.getUserWallet (userId p) ;;
  credentials <- KeyService.getApiCredentials w (userId p) ;;
  isNegRisk <- isNegRiskMarket w (conditionId p) (Some (tokenId p)) ;;
  ret isNegRisk.

(** The [try] block after the attempts: the id is read off the payload
    and the row written. *)
Definition record (p : CreateOrderParams) (row : nat) (order : Order)
    (response : option PostResponse) : M OrderResult :=
  match response with
  | None =>
      throw (Js.error "Cannot read properties of undefined (reading 'orderID')")
  | Some clobResponse =>
      match extract_clobOrderId clobResponse with
      | None =>
          prisma.order_update row
            (order_set_status FAILED
               (Some "No order ID returned from Polymarket - order may not have been placed")) >>
          throw (Js.error "Order submission failed - no order ID received from Polymarket")
      | Some clobOrderId =>
          prisma.order_update row (order_set_live clobOrderId) >>
          prisma.activityLog_create
            (mkActivity (userId p) "ORDER_CREATED" (o_id order)) >>
          ret (mkOrderResult (o_id order) (Some clobOrderId) LIVE None)
      end
  end.

(** The body of the [try] block of [createOrder]. *)
Definition createOrder_try (w : World) (p : CreateOrderParams)
    (row : nat) (order : Order) : M OrderResult :=
  isNegRisk <- prepare w p row ;;
  response <- submitOrder w (conditionId p) (orderOptions_of p)
                (mapOrderType (default GTC (orderType p))) isNegRisk ;;
  record p row order response.

(** The [catch (error)] block of [createOrder]. *)
Definition createOrder_catch (p : CreateOrderParams) (row : nat) (order : Order)
    (error : Js.Error) : M OrderResult :=
  prisma.order_update row (order_set_status FAILED (Some (Js.message error))) >>
  prisma.activityLog_create (mkActivity (userId p) "ORDER_FAILED" (o_id order)) >>
  throw error.

(** [createOrder] up to the [try]: the input checks, the user checks and
    the PENDING row. *)
Definition createOrder_head (w : World) (p : CreateOrderParams)
    : M (nat * Order) :=
  validate p >>
  ou <- prisma.user_findUnique (userId p) ;;
  match ou with
  | None => throw (Js.error "User not found")
  | Some user =>
      if negb (bool_decide (u_status user = READY))
      then throw (Js.error ("User not ready for trading. Current status: "
                            ++ UserStatus_name (u_status user)))
      else if negb (Js.truthy (u_safeAddress user))
      then throw (Js.error "Safe wallet not deployed")
      else
        prisma.order_create w (fun id =>
          mkOrder id (userId p) (conditionId p) (tokenId p) (side p)
                  (price p) (size p) (default GTC (orderType p))
                  (if Js.truthy_num (expiration p) then expiration p else None)
                  None PENDING None None)
  end.

Definition createOrder (w : World) (p : CreateOrderParams) : M OrderResult :=
  created <- createOrder_head w p ;;
  let '(row, order) := created in
  try_catch (createOrder_try w p row order) (createOrder_catch p row order).

(** [parseFloat(a || b || '0')] on the two spellings of the field. *)
Definition matched_of (a b : option Q) : Q :=
  match a with
  | Some q => q
  | None => match b with Some q => q | None => 0%Q end
  end.

Definition is_filled (status : string) (matched size : Q) : bool :=
  bool_decide (status = "MATCHED") || bool_decide (status = "FILLED")
  || Qleb size matched.

(** The body of the [try] block of [cancelOrder]. *)
Definition cancelOrder_try (w : World) (userId : string) (row : nat) (order : Order)
    (clobOrderId : string) : M OrderResult :=
  wallet <- KeyService.getUserWallet userId ;;
  credentials <- KeyService.getApiCredentials w userId ;;
  before <- remote (fun t => w_getOrder w t clobOrderId) (EvGetOrder clobOrderId) ;;
  let '(actualStatus, sizeMatched) :=
    match before with
    | GetReturns (Some clobOrder) =>
        (Js.or_default (Js.or (c_status clobOrder) (c_state clobOrder)) "UNKNOWN",
         matched_of (c_size_matched clobOrder) (c_sizeMatched clobOrder))
    | _ => ("UNKNOWN", 0%Q)
    end in
  if is_filled actualStatus sizeMatched (o_size order) then
    prisma.order_update row (order_set_filled (Some FILLED) sizeMatched) >>
    ret (mkOrderResult (o_id order) (Some clobOrderId) FILLED
                       (Some "Order already filled"))
  else
    remote (fun t => w_cancelOrder w t clobOrderId) (EvCancelOrder clobOrderId) >>
    after <- remote (fun t => w_getOrder w t clobOrderId) (EvGetOrder clobOrderId) ;;
    finalStatus <-
      match after with
      | GetReturns (Some clobOrderAfter) =>
          let statusAfter := Js.or_default (c_status clobOrderAfter) "" in
          let matchedAfter := matched_of (c_size_matched clobOrderAfter) None in
          if is_filled statusAfter matchedAfter (o_size order) then ret FILLED
          else if Qltb 0 matchedAfter then
            prisma.order_update row (order_set_filled None matchedAfter) >>
            ret CANCELLED
          else ret CANCELLED
      | _ => ret CANCELLED
      end ;;
    prisma.order_update row (order_set_status finalStatus None) >>
    prisma.activityLog_create (mkActivity userId "ORDER_CANCELLED" (o_id order)) >>
    ret (mkOrderResult (o_id order) (Some clobOrderId) CANCELLED None).

(** The lookup of [cancelOrder]: by local id first, then by CLOB id. *)
Definition findOrder (orderId : string) : M (option (nat * Order)) :=
  byId <- prisma.order_findUnique_id orderId ;;
  match byId with
  | Some _ => ret byId
  | None => prisma.order_findUnique_clobOrderId orderId
  end.

Definition cancelOrder (w : World) (userId orderId : string) : M OrderResult :=
  found <- findOrder orderId ;;
  match found with
  | None =>
      throw (Js.error ("Order not found. Tried both local ID and CLOB order ID: "
                       ++ orderId))
  | Some (row, order) =>
      if negb (bool_decide (o_userId order = userId))
      then throw (Js.error "Order does not belong to user")
      else
        match o_clobOrderId order with
        | Some clobOrderId =>
            if negb (Js.nonempty clobOrderId)
            then throw (Js.error "Order has no CLOB ID")
            else if negb (bool_decide (o_status order = LIVE))
            then throw (Js.error ("Cannot cancel order with status: "
                                  ++ OrderStatus_name (o_status order)))
            else
              try_catch (cancelOrder_try w userId row order clobOrderId)
                (fun error =>
                   prisma.activityLog_create
                     (mkActivity userId "ORDER_CANCEL_FAILED" (o_id order)) >>
                   throw error)
        | None => throw (Js.error "Order has no CLOB ID")
        end
  end.

End OrderService.

(** ** routes/orders.ts: POST /api/orders/execute-atomic *)

Module Routes.

(** One element of [req.body.orders].  A field is [None] when it is
    missing or fails the handler's [typeof] test. *)
Record OrderInput := mkOrderInput {
  in_conditionId : option string;
  in_marketId : option string;
  in_tokenId : option string;
  in_side : option OrderSide;
  in_price : option Q;
  in_size : option Q;
  in_orderType : option OrderType
}.

Record Request := mkRequest {
  req_orders : option (list OrderInput);
  req_userId : option string;
  req_apiKey : option string;
  req_metadata : option string
}.

Record OrderEntry := mkOrderEntry {
  e_index : nat;
  e_orderId : option string;
  e_clobOrderId : option string;
  e_success : bool;
  e_error : option string
}.

Record Response := mkResponse {
  http_status : Z;
  success : bool;
  text : string;
  orderResults : list OrderEntry
}.

(** The mutable locals of the handler. *)
Record Locals := mkLocals {
  hasFailure : bool;
  submittedOrders : list string;
  results : list OrderEntry
}.

(** [new AppError(message, statusCode)]; the handler hands it to [next]. *)
Definition AppError (msg : string) (statusCode : Z) : Js.Error := Js.error msg.

Definition resolveUser (w : World) (req : Request) : M (option (string * User)) :=
  s <- get ;;
  let byKey :=
    match req_apiKey req with
    | Some apiKey =>
        match w_validateApiKey w apiKey with
        | Some uid => (fun u => (uid, u)) <$> users s !! uid
        | None => None
        end
    | None => None
    end in
  let byId :=
    match byKey, req_userId req with
    | None, Some bodyUserId =>
        if Js.nonempty bodyUserId
        then (fun u => (bodyUserId, u)) <$> users s !! bodyUserId
        else None
    | _, _ => byKey
    end in
  let byExternalId :=
    match byId, req_userId req with
    | None, Some bodyUserId =>
        if Js.nonempty bodyUserId
        then match w_externalId w bodyUserId with
             | Some uid => (fun u => (uid, u)) <$> users s !! uid
             | None => None
             end
        else None
    | _, _ => byId
    end in
  ret byExternalId.

Definition index_text (i : nat) : string := pretty i.

(** The per-order checks of the validation loop. *)
Fixpoint validateOrders (orders : list OrderInput) (i : nat) : M unit :=
  match orders with
  | [] => ret tt
  | order :: rest =>
      if negb (Js.truthy (in_tokenId order))
      then throw (AppError ("Order " ++ index_text i ++ ": tokenId is required") 400)
      else if match in_price order with
              | Some price => Qltb price (1 # 100) || Qltb (99 # 100) price
              | None => true
              end
      then throw (AppError ("Order " ++ index_text i
                            ++ ": price must be between 0.01 and 0.99") 400)
      else if match in_size order with
              | Some size => Qleb size 0
              | None => true
              end
      then throw (AppError ("Order " ++ index_text i
                            ++ ": size must be a positive number") 400)
      else if match in_side order with Some _ => false | None => true end
      then throw (AppError ("Order " ++ index_text i
                            ++ ": side must be BUY or SELL") 400)
      else validateOrders rest (S i)
  end.

(** The body of the [try] block of one loop iteration. *)
Definition submitOne (w : World) (userId : string) (i : nat)
    (orderInput : OrderInput) (acc : Locals) : M Locals :=
  let tokenId := default "" (in_tokenId orderInput) in
  let price := default 0%Q (in_price orderInput) in
  let size := default 0%Q (in_size orderInput) in
  let side := default SELL (in_side orderInput) in
  let orderType := default FOK (in_orderType orderInput) in
  created <- prisma.order_create w (fun id =>
    mkOrder id userId
      (Js.or_default (Js.or (in_conditionId orderInput) (in_marketId orderInput))
                     "atomic-batch")
      tokenId side price size orderType None None PENDING None None) ;;
  let '(row, dbOrder) := created in
  let orderOptions := mkOrderOptions tokenId price size side None in
  out <- remote (fun t => w_postOrder w t orderOptions orderType false)
                (EvPostOrder tokenId false) ;;
  match out with
  | PostThrows e => throw e
  | PostReturns None =>
      throw (Js.error "Cannot read properties of undefined (reading 'orderID')")
  | PostReturns (Some response) =>
      if OrderService.error_shaped response
      then throw (Js.error
             (Js.or_default (Js.or (r_error response) (r_message response))
                            "Order rejected"))
      else
        match Js.or (Js.or (r_orderID response) (r_orderId response))
                    (r_id response) with
        | Some clobOrderId =>
            if Js.nonempty clobOrderId then
              prisma.order_update row (order_set_live clobOrderId) >>
              ret (mkLocals (hasFailure acc)
                     (submittedOrders acc ++ [clobOrderId])
                     (results acc ++
                      [mkOrderEntry i (Some (o_id dbOrder)) (Some clobOrderId)
                                    true None]))
            else throw (Js.error "No order ID returned from Polymarket")
        | None => throw (Js.error "No order ID returned from Polymarket")
        end
  end.

(** The [catch (orderError)] block of one loop iteration. *)
Definition recordFailure (i : nat) (acc : Locals) (orderError : Js.Error)
    : M Locals :=
  ret (mkLocals true (submittedOrders acc)
         (results acc ++
          [mkOrderEntry i None None false
             (Some (if Js.nonempty (Js.message orderError)
                    then Js.message orderError else "Order failed"))])).

(** [for (let i = 0; i < orders.length; i++) { try { ... } catch { ... } }] *)
Fixpoint processOrders (w : World) (userId : string) (orders : list OrderInput)
    (i : nat) (acc : Locals) : M Locals :=
  match orders with
  | [] => ret acc
  | orderInput :: rest =>
      acc' <- try_catch (submitOne w userId i orderInput acc)
                        (recordFailure i acc) ;;
      processOrders w userId rest (S i) acc'
  end.

(** [for (const clobOrderId of submittedOrders) { try { cancelOrder } catch {} }] *)
Fixpoint cancelSubmitted (w : World) (submitted : list string) : M unit :=
  match submitted with
  | [] => ret tt
  | clobOrderId :: rest =>
      remote (fun t => w_cancelOrder w t clobOrderId) (EvCancelOrder clobOrderId) >>
      cancelSubmitted w rest
  end.

Definition rollback (w : World) (submitted : list string) : M unit :=
  cancelSubmitted w submitted >>
  prisma.order_updateMany_clobOrderId_in submitted
    (order_set_status CANCELLED (Some "Cancelled due to atomic batch failure")).

(** The rollback and the answer; the MCP tool returns the same object
    without an HTTP status. *)
Definition respond (w : World) (acc : Locals) : M Response :=
  if hasFailure acc && negb (bool_decide (submittedOrders acc = []))
  then
    rollback w (submittedOrders acc) >>
    ret (mkResponse 400 false "Atomic batch failed - all orders cancelled"
                    (results acc))
  else
    ret (mkResponse 200 true
           ("Successfully executed " ++ pretty (length (results acc))
            ++ " orders atomically")
           (results acc)).

Definition execute_atomic (w : World) (req : Request) : M Response :=
  match req_orders req with
  | None | Some [] =>
      throw (AppError "orders array is required and must not be empty" 400)
  | Some orders =>
      if (10 <? length orders)%nat
      then throw (AppError "Maximum 10 orders per atomic batch" 400)
      else
        found <- resolveUser w req ;;
        match found with
        | None =>
            throw (AppError
              "User not found. Ensure your API key is valid or provide a valid userId."
              404)
        | Some (userId, user) =>
            if negb (Js.truthy (u_safeAddress user))
            then throw (AppError "User wallet not set up. Call setup_wallet first." 400)
            else
              validateOrders orders 0 >>
              wallet <- KeyService.getUserWallet userId ;;
              credentials <- KeyService.getApiCredentials w userId ;;
              acc <- processOrders w userId orders 0 (mkLocals false [] []) ;;
              respond w acc
        end
  end.

End Routes.

(** ** wallet.service.ts *)

Module WalletService.

(** [code !== '0x' && code.length > 2]. *)
Definition has_code (code : string) : bool :=
  negb (bool_decide (code = "0x")) && (2 <? String.length code)%nat.

Definition saveSafeDeployment (userId ownerAddress safeAddress txHash : string)
    : M unit :=
  prisma.transaction_create (mkTransaction userId "SAFE_DEPLOY" "CONFIRMED" txHash) >>
  prisma.user_update userId (user_set_safe safeAddress) >>
  prisma.activityLog_create (mkActivity userId "SAFE_DEPLOYED" safeAddress).

(** [getPredictedSafeAddress]: the CREATE2 address of the owner, [null]
    when the derivation throws. *)
Definition getPredictedSafeAddress (w : World) (ownerAddress : string)
    : option string :=
  w_getCreate2Address w ownerAddress.

Definition getCode (w : World) (address : string) : M string :=
  out <- remote (fun t => w_getCode w t address) (EvGetCode address) ;;
  match out with
  | CodeThrows e => throw e
  | CodeReturns code => ret code
  end.

Definition sleep (ms : Z) : M unit :=
  remote (fun _ => tt) (EvSleep ms).

(** The locals of the retry loop of [deploySafeWallet]. *)
Record DeployLocals := mkDeployLocals {
  response : option DeployResponse;
  lastError : option Js.Error;
  knownProxyWallet : option string
}.

(** How one iteration of the retry loop ends. *)
Inductive LoopExit :=
| Return (safeAddress : string)      (* [return] out of [deploySafeWallet] *)
| Break (loc : DeployLocals)
| Continue (loc : DeployLocals).

Definition maxRetries : nat := 3.

(** The [catch (deployError)] block of one attempt. *)
Definition deployAttempt_catch (w : World) (userId wallet : string) (attempt : nat)
    (loc : DeployLocals) (deployError : Js.Error) : M LoopExit :=
  let errorMsg := if Js.nonempty (Js.message deployError)
                  then Js.message deployError else Js.toString deployError in
  let known :=
    match Js.match_address errorMsg, Js.truthy (knownProxyWallet loc) with
    | Some a, false => Some a
    | _, _ => knownProxyWallet loc
    end in
  let loc' := mkDeployLocals (response loc) (Some deployError) known in
  let addressToCheck :=
    if Js.truthy known then known else getPredictedSafeAddress w wallet in
  let wait :=
    (if (attempt <? maxRetries)%nat
     then sleep (Z.of_nat attempt * 2000)
     else ret tt) >>
    ret (Continue loc') in
  match addressToCheck with
  | Some a =>
      if Js.nonempty a then
        code <- getCode w a ;;
        if has_code code then
          saveSafeDeployment userId wallet a "pre-existing" >>
          ret (Return a)
        else wait
      else wait
  | None => wait
  end.

(** One iteration of the retry loop. *)
Definition deployAttempt (w : World) (userId wallet : string) (attempt : nat)
    (loc : DeployLocals) : M LoopExit :=
  out <- remote (fun t => w_relayDeploy w t wallet) (EvRelayDeploy wallet) ;;
  match out with
  | DeployThrows e => deployAttempt_catch w userId wallet attempt loc e
  | DeployReturns r =>
      let txId := match r with Some d => d_transactionID d | None => None end in
      let proxyAddr :=
        match r with
        | Some d => Js.or (d_proxyAddress d) (d_proxyWallet d)
        | None => None
        end in
      let finish (loc1 : DeployLocals) : M LoopExit :=
        if Js.truthy txId then ret (Break loc1)
        else deployAttempt_catch w userId wallet attempt loc1
               (Js.error "No transaction ID in deploy response") in
      match proxyAddr with
      | Some a =>
          if Js.nonempty a then
            let loc1 := mkDeployLocals r (lastError loc) (Some a) in
            out <- remote (fun t => w_getCode w t a) (EvGetCode a) ;;
            match out with
            | CodeThrows e => deployAttempt_catch w userId wallet attempt loc1 e
            | CodeReturns code =>
                if has_code code then
                  saveSafeDeployment userId wallet a
                    (Js.or_default
                       (match r with Some d => d_transactionHash d | None => None end)
                       "pre-existing") >>
                  ret (Return a)
                else finish loc1
            end
          else finish (mkDeployLocals r (lastError loc) (knownProxyWallet loc))
      | None => finish (mkDeployLocals r (lastError loc) (knownProxyWallet loc))
      end
  end.

(** [for (let attempt = 1; attempt <= maxRetries; attempt++)]: [n] counts
    the iterations left. *)
Fixpoint deployLoop (w : World) (userId wallet : string) (n attempt : nat)
    (loc : DeployLocals) : M LoopExit :=
  match n with
  | O => ret (Continue loc)
  | S n' =>
      exit <- deployAttempt w userId wallet attempt loc ;;
      match exit with
      | Continue loc' => deployLoop w userId wallet n' (S attempt) loc'
      | _ => ret exit
      end
  end.

Definition deploymentUnresolved (w : World) (known predicted : option string)
    : Js.Error :=
  Js.error
    ("Safe deployment failed - no proxy address returned and Safe not found on-chain. "
     ++ "Known proxy: " ++ Js.or_default known "none"
     ++ ", Predicted: " ++ Js.or_default predicted "none" ++ ". "
     ++ (if w_builderConfigured w
         then "Builder credentials are configured but the relayer rejected the deployment."
         else "CRITICAL: Builder credentials are NOT configured. Set POLY_BUILDER_API_KEY, POLY_BUILDER_SECRET, and POLY_BUILDER_PASSPHRASE environment variables.")
     ++ " If this persists, check your Builder API credentials at https://polymarket.com/settings?tab=builder").

(** The checks made when polling gave no proxy address. *)
Definition recoverAfterPolling (w : World) (userId wallet : string)
    (known : option string) : M string :=
  let tryPredicted : M string :=
    let predictedAddress := getPredictedSafeAddress w wallet in
    let fail := throw (deploymentUnresolved w known predictedAddress) in
    match predictedAddress with
    | Some p =>
        if Js.nonempty p && negb (bool_decide (predictedAddress = known)) then
          code <- getCode w p ;;
          if has_code code then
            saveSafeDeployment userId wallet p "recovered-predicted" >> ret p
          else fail
        else fail
    | None => fail
    end in
  match known with
  | Some k =>
      if Js.nonempty k then
        code <- getCode w k ;;
        if has_code code then
          saveSafeDeployment userId wallet k "recovered-known" >> ret k
        else
          sleep 5000 >>
          codeRetry <- getCode w k ;;
          if has_code codeRetry then
            saveSafeDeployment userId wallet k "recovered-delayed" >> ret k
          else tryPredicted
      else tryPredicted
  | None => tryPredicted
  end.

(** After the retry loop: the submission must have been acknowledged with
    a transaction id; then the relayer is polled. *)
Definition confirmDeployment (w : World) (userId wallet : string)
    (loc : DeployLocals) : M string :=
  let notSubmitted : M string :=
    throw (default (Js.error "Failed to submit Safe deployment after retries")
                   (lastError loc)) in
  match response loc with
  | Some d =>
      match d_transactionID d with
      | Some txId =>
          if Js.nonempty txId then
            polled <- remote (fun t => w_pollUntilState w t txId)
                             (EvPollUntilState txId) ;;
            match polled with
            | PollReturns (Some result) =>
                match pr_proxyAddress result with
                | Some safeAddress =>
                    if Js.nonempty safeAddress then
                      saveSafeDeployment userId wallet safeAddress
                        (default "" (pr_transactionHash result)) >>
                      ret safeAddress
                    else recoverAfterPolling w userId wallet (knownProxyWallet loc)
                | None => recoverAfterPolling w userId wallet (knownProxyWallet loc)
                end
            | _ => recoverAfterPolling w userId wallet (knownProxyWallet loc)
            end
          else notSubmitted
      | None => notSubmitted
      end
  | None => notSubmitted
  end.

(** The body of the [try] block of [deploySafeWallet]. *)
Definition deploySafeWallet_try (w : World) (userId : string) : M string :=
  wallet <- KeyService.getUserWallet userId ;;
  if negb (w_builderConfigured w)
  then throw (Js.error
         "Builder credentials not configured - required for gasless Safe deployment")
  else
    exit <- deployLoop w userId wallet maxRetries 1 (mkDeployLocals None None None) ;;
    match exit with
    | Return safeAddress => ret safeAddress
    | Break loc | Continue loc => confirmDeployment w userId wallet loc
    end.

(** [errorMessage.toLowerCase().includes(...)] of the outer handler. *)
Definition already_deployed (errorMessage : string) : bool :=
  let m := Js.toLowerCase errorMessage in
  Js.includes m "safe already deployed" || Js.includes m "already deployed"
  || Js.includes m "proxy already exists".

(** The inner [try] of the outer handler: [Some a] when it returns the
    recovered address, [None] when it falls through to the revert. *)
Definition recoverDeployed (w : World) (userId errorMessage : string)
    : M (option string) :=
  try_catch
    (wallet <- KeyService.getUserWallet userId ;;
     if w_builderConfigured w then
       fromRetry <-
         match Js.match_address errorMessage with
         | Some a => ret (Some a)
         | None =>
             out <- remote (fun t => w_relayDeploy w t wallet) (EvRelayDeploy wallet) ;;
             match out with
             | DeployReturns (Some retryResponse) =>
                 ret (if Js.truthy (d_proxyAddress retryResponse)
                      then d_proxyAddress retryResponse else None)
             | DeployReturns None => ret None
             | DeployThrows retryError =>
                 ret (Js.match_address (Js.message retryError))
             end
         end ;;
       let safeAddress :=
         match fromRetry with
         | Some a => Some a
         | None => getPredictedSafeAddress w wallet
         end in
       match safeAddress with
       | Some a =>
           if Js.nonempty a then
             code <- getCode w a ;;
             if has_code code then
               prisma.user_update userId (user_set_safe a) >>
               prisma.activityLog_create (mkActivity userId "SAFE_DEPLOYED" a) >>
               ret (Some a)
             else ret None
           else ret None
       | None => ret None
       end
     else ret None)
    (fun recoveryError => ret None).

(** The [catch (error)] block of [deploySafeWallet]. *)
Definition deploySafeWallet_catch (w : World) (userId : string) (error : Js.Error)
    : M string :=
  let errorMessage := Js.message error in
  recovered <-
    (if already_deployed errorMessage
     then recoverDeployed w userId errorMessage
     else ret None) ;;
  match recovered with
  | Some safeAddress => ret safeAddress
  | None =>
      prisma.user_update userId (user_set_status CREATED) >>
      throw error
  end.

Definition deploySafeWallet (w : World) (userId : string) : M string :=
  ou <- prisma.user_findUnique userId ;;
  match ou with
  | None => throw (Js.error "User not found")
  | Some user =>
      if u_safeDeployed user && Js.truthy (u_safeAddress user)
      then ret (default "" (u_safeAddress user))
      else
        prisma.user_update userId (user_set_status SAFE_DEPLOYING) >>
        try_catch (deploySafeWallet_try w userId)
                  (deploySafeWallet_catch w userId)
  end.

(** [response?.apiKey || response?.key || ''] and its two siblings; the
    credentials when all three are non-empty. *)
Definition credentials_of (r : option KeyResponse) : option Credentials :=
  match r with
  | Some response =>
      let key := Js.or_default (Js.or (k_apiKey response) (k_key response)) "" in
      let secret :=
        Js.or_default (Js.or (k_apiSecret response) (k_secret response)) "" in
      let passphrase :=
        Js.or_default (Js.or (k_apiPassphrase response) (k_passphrase response)) "" in
      if Js.nonempty key && Js.nonempty secret && Js.nonempty passphrase
      then Some (mkCredentials key secret passphrase)
      else None
  | None => None
  end.

(** [deriveApiKey] first, [createApiKey] as the fallback. *)
Definition obtainCredentials (w : World) (wallet : string)
    : M (option Credentials) :=
  derived <- remote (fun t => w_deriveApiKey w t wallet) (EvDeriveApiKey wallet) ;;
  let fromDerive :=
    match derived with
    | KeyReturns r => credentials_of r
    | KeyThrows _ => None
    end in
  match fromDerive with
  | Some c => ret (Some c)
  | None =>
      created <- remote (fun t => w_createApiKey w t wallet)
                        (EvCreateApiKey wallet) ;;
      ret (match created with
           | KeyReturns r => credentials_of r
           | KeyThrows _ => None
           end)
  end.

Definition secret_warning : string := "  WARNING: Secret re-encoded differently!".

Definition invalid_base64 : Js.Error :=
  Js.error "CLOB API returned invalid base64 secret - cannot proceed".

(** The base64 test of the secret, then the writes. *)
Definition validateAndStore (w : World) (userId : string)
    (credentials : Credentials) : M unit :=
  match w_base64_decode w (secret credentials) with
  | None => throw invalid_base64
  | Some decoded =>
      let reencoded := w_base64_encode w decoded in
      (if negb (bool_decide (reencoded = secret credentials))
       then modify (add_warning secret_warning)
       else ret tt) >>
      KeyService.storeApiCredentials userId credentials >>
      prisma.user_update userId (user_set_status READY) >>
      prisma.activityLog_create
        (mkActivity userId "API_CREDENTIALS_CREATED" userId)
  end.

(** The body of the [try] block of [createApiCredentials]. *)
Definition createApiCredentials_try (w : World) (userId : string) : M unit :=
  wallet <- KeyService.getUserWallet userId ;;
  found <- obtainCredentials w wallet ;;
  match found with
  | None =>
      throw (Js.error "Failed to obtain CLOB API credentials - both derive and create failed. The wallet may have too many existing API keys on Polymarket.")
  | Some credentials => validateAndStore w userId credentials
  end.

Definition createApiCredentials (w : World) (userId : string) : M unit :=
  ou <- prisma.user_findUnique userId ;;
  match ou with
  | None => throw (Js.error "User not found")
  | Some user =>
      if negb (Js.truthy (u_safeAddress user))
      then throw (Js.error
             "Safe wallet not deployed - deploy Safe first before creating credentials")
      else
        prisma.user_update userId (user_set_status SETTING_UP) >>
        try_catch (createApiCredentials_try w userId)
          (fun error =>
             prisma.user_update userId (user_set_status SAFE_DEPLOYED) >>
             throw error)
  end.

Definition resetApiCredentials (w : World) (userId : string) : M unit :=
  ou <- prisma.user_findUnique userId ;;
  match ou with
  | None => throw (Js.error "User not found")
  | Some user =>
      if negb (Js.truthy (u_safeAddress user))
      then throw (Js.error
             "Safe wallet not deployed - deploy Safe first before creating credentials")
      else
        prisma.user_update userId
          (fun u => user_set_status SAFE_DEPLOYED (user_set_credentials None u)) >>
        createApiCredentials w userId >>
        prisma.activityLog_create (mkActivity userId "API_CREDENTIALS_RESET" userId)
  end.

(** [getClobClient]: the checks made before the client is built. *)
Definition getClobClient (w : World) (userId : string) : M Credentials :=
  ou <- prisma.user_findUnique userId ;;
  match ou with
  | Some user =>
      if Js.truthy (u_safeAddress user) then
        wallet <- KeyService.getUserWallet userId ;;
        KeyService.getApiCredentials w userId
      else throw (Js.error "User not fully setup")
  | None => throw (Js.error "User not fully setup")
  end.

End WalletService.

(** ** The MCP tool [execute_atomic_orders] *)

Module McpTools.

Import Routes.

(** The per-order checks of the validation loop. *)
Fixpoint validateOrders (w : World) (orders : list OrderInput) (i : nat) : M unit :=
  match orders with
  | [] => ret tt
  | order :: rest =>
      if negb (Js.truthy (in_tokenId order))
      then throw (Js.error ("Order " ++ index_text i ++ ": tokenId is required"))
      else if match in_price order with
              | Some price => Qltb price (1 # 100) || Qltb (99 # 100) price
              | None => true
              end
      then throw (Js.error ("Order " ++ index_text i
                            ++ ": price must be between 0.01 and 0.99"))
      else if match in_size order with
              | Some size => Qleb size 0
              | None => true
              end
      then throw (Js.error ("Order " ++ index_text i
                            ++ ": size must be a positive number"))
      else if match in_side order with Some _ => false | None => true end
      then throw (Js.error ("Order " ++ index_text i ++ ": side must be BUY or SELL"))
      else
        let orderValue :=
          (default 0 (in_price order) * default 0 (in_size order))%Q in
        if Qltb orderValue 1
        then throw (Js.error ("Order " ++ index_text i ++ ": value $"
                              ++ w_toFixed2 w orderValue
                              ++ " is below Polymarket minimum of $1.00"))
        else validateOrders w rest (S i)
  end.

(** The body of the [try] block of one loop iteration. *)
Definition submitOne (w : World) (userId : string) (i : nat)
    (orderInput : OrderInput) (acc : Locals) : M Locals :=
  let tokenId := default "" (in_tokenId orderInput) in
  let price := default 0%Q (in_price orderInput) in
  let size := default 0%Q (in_size orderInput) in
  let side := default SELL (in_side orderInput) in
  let orderType := default FOK (in_orderType orderInput) in
  created <- prisma.order_create w (fun id =>
    mkOrder id userId
      (Js.or_default (in_conditionId orderInput) "atomic-batch")
      tokenId side price size orderType None None PENDING None None) ;;
  let '(row, dbOrder) := created in
  let orderOptions := mkOrderOptions tokenId price size side None in
  out <- remote (fun t => w_postOrder w t orderOptions orderType false)
                (EvPostOrder tokenId false) ;;
  match out with
  | PostThrows e => throw e
  | PostReturns None =>
      throw (Js.error "Cannot read properties of undefined (reading 'orderID')")
  | PostReturns (Some response) =>
      if OrderService.error_shaped response
      then throw (Js.error
             (Js.or_default (Js.or (r_error response) (r_message response))
                            "Order rejected by Polymarket"))
      else
        match Js.or (Js.or (r_orderID response) (r_orderId response))
                    (r_id response) with
        | Some clobOrderId =>
            if Js.nonempty clobOrderId then
              prisma.order_update row (order_set_live clobOrderId) >>
              ret (mkLocals (hasFailure acc)
                     (submittedOrders acc ++ [clobOrderId])
                     (results acc ++
                      [mkOrderEntry i (Some (o_id dbOrder)) (Some clobOrderId)
                                    true None]))
            else throw (Js.error "No order ID returned from Polymarket")
        | None => throw (Js.error "No order ID returned from Polymarket")
        end
  end.

(** The loop; the flag returned by an iteration tells whether it ran
    [break; // Stop processing on first failure]. *)
Fixpoint processOrders (w : World) (userId : string) (orders : list OrderInput)
    (i : nat) (acc : Locals) : M Locals :=
  match orders with
  | [] => ret acc
  | orderInput :: rest =>
      step <- try_catch
                (acc' <- submitOne w userId i orderInput acc ;; ret (acc', false))
                (fun orderError =>
                   acc' <- recordFailure i acc orderError ;; ret (acc', true)) ;;
      let '(acc', stop) := step in
      if stop then ret acc'
      else processOrders w userId rest (S i) acc'
  end.

Definition execute_atomic_orders (w : World) (userId : string)
    (orders : option (list OrderInput)) : M Response :=
  match orders with
  | None | Some [] =>
      throw (Js.error "orders array is required and must not be empty")
  | Some orders =>
      if (10 <? length orders)%nat
      then throw (Js.error "Maximum 10 orders per atomic batch")
      else
        validateOrders w orders 0 >>
        clobClient <- WalletService.getClobClient w userId ;;
        acc <- processOrders w userId orders 0 (mkLocals false [] []) ;;
        respond w acc
  end.

End McpTools.

(** ** order.service.ts: verification and reconciliation of orders *)

Module OrderReconciliation.
Import OrderService.

(** The object that [verifyOrder] returns; of [details] the two fields
    that the function adds, [clobData] and [error]. *)
Record Verification := mkVerification {
  localStatus : OrderStatus;
  clobStatus : option string;
  verified : bool;
  hasClobId : bool;
  isReal : bool;
  clobData : option ClobOrder;
  error : option string
}.

Definition verifyOrder (w : World) (orderId : string) : M Verification :=
  found <- prisma.order_findUnique_id orderId ;;
  match found with
  | None => throw (Js.error "Order not found")
  | Some (row, order) =>
      let result (clobStatus : string) (verified isReal : bool)
          (clobData : option ClobOrder) (error : option string) :=
        mkVerification (o_status order) (Some clobStatus) verified
          (Js.truthy (o_clobOrderId order)) isReal clobData error in
      if negb (Js.truthy (o_clobOrderId order))
      then ret (result "NEVER_PLACED" true false None None)
      else
        let clobOrderId := default "" (o_clobOrderId order) in
        try_catch
          (wallet <- KeyService.getUserWallet (o_userId order) ;;
           credentials <- KeyService.getApiCredentials w (o_userId order) ;;
           out <- remote (fun t => w_getOrder w t clobOrderId)
                         (EvGetOrder clobOrderId) ;;
           match out with
           | GetThrows e => throw e
           | GetReturns (Some clobOrder) =>
               ret (result
                      (Js.or_default (Js.or (c_status clobOrder) (c_state clobOrder))
                                     "FOUND")
                      true true (Some clobOrder) None)
           | GetReturns None => ret (result "NOT_FOUND" true false None None)
           end)
          (fun error =>
             ret (result "QUERY_FAILED" false false None (Some (Js.message error))))
  end.

(** [prisma.order.findMany({ where })] with the rows of the orders found. *)
Fixpoint order_findMany (p : Order -> bool) (os : list Order) (row : nat)
    : list (nat * Order) :=
  match os with
  | [] => []
  | o :: os' =>
      if p o then (row, o) :: order_findMany p os' (S row)
      else order_findMany p os' (S row)
  end.

(** The [where] clause of [syncAllUserOrders]. *)
Definition needs_sync (userId : string) (o : Order) : bool :=
  bool_decide (o_userId o = userId)
  && bool_decide (o_clobOrderId o <> None)
  && bool_decide (o_status o ∈ [LIVE; PENDING; SUBMITTING; MATCHED]).

Record SyncEntry := mkSyncEntry {
  se_orderId : string;
  se_oldStatus : string;
  se_newStatus : string;
  se_filled : Q
}.

Record SyncResult := mkSyncResult {
  synced : nat;
  updated : nat;
  sync_results : list SyncEntry
}.

(** [filledSize] of a row: a row on which it was never written holds the
    default of the column, 0. *)
Definition filledSize (o : Order) : Q := default 0%Q (o_filledSize o).

(** The status that [syncAllUserOrders] reads off the remote order. *)
Definition syncedStatus (order : Order) (clobStatus : string) (sizeMatched : Q)
    : OrderStatus :=
  if is_filled clobStatus sizeMatched (o_size order) then FILLED
  else if bool_decide (clobStatus = "CANCELED") || bool_decide (clobStatus = "CANCELLED")
  then (if Qltb 0 sizeMatched then MATCHED else CANCELLED)
  else if Qltb 0 sizeMatched then MATCHED
  else if bool_decide (clobStatus = "LIVE") || bool_decide (clobStatus = "OPEN")
  then LIVE
  else o_status order.

(** The body of the [try] block of one iteration of the loop; with the
    entry, whether the row was written. *)
Definition syncOne (w : World) (row : nat) (order : Order) (clobOrderId : string)
    : M (SyncEntry * bool) :=
  let oldStatus := o_status order in
  out <- remote (fun t => w_getOrder w t clobOrderId) (EvGetOrder clobOrderId) ;;
  match out with
  | GetThrows e => throw e
  | GetReturns (Some clobOrder) =>
      let sizeMatched :=
        matched_of (c_size_matched clobOrder) (c_sizeMatched clobOrder) in
      let clobStatus := Js.or_default (Js.or (c_status clobOrder) (c_state clobOrder)) "" in
      let newStatus := syncedStatus order clobStatus sizeMatched in
      let entry := mkSyncEntry (o_id order) (OrderStatus_name oldStatus)
                     (OrderStatus_name newStatus) sizeMatched in
      if negb (bool_decide (newStatus = oldStatus))
         || negb (Qeq_bool sizeMatched (filledSize order))
      then
        prisma.order_update row (order_set_filled (Some newStatus) sizeMatched) >>
        ret (entry, true)
      else ret (entry, false)
  | GetReturns None =>
      ret (mkSyncEntry (o_id order) (OrderStatus_name oldStatus)
             "NOT_FOUND_IN_CLOB" (filledSize order), false)
  end.

(** [for (const order of orders) { if (!order.clobOrderId) continue;
    try { ... } catch (e) { ... } }] *)
Fixpoint syncLoop (w : World) (found : list (nat * Order)) (updated : nat)
    (results : list SyncEntry) : M (nat * list SyncEntry) :=
  match found with
  | [] => ret (updated, results)
  | (row, order) :: rest =>
      if negb (Js.truthy (o_clobOrderId order))
      then syncLoop w rest updated results
      else
        step <- try_catch
                  (syncOne w row order (default "" (o_clobOrderId order)))
                  (fun e =>
                     ret (mkSyncEntry (o_id order) (OrderStatus_name (o_status order))
                            "SYNC_ERROR" (filledSize order), false)) ;;
        let '(entry, written) := step in
        syncLoop w rest (if written then S updated else updated)
                 (results ++ [entry])
  end.

Definition syncAllUserOrders (w : World) (userId : string) : M SyncResult :=
  s <- get ;;
  let found := order_findMany (needs_sync userId) (orders s) 0 in
  match found with
  | [] => ret (mkSyncResult 0 0 [])
  | _ :: _ =>
      wallet <- KeyService.getUserWallet userId ;;
      credentials <- KeyService.getApiCredentials w userId ;;
      done <- syncLoop w found 0 [] ;;
      let '(updated, results) := done in
      ret (mkSyncResult (length found) updated results)
  end.

End OrderReconciliation.

(** ** routes/orders.ts: POST /api/orders/batch *)

Module BatchRoute.
Import OrderService.

(** One element of [req.body.orders], taken to hold the fields of an
    order with their types. *)
Record BatchOrder := mkBatchOrder {
  bo_conditionId : string;
  bo_tokenId : string;
  bo_side : OrderSide;
  bo_price : Q;
  bo_size : Q;
  bo_orderType : option OrderType;
  bo_expiration : option Z
}.

Record BatchRequest := mkBatchRequest {
  breq_orders : option (list BatchOrder);
  breq_userId : option string
}.

Record BatchEntry := mkBatchEntry {
  be_success : bool;
  be_result : option OrderResult;
  be_error : option string;
  be_tokenId : option string
}.

Record BatchResponse := mkBatchResponse {
  b_success : bool;
  b_message : string;
  b_results : list BatchEntry
}.

(** [for (const order of orders) { try { createOrder } catch { ... } }] *)
Fixpoint runOrders (w : World) (userId : string) (orders : list BatchOrder)
    (results : list BatchEntry) : M (list BatchEntry) :=
  match orders with
  | [] => ret results
  | order :: rest =>
      entry <- try_catch
                 (result <- createOrder w
                    (mkParams userId (bo_conditionId order) (bo_tokenId order)
                       (bo_side order) (bo_price order) (bo_size order)
                       (Some (default GTC (bo_orderType order)))
                       (bo_expiration order)) ;;
                  ret (mkBatchEntry true (Some result) None None))
                 (fun orderError =>
                    ret (mkBatchEntry false None (Some (Js.message orderError))
                           (Some (bo_tokenId order)))) ;;
      runOrders w userId rest (results ++ [entry])
  end.

Definition batch (w : World) (req : BatchRequest) : M BatchResponse :=
  match breq_orders req with
  | None | Some [] => throw (Routes.AppError "orders array is required" 400)
  | Some orders =>
      match breq_userId req with
      | None => throw (Routes.AppError "userId is required" 400)
      | Some userId =>
          if negb (Js.nonempty userId)
          then throw (Routes.AppError "userId is required" 400)
          else if (20 <? length orders)%nat
          then throw (Routes.AppError "Maximum 20 orders per batch" 400)
          else
            results <- runOrders w userId orders [] ;;
            let successCount := length (filter (fun r => be_success r = true) results) in
            let failCount := length (filter (fun r => be_success r = false) results) in
            ret (mkBatchResponse (failCount =? 0)%nat
                   ("Executed " ++ pretty successCount ++ "/"
                    ++ pretty (length orders) ++ " orders successfully")
                   results)
      end
  end.

End BatchRoute.

(** ** wallet.service.ts: recovery of a Safe address *)

Module WalletRecovery.
Import WalletService.

(** [getCode] on a candidate: the candidate when the chain holds code
    there. *)
Definition verifyOnChain (w : World) (candidate : string) : M (option string) :=
  code <- getCode w candidate ;;
  ret (if has_code code then Some candidate else None).

(** Method 2 of [recoverSafeAddress]: what the relayer says of a
    deployment. *)
Definition askRelayer (w : World) (wallet : string) : M (option string) :=
  if w_builderConfigured w then
    out <- remote (fun t => w_relayDeploy w t wallet) (EvRelayDeploy wallet) ;;
    match out with
    | DeployReturns (Some response) =>
        ret (if Js.truthy (d_proxyAddress response)
             then d_proxyAddress response else None)
    | DeployReturns None => ret None
    | DeployThrows deployError =>
        match Js.match_address (Js.message deployError) with
        | Some a => verifyOnChain w a
        | None => ret None
        end
    end
  else ret None.

Definition recoverSafeAddress (w : World) (userId : string)
    (knownSafeAddress : option string) : M (option string) :=
  ou <- prisma.user_findUnique userId ;;
  match ou with
  | None => throw (Js.error "User not found")
  | Some user =>
      if u_safeDeployed user && Js.truthy (u_safeAddress user)
      then ret (u_safeAddress user)
      else
        wallet <- KeyService.getUserWallet userId ;;
        provided <-
          match knownSafeAddress with
          | Some a => if Js.nonempty a then verifyOnChain w a else ret None
          | None => ret None
          end ;;
        predicted <-
          match provided with
          | Some a => ret (Some a)
          | None =>
              match getPredictedSafeAddress w wallet with
              | Some a => if Js.nonempty a then verifyOnChain w a else ret None
              | None => ret None
              end
          end ;;
        recovered <-
          match predicted with
          | Some a => ret (Some a)
          | None => askRelayer w wallet
          end ;;
        match recovered with
        | None => ret None
        | Some safeAddress =>
            prisma.user_update userId (user_set_safe safeAddress) >>
            prisma.activityLog_create
              (mkActivity userId "SAFE_RECOVERED" safeAddress) >>
            ret (Some safeAddress)
        end
  end.

End WalletRecovery.

(** ** The MCP tool [place_order] *)

Module PlaceOrderTool.
Import OrderService.




End PlaceOrderTool.

(** ** wallet.service.ts: the approvals that [setTokenApprovals] asks for *)

Module Approvals.

Inductive Token := USDC | CTF.

Inductive Spender := CtfExchange | NegRiskCtfExchange | NegRiskAdapter.

#[global] Instance Token_eq_dec : EqDecision Token.
Proof. solve_decision. Defined.
#[global] Instance Spender_eq_dec : EqDecision Spender.
Proof. solve_decision. Defined.

(** The list [safeTransactions] that [setTokenApprovals] builds from the
    flags of the user: each transaction by the token contract it calls
    and the spender it approves. *)
Definition safeTransactions (user : User) (force : bool)
    : list (Token * Spender) :=
  ((if negb (u_usdcApproved user) || force
    then [(USDC, CtfExchange); (USDC, NegRiskCtfExchange); (USDC, NegRiskAdapter)]
    else [])
   ++ (if negb (u_ctfApproved user) || force
       then [(CTF, CtfExchange)]
       else [])
   ++ (if negb (u_negRiskApproved user) || force
       then [(CTF, NegRiskCtfExchange); (CTF, NegRiskAdapter)]
       else []))%list.

(** The six approvals that trading needs. *)
Definition required : list (Token * Spender) :=
  [(USDC, CtfExchange); (USDC, NegRiskCtfExchange); (USDC, NegRiskAdapter);
   (CTF, CtfExchange); (CTF, NegRiskCtfExchange); (CTF, NegRiskAdapter)].

(** The flag of the user that stands for an approval. *)
Definition flag_of (user : User) (approval : Token * Spender) : bool :=
  match approval with
  | (USDC, _) => u_usdcApproved user
  | (CTF, CtfExchange) => u_ctfApproved user
  | (CTF, _) => u_negRiskApproved user
  end.

End Approvals.

(** * Vocabulary of the statements *)

(** The status of the order row at position [row]. *)
Definition row_status (s : State) (row : nat) : option OrderStatus :=
  o_status <$> orders s !! row.

(** What a call added to the transcript. *)
Definition new_events (s s' : State) : list Event :=
  drop (length (trace s)) (trace s').

(** The routing flags of the order submissions of a transcript, in order. *)
Fixpoint posts (t : list Event) : list bool :=
  match t with
  | [] => []
  | EvPostOrder _ negRisk :: t' => negRisk :: posts t'
  | _ :: t' => posts t'
  end.



(** A transition of the lifecycle status that the specification admits:
    forward in the order CREATED, SAFE_DEPLOYING, SAFE_DEPLOYED, SETTING_UP,
    READY, or one of the two failure reverts. *)
Definition status_rank (st : UserStatus) : nat :=
  match st with
  | CREATED => 0
  | SAFE_DEPLOYING => 1
  | SAFE_DEPLOYED => 2
  | SETTING_UP => 3
  | READY => 4
  end.

Definition admitted_step (a b : UserStatus) : bool :=
  (status_rank a <=? status_rank b)%nat
  || (bool_decide (a = SAFE_DEPLOYING) && bool_decide (b = CREATED))
  || (bool_decide (a = SETTING_UP) && bool_decide (b = SAFE_DEPLOYED)).

(** Every step of the walk [from], [h1], [h2], ... is admitted. *)
Fixpoint admitted_walk (from : UserStatus) (h : list UserStatus) : bool :=
  match h with
  | [] => true
  | st :: h' => admitted_step from st && admitted_walk st h'
  end.

Definition mid_transition (st : UserStatus) : bool :=
  bool_decide (st = SAFE_DEPLOYING) || bool_decide (st = SETTING_UP).

(** The statuses written to the row of [userId] since [s]. *)
Definition status_writes (s s' : State) : list UserStatus :=
  snd <$> drop (length (statusHistory s)) (statusHistory s').

Definition user_status (s : State) (userId : string) : option UserStatus :=
  u_status <$> users s !! userId.

(** The rows of the users with the ghost history of their writes. *)
Definition db_view (s : State) : gmap string User * list (string * UserStatus) :=
  (users s, statusHistory s).

(** A state projection that a computation leaves as it was. *)
Definition preserves {X A} (f : State -> X) (m : M A) : Prop :=
  forall s, f (snd (m s)) = f s.

Module OrderFacts.
Import OrderService.

Definition clobOrderType_of (p : CreateOrderParams) : OrderType :=
  mapOrderType (default GTC (orderType p)).

(** The payload that the submission step of [createOrder] hands on: [None]
    when the call raises before or in that step (an error-shaped payload
    is raised by [attemptOrder]), [Some None] for an [undefined]
    payload. *)
Definition accepted_payload (w : World) (p : CreateOrderParams) (s : State)
    : option (option PostResponse) :=
  match createOrder_head w p s with
  | (Ok (row, _), s1) =>
      match prepare w p row s1 with
      | (Ok isNegRisk, s2) =>
          match submitOrder w (conditionId p) (orderOptions_of p)
                  (clobOrderType_of p) isNegRisk s2 with
          | (Ok response, _) => Some response
          | (Throw _, _) => None
          end
      | (Throw _, _) => None
      end
  | (Throw _, _) => None
  end.

(** The inputs that the checks at the head of [createOrder] refuse. *)
Definition refused (p : CreateOrderParams) : Prop :=
  (price p < 1 # 100)%Q \/ (99 # 100 < price p)%Q \/ (size p <= 0)%Q \/
  (orderType p = Some GTD /\ Js.truthy_num (expiration p) = false).

End OrderFacts.

Module WalletFacts.
Import WalletService.


(** What a run did to the users: nothing, or the one write of a saved
    deployment. *)
Definition saved (userId : string) (s s' : State) (a : string) : Prop :=
  db_view s' = db_view (update_user userId (user_set_safe a) s).

Definition untouched (s s' : State) : Prop := db_view s' = db_view s.

(** [m] writes to the users only by saving the deployment at the address
    that [sel] reads off its result. *)
Definition saves_result {A} (userId : string) (sel : A -> option string)
    (m : M A) : Prop :=
  forall s,
    match fst (m s) with
    | Ok x =>
        match sel x with
        | Some a => saved userId s (snd (m s)) a
        | None => untouched s (snd (m s))
        end
    | Throw _ => untouched s (snd (m s))
    end.

Definition returned (exit : LoopExit) : option string :=
  match exit with Return a => Some a | _ => None end.

(** The state after the two writes of a stored credential set. *)
Definition stored (userId : string) (c : Credentials) (s : State) : State :=
  update_user userId (user_set_status READY)
    (update_user userId (user_set_credentials (Some c)) s).

End WalletFacts.

Module BatchFacts.
Import Routes.

(** Every entry reported as accepted has its row, and the row holds a
    remote id of the rollback list. *)
Definition accepted_rows (base : nat) (acc : Locals) (s : State) : Prop :=
  forall entry, entry ∈ results acc -> e_success entry = true ->
    exists o c, orders s !! (base + e_index entry)%nat = Some o /\
                o_clobOrderId o = Some c /\ c ∈ submittedOrders acc.

End BatchFacts.

(** The remote ids of the cancel calls of a transcript, in order. *)
Fixpoint cancels (t : list Event) : list string :=
  match t with
  | [] => []
  | EvCancelOrder clobOrderId :: t' => clobOrderId :: cancels t'
  | _ :: t' => cancels t'
  end.

(** The cancel calls made so far. *)
Definition cancel_calls (s : State) : list string := cancels (trace s).

Module GatewayFacts.
Import OrderService.

(** The account may trade: it is READY and has a Safe address. *)
Definition tradable (s : State) (userId : string) : Prop :=
  exists user, users s !! userId = Some user /\ u_status user = READY /\
               Js.truthy (u_safeAddress user) = true.

(** The tables that the submission of an order only reads. *)
Definition ledger (s : State) : gmap string User * list Activity :=
  (users s, activityLog s).

End GatewayFacts.

Module AtomicFacts.
Import Routes.

(** The remote ids of the entries of an answer: those of its accepted
    orders. *)
Definition accepted_ids (entries : list OrderEntry) : list string :=
  omap e_clobOrderId entries.

Definition failed (entry : OrderEntry) : Prop := e_success entry = false.
Definition accepted (entry : OrderEntry) : Prop := e_success entry = true.

(** An order that the validation loop of the REST handler refuses. *)
Definition malformed (order : OrderInput) : Prop :=
  Js.truthy (in_tokenId order) = false \/
  (forall price, in_price order = Some price ->
     (price < 1 # 100)%Q \/ (99 # 100 < price)%Q) \/
  (forall size, in_size order = Some size -> (size <= 0)%Q) \/
  in_side order = None.


(** The bookkeeping of the loop: the failure flag and the rollback list
    say what the entries say. *)
Definition consistent (acc : Locals) : Prop :=
  (hasFailure acc = true <-> Exists failed (results acc)) /\
  submittedOrders acc = accepted_ids (results acc) /\
  Forall (fun entry => e_success entry = true <-> e_clobOrderId entry <> None)
         (results acc).

End AtomicFacts.

Module ProvenanceFacts.

(** The event [e], made when the transcript was [t], is a read of the
    chain at [a] that showed code there. *)
Definition code_at (w : World) (a : string) (t : list Event) (e : Event) : Prop :=
  e = EvGetCode a /\
  exists code, w_getCode w t a = CodeReturns code /\
               WalletService.has_code code = true.

(** ... is a poll of the relayer that returned a deployment at [a]. *)
Definition polled_at (w : World) (a : string) (t : list Event) (e : Event) : Prop :=
  exists txId result,
    e = EvPollUntilState txId /\
    w_pollUntilState w t txId = PollReturns (Some result) /\
    pr_proxyAddress result = Some a.

(** ... is a deployment request that the relayer answered with [a] as the
    proxy address. *)
Definition named_at (w : World) (a : string) (t : list Event) (e : Event) : Prop :=
  exists owner response,
    e = EvRelayDeploy owner /\
    w_relayDeploy w t owner = DeployReturns (Some response) /\
    d_proxyAddress response = Some a.

(** A remote call with the property [ev] was made between [s] and [s']. *)
Definition during (ev : list Event -> Event -> Prop) (s s' : State) : Prop :=
  exists before e after,
    trace s' = (trace s ++ before ++ e :: after)%list /\
    ev (trace s ++ before)%list e.

(** [m] only adds to the transcript. *)
Definition grows {A} (m : M A) : Prop :=
  forall s, exists tail, trace (snd (m s)) = (trace s ++ tail)%list.

(** Every address that [sel] reads off a result of [m] is backed by a
    remote call with the property [ev], made during the run. *)
Definition sourced {A} (ev : string -> list Event -> Event -> Prop)
    (sel : A -> option string) (m : M A) : Prop :=
  forall s,
    match fst (m s) with
    | Ok x =>
        match sel x with
        | Some a => during (ev a) s (snd (m s))
        | None => True
        end
    | Throw _ => True
    end.

(** The evidence that [deploySafeWallet] accepts for an address. *)
Definition deployed_at (w : World) (a : string) (t : list Event) (e : Event)
    : Prop :=
  code_at w a t e \/ polled_at w a t e.

(** The evidence that [recoverSafeAddress] accepts for an address. *)
Definition recovered_at (w : World) (a : string) (t : list Event) (e : Event)
    : Prop :=
  code_at w a t e \/ named_at w a t e.

(** A search step: it writes nothing to the users, only adds to the
    transcript, and an address it finds is backed by a call of the run. *)
Definition finds (w : World) (m : M (option string)) : Prop :=
  forall s,
    db_view (snd (m s)) = db_view s /\
    (exists tail, trace (snd (m s)) = (trace s ++ tail)%list) /\
    forall a, fst (m s) = Ok (Some a) -> during (recovered_at w a) s (snd (m s)).

(** The three searches of [recoverSafeAddress] as one step: the address
    provided, the predicted one, the relayer. *)
Definition search (w : World) (wallet : string) (knownSafeAddress : option string)
    : M (option string) :=
  found <-
    (found <- match knownSafeAddress with
              | Some a =>
                  if Js.nonempty a then WalletRecovery.verifyOnChain w a
                  else ret None
              | None => ret None
              end ;;
     match found with
     | Some a => ret (Some a)
     | None =>
         match WalletService.getPredictedSafeAddress w wallet with
         | Some a =>
             if Js.nonempty a then WalletRecovery.verifyOnChain w a
             else ret None
         | None => ret None
         end
     end) ;;
  match found with
  | Some a => ret (Some a)
  | None => WalletRecovery.askRelayer w wallet
  end.

End ProvenanceFacts.

Module CredentialFacts.

(** A credential set none of whose fields is empty. *)
Definition complete (c : Credentials) : Prop :=
  Js.nonempty (key c) = true /\ Js.nonempty (secret c) = true /\
  Js.nonempty (passphrase c) = true.


End CredentialFacts.

Module ReconciliationFacts.
Import OrderReconciliation.

(** The remote ids that [syncAllUserOrders] asks the order book for: those
    of the orders found, in the order of the rows. *)
Definition ids_to_sync (found : list (nat * Order)) : list string :=
  omap (fun ro =>
          match o_clobOrderId ro.2 with
          | Some c => if Js.nonempty c then Some c else None
          | None => None
          end) found.

(** The fields of an order row that no reconciliation changes. *)
Definition same_order (o o' : Order) : Prop :=
  o_id o' = o_id o /\ o_userId o' = o_userId o /\
  o_conditionId o' = o_conditionId o /\
  o_tokenId o' = o_tokenId o /\ o_side o' = o_side o /\
  o_price o' = o_price o /\ o_size o' = o_size o /\
  o_orderType o' = o_orderType o /\ o_expiration o' = o_expiration o /\
  o_clobOrderId o' = o_clobOrderId o /\
  o_statusMessage o' = o_statusMessage o.

(** The rows as a reconciliation of the rows [before] for [userId] may
    leave them: the same rows with the same orders in them; a status is as
    it was or one of FILLED, MATCHED, CANCELLED, LIVE; the rows that the
    [where] clause does not select are as they were. *)
Definition reconciled (userId : string) (before after : list Order) : Prop :=
  length after = length before /\
  forall j o, before !! j = Some o ->
    exists o', after !! j = Some o' /\ same_order o o' /\
      (o_status o' = o_status o \/
       In (o_status o') [FILLED; MATCHED; CANCELLED; LIVE]) /\
      (needs_sync userId o = false -> o' = o).

End ReconciliationFacts.

(** * Scenarios *)

Module Scenario.

Definition credentials : Credentials := mkCredentials "key-1" "c2VjcmV0" "pass-1".

Definition user (st : UserStatus) (safe : option string) (c : option Credentials)
    : User :=
  mkUser st "0xE0A" true safe (bool_decide (safe <> None)) c true true true.

Definition ready_user : User := user READY (Some "0x5AFE") (Some credentials).

Definition db (u : User) (os : list Order) : State :=
  mkState {[ "user-1" := u ]} os [] [] ∅ [] [] [].

Definition accept (clobOrderId : string) : PostOutcome :=
  PostReturns (Some (mkPostResponse None None None (Some clobOrderId) None None)).

Definition reject (msg : string) : PostOutcome := PostThrows (Js.error msg).

Definition unavailable : Js.Error := Js.error "ECONNRESET".

(** A world given by its order book, relayer, chain and key issuer; every
    other remote call is unavailable. *)
Definition world
    (postOrder : list Event -> OrderOptions -> OrderType -> bool -> PostOutcome)
    (relayDeploy : list Event -> string -> DeployOutcome)
    (getCode : list Event -> string -> CodeOutcome)
    (deriveApiKey : list Event -> string -> KeyOutcome) : World :=
  mkWorld (fun n => "order-" ++ pretty n) true (fun _ => None) (fun _ => None)
    (fun _ _ => ClobFetchOk false) (fun _ _ => GammaFetchNotOk)
    postOrder (fun _ => "{}")
    (fun _ _ => GetThrows unavailable) (fun _ _ => None)
    relayDeploy (fun _ _ => PollThrows unavailable) getCode
    (fun _ => None)
    deriveApiKey (fun _ _ => KeyThrows unavailable)
    (fun s => Some (Buffer.from_base64 s)) Buffer.toString_base64
    (fun _ => "0.00").

Definition no_relay : list Event -> string -> DeployOutcome :=
  fun _ _ => DeployThrows unavailable.
Definition no_code : list Event -> string -> CodeOutcome :=
  fun _ _ => CodeReturns "0x".
Definition no_keys : list Event -> string -> KeyOutcome :=
  fun _ _ => KeyThrows unavailable.

(** An order book that accepts every order, with the id ["0xC10B"]. *)
Definition book_accepting : World :=
  world (fun _ _ _ _ => accept "0xC10B") no_relay no_code no_keys.

Definition params (price size : Q) : OrderService.CreateOrderParams :=
  OrderService.mkParams "user-1" "0xCOND" "token-1" BUY price size None None.

(** An order book that refuses the standard routing for lack of balance
    and accepts the neg-risk routing. *)
Definition book_neg_risk_only : World :=
  world (fun _ _ _ negRisk =>
           if negRisk then accept "0xC10B" else reject "not enough balance / allowance")
        no_relay no_code no_keys.

(** An order book that answers every order with an error-shaped payload
    which holds an order id all the same. *)
Definition book_error_with_id : World :=
  world (fun _ _ _ _ =>
           PostReturns (Some (mkPostResponse None (Some "bad request") (Some 400%Z)
                                (Some "0xC10B") None None)))
        no_relay no_code no_keys.

(** A key issuer whose secret is URL-safe base64, as the CLOB API's are:
    it decodes, and re-encodes to a different string. *)
Definition url_safe_credentials : Credentials :=
  mkCredentials "key-1" "ab-_" "pass-1".

Definition issuer_url_safe : World :=
  world (fun _ _ _ _ => reject "closed") no_relay no_code
    (fun _ _ => KeyReturns (Some (mkKeyResponse (Some "key-1") None
                                    (Some "ab-_") None (Some "pass-1") None))).

Definition deployed_user : User := user SAFE_DEPLOYED (Some "0x5AFE") None.

(** An account that has its key and nothing else yet. *)
Definition fresh_user : User := user CREATED None None.

(** A relayer that is down, over a chain without the Safe. *)
Definition relay_down : World :=
  world (fun _ _ _ _ => reject "closed") no_relay no_code no_keys.

(** An order book that refuses its second order and accepts the others,
    numbering the ids it hands out. *)
Definition book_refusing_second : World :=
  world (fun t _ _ _ =>
           match length (posts t) with
           | 1%nat => reject "not enough balance / allowance"
           | n => accept ("0xC10B-" ++ pretty n)
           end)
        no_relay no_code no_keys.

Definition order_input (token : string) : Routes.OrderInput :=
  Routes.mkOrderInput None None (Some token) (Some BUY)
    (Some (45 # 100)%Q) (Some 10%Q) None.

(** A batch of three orders. *)
Definition batch : list Routes.OrderInput :=
  [order_input "token-0"; order_input "token-1"; order_input "token-2"].

Definition batch_request : Routes.Request :=
  Routes.mkRequest (Some batch) (Some "user-1") None None.

(** A row of an order that was filled. *)
Definition filled_order : Order :=
  mkOrder "order-0" "user-1" "0xCOND" "token-1" BUY (45 # 100) 10 GTC None
          (Some "0xC10B") FILLED None (Some 10%Q).

End Scenario.

(** Further scenarios, for the services beyond order placement and
    deployment. *)

Module Cases.

(** A market that the CLOB classifies as neg-risk. *)
Definition neg_risk_market : World :=
  mkWorld (fun n => "order-" ++ pretty n) true (fun _ => None) (fun _ => None)
    (fun _ _ => ClobFetchOk true) (fun _ _ => GammaFetchNotOk)
    (fun _ _ _ _ => Scenario.accept "0xC10B") (fun _ => "{}")
    (fun _ _ => GetThrows Scenario.unavailable) (fun _ _ => None)
    Scenario.no_relay (fun _ _ => PollThrows Scenario.unavailable) Scenario.no_code
    (fun _ => None)
    Scenario.no_keys Scenario.no_keys
    (fun s => Some (Buffer.from_base64 s)) Buffer.toString_base64
    (fun _ => "0.00").

(** A live order of user-1. *)
Definition live_order : Order :=
  mkOrder "order-0" "user-1" "0xCOND" "token-1" BUY (45 # 100) 10 GTC None
          (Some "0xC10B") LIVE None None.

(** An account that is READY but whose credentials are gone. *)
Definition user_without_credentials : User :=
  Scenario.user READY (Some "0x5AFE") None.

(** An order book on which the order is open when first read and matched
    when read again after the cancel call. *)
Definition open_order : ClobOrder :=
  mkClobOrder (Some "LIVE") None (Some 0%Q) None.

Definition matched_order : ClobOrder :=
  mkClobOrder (Some "MATCHED") None (Some 10%Q) None.

Definition book_filling_meanwhile : World :=
  mkWorld (fun n => "order-" ++ pretty n) true (fun _ => None) (fun _ => None)
    (fun _ _ => ClobFetchOk false) (fun _ _ => GammaFetchNotOk)
    (fun _ _ _ _ => Scenario.accept "0xC10B") (fun _ => "{}")
    (fun t _ => GetReturns (Some (if bool_decide (cancels t = [])
                                  then open_order else matched_order)))
    (fun _ _ => Some (Js.error "order already matched"))
    Scenario.no_relay (fun _ _ => PollThrows Scenario.unavailable) Scenario.no_code
    (fun _ => None)
    Scenario.no_keys Scenario.no_keys
    (fun s => Some (Buffer.from_base64 s)) Buffer.toString_base64
    (fun _ => "0.00").

(** An order book on which every order read is matched in full. *)
Definition book_matched : World :=
  mkWorld (fun n => "order-" ++ pretty n) true (fun _ => None) (fun _ => None)
    (fun _ _ => ClobFetchOk false) (fun _ _ => GammaFetchNotOk)
    (fun _ _ _ _ => Scenario.accept "0xC10B") (fun _ => "{}")
    (fun _ _ => GetReturns (Some matched_order)) (fun _ _ => None)
    Scenario.no_relay (fun _ _ => PollThrows Scenario.unavailable) Scenario.no_code
    (fun _ => None)
    Scenario.no_keys Scenario.no_keys
    (fun s => Some (Buffer.from_base64 s)) Buffer.toString_base64
    (fun _ => "0.00").

(** A row that reconciliation has to look at, and the rows of a filled
    order and of another user's order beside it. *)
Definition foreign_order : Order :=
  mkOrder "order-2" "user-2" "0xCOND" "token-1" BUY (45 # 100) 10 GTC None
          (Some "0xC10B-2") LIVE None None.

Definition order_book_rows : list Order :=
  [live_order; Scenario.filled_order; foreign_order].

(** An order book that refuses every order. *)
Definition book_refusing : World :=
  Scenario.world (fun _ _ _ _ => Scenario.reject "not enough balance / allowance")
    Scenario.no_relay Scenario.no_code Scenario.no_keys.

(** A batch of eleven orders. *)
Definition oversized_request : Routes.Request :=
  Routes.mkRequest (Some (replicate 11 (Scenario.order_input "token-0")))
    (Some "user-1") None None.


(** An account with the collateral approved and the two others not. *)
Definition half_approved_user : User :=
  mkUser SAFE_DEPLOYED "0xE0A" true (Some "0x5AFE") true None true false false.

(** A relayer that names a Safe on a chain that holds no code for it. *)
Definition relayer_naming_unbuilt_safe : World :=
  Scenario.world (fun _ _ _ _ => Scenario.reject "closed")
    (fun _ _ => DeployReturns (Some (mkDeployResponse (Some "0x5AFE") None
                                       (Some "tx-1") None)))
    Scenario.no_code Scenario.no_keys.

(** A chain that holds code at every address. *)
Definition chain_with_code : World :=
  Scenario.world (fun _ _ _ _ => Scenario.reject "closed")
    Scenario.no_relay (fun _ _ => CodeReturns "0x6080") Scenario.no_keys.


(** A relayer that names the Safe it deploys, over a chain that holds the
    Safe's code. *)
Definition relayer_deploying : World :=
  Scenario.world (fun _ _ _ _ => Scenario.reject "closed")
    (fun _ _ => DeployReturns (Some (mkDeployResponse (Some "0x5AFE") None
                                       (Some "tx-1") (Some "0xHA5H"))))
    (fun _ _ => CodeReturns "0x6080") Scenario.no_keys.

(** An order book that is closed for token-1 and accepts every other
    order. *)
Definition book_closed_for_token_1 : World :=
  Scenario.world
    (fun _ oo _ _ =>
       if bool_decide (oo_tokenID oo = "token-1")
       then Scenario.reject "market closed"
       else Scenario.accept ("0xC10B-" ++ oo_tokenID oo))
    Scenario.no_relay Scenario.no_code Scenario.no_keys.

(** The batch of three orders as the route POST /api/orders/batch reads
    it. *)
Definition batch_order (token : string) : BatchRoute.BatchOrder :=
  BatchRoute.mkBatchOrder "0xCOND" token BUY (45 # 100) 10 None None.

Definition independent_request : BatchRoute.BatchRequest :=
  BatchRoute.mkBatchRequest
    (Some [batch_order "token-0"; batch_order "token-1"; batch_order "token-2"])
    (Some "user-1").

End Cases.

(** * Proofs *)

(** ** Comparisons *)

Lemma Qltb_true a b : Qltb a b = true <-> (a < b)%Q.
Proof.
  unfold Qltb. rewrite negb_true_iff. split.
  - intros H. apply Qnot_le_lt. intros Hle. apply Qle_bool_iff in Hle. congruence.
  - intros H. destruct (Qle_bool b a) eqn:E; [|done].
    apply Qle_bool_iff in E. exfalso. by apply (Qlt_not_le a b).
Qed.

Lemma Qleb_true a b : Qleb a b = true <-> (a <= b)%Q.
Proof. unfold Qleb. apply Qle_bool_iff. Qed.

(** ** Frame rules: what a computation leaves untouched *)

Section Frame.
Context {X : Type} (f : State -> X).

Lemma preserves_ret {A} (a : A) : preserves f (ret a).
Proof. done. Qed.

Lemma preserves_throw {A} e : preserves f (@throw A e).
Proof. done. Qed.

Lemma preserves_get : preserves f get.
Proof. done. Qed.

Lemma preserves_bind {A B} (m : M A) (k : A -> M B) :
  preserves f m -> (forall a, preserves f (k a)) -> preserves f (bind m k).
Proof.
  intros Hm Hk s. unfold bind. specialize (Hm s).
  destruct (m s) as [[a|e] s1]; cbn in *; [|done].
  by rewrite Hk.
Qed.

Lemma preserves_try_catch {A} (m : M A) (h : Js.Error -> M A) :
  preserves f m -> (forall e, preserves f (h e)) -> preserves f (try_catch m h).
Proof.
  intros Hm Hh s. unfold try_catch. specialize (Hm s).
  destruct (m s) as [[a|e] s1]; cbn in *; [done|].
  by rewrite Hh.
Qed.
End Frame.

Create HintDb frame.

Ltac frame_step :=
  first
    [ solve [auto with frame]
    | progress cbv zeta
    | apply preserves_ret
    | apply preserves_throw
    | apply preserves_get
    | apply preserves_bind
    | apply preserves_try_catch
    | match goal with
      | |- preserves _ (match ?x with _ => _ end) => destruct x
      | |- preserves _ (let '(_, _) := ?x in _) => destruct x
      end
    | solve [intros ?; reflexivity] ].

Ltac frame := repeat (intros; frame_step).

Lemma getUserWallet_pure {X} (f : State -> X) uid :
  preserves f (KeyService.getUserWallet uid).
Proof. unfold KeyService.getUserWallet, prisma.user_findUnique. frame. Qed.

Lemma getApiCredentials_pure {X} (f : State -> X) w uid :
  preserves f (KeyService.getApiCredentials w uid).
Proof. unfold KeyService.getApiCredentials, prisma.user_findUnique. frame. Qed.

#[global] Hint Resolve getUserWallet_pure getApiCredentials_pure : frame.

(** ** The order gateway *)

Module OrderProofs.
Import OrderService OrderFacts.

Lemma validate_pure {X} (f : State -> X) p : preserves f (validate p).
Proof. unfold validate. frame. Qed.

Lemma isNegRiskMarket_orders w c t : preserves orders (isNegRiskMarket w c t).
Proof. unfold isNegRiskMarket. frame. Qed.

Lemma attemptOrder_orders w oo ty f : preserves orders (attemptOrder w oo ty f).
Proof. unfold attemptOrder. frame. Qed.

#[local] Hint Resolve isNegRiskMarket_orders attemptOrder_orders : frame.

Lemma submitOrder_orders w c oo ty f : preserves orders (submitOrder w c oo ty f).
Proof. unfold submitOrder. frame. Qed.

Lemma prepare_orders w p row s :
  orders (snd (prepare w p row s))
  = alter (order_set_status SUBMITTING None) row (orders s).
Proof.
  unfold prepare, bind at 1. cbn.
  set (s1 := set_orders _ s).
  change (alter _ row (orders s)) with (orders s1).
  generalize s1.
  change (preserves orders
    (wallet <- KeyService.getUserWallet (userId p) ;;
     credentials <- KeyService.getApiCredentials w (userId p) ;;
     isNegRisk <- isNegRiskMarket w (conditionId p) (Some (tokenId p)) ;;
     ret isNegRisk)).
  frame.
Qed.

(** The head of [createOrder] either raises and leaves the state as it
    was, or appends one PENDING row. *)
Lemma createOrder_head_spec w p s :
  match createOrder_head w p s with
  | (Ok (row, order), s1) =>
      row = length (orders s) /\ orders s1 = (orders s ++ [order])%list /\
      o_status order = PENDING /\ trace s1 = trace s /\
      marketNegRiskCache s1 = marketNegRiskCache s
  | (Throw _, s1) => s1 = s
  end.
Proof.
  unfold createOrder_head, bind.
  pose proof (validate_pure id p s) as Hv.
  destruct (validate p s) as [[[]|e] s1]; cbn in Hv; subst s1; [|done].
  cbn. destruct (users s !! userId p) as [u|]; [|done].
  destruct (negb _); [done|]. destruct (negb _); [done|].
  cbn. done.
Qed.

Lemma extract_nonempty r id :
  extract_clobOrderId r = Some id -> Js.nonempty id = true.
Proof.
  unfold extract_clobOrderId. destruct (Js.truthy _) eqn:E; [|done].
  intros H. rewrite H in E. done.
Qed.


Lemma validate_refuses p s :
  refused p ->
  exists e, validate p s = (Throw e, s) /\
    In (Js.message e) ["Price must be between 0.01 and 0.99";
                       "Size must be positive";
                       "GTD orders require an expiration timestamp"].
Proof.
  unfold refused, validate. intros H.
  destruct (Qltb (price p) (1 # 100)) eqn:E1;
    [eexists; split; [done|cbn; tauto]|].
  destruct (Qltb (99 # 100) (price p)) eqn:E2;
    [eexists; split; [done|cbn; tauto]|].
  destruct (Qleb (size p) 0) eqn:E3;
    [eexists; split; [done|cbn; tauto]|].
  cbn. destruct H as [H|[H|[H|[H1 H2]]]].
  - apply Qltb_true in H. congruence.
  - apply Qltb_true in H. congruence.
  - apply Qleb_true in H. congruence.
  - rewrite H1, H2. cbn. eexists; split; [done|cbn; tauto].
Qed.

Lemma posts_app t1 t2 : posts (t1 ++ t2) = (posts t1 ++ posts t2)%list.
Proof.
  induction t1 as [|e t1 IH]; [done|].
  destruct e; cbn; by rewrite ?IH.
Qed.

Lemma isNegRiskMarket_posts w c t :
  preserves (fun s => posts (trace s)) (isNegRiskMarket w c t).
Proof.
  unfold isNegRiskMarket. frame; intros s0; cbn; by rewrite posts_app, app_nil_r.
Qed.
#[local] Hint Resolve isNegRiskMarket_posts : frame.

Lemma prepare_posts w p row :
  preserves (fun s => posts (trace s)) (prepare w p row).
Proof. unfold prepare. frame. Qed.

Lemma record_trace p row order r : preserves trace (record p row order r).
Proof. unfold record. frame. Qed.

Lemma record_cache p row order r :
  preserves marketNegRiskCache (record p row order r).
Proof. unfold record. frame. Qed.

Lemma createOrder_catch_trace p row order e :
  preserves trace (createOrder_catch p row order e).
Proof. unfold createOrder_catch. frame. Qed.

Lemma createOrder_catch_cache p row order e :
  preserves marketNegRiskCache (createOrder_catch p row order e).
Proof. unfold createOrder_catch. frame. Qed.

Lemma createOrder_catch_throws p row order e s :
  fst (createOrder_catch p row order e s) = Throw e.
Proof. done. Qed.

(** One attempt is one submission under the given routing. *)
Lemma attemptOrder_trace w oo ty f s :
  trace (snd (attemptOrder w oo ty f s))
  = (trace s ++ [EvPostOrder (oo_tokenID oo) f])%list.
Proof.
  unfold attemptOrder, bind, remote. cbn.
  destruct (w_postOrder w (trace s) oo ty f) as [e|[r|]]; cbn; try done.
  destruct (error_shaped r); done.
Qed.

Lemma attemptOrder_cache w oo ty f :
  preserves marketNegRiskCache (attemptOrder w oo ty f).
Proof. unfold attemptOrder. frame. Qed.

End OrderProofs.

(** C5 (as amended).  [createOrder] refuses an order whose price is below
    0.01 or above 0.99, or whose size is not positive, or whose kind is GTD
    without an expiration: it raises one of its three validation errors and
    leaves the state as it was, so no row is written and no remote call is
    made.  The bounds 0.01 and 0.99 themselves are accepted. *)
Theorem createOrder_refuses_invalid_input w p s :
  OrderFacts.refused p ->
  exists e, OrderService.createOrder w p s = (Throw e, s) /\
    In (Js.message e) ["Price must be between 0.01 and 0.99";
                       "Size must be positive";
                       "GTD orders require an expiration timestamp"].
Proof.
  intros H. destruct (OrderProofs.validate_refuses p s H) as (e & He & Hm).
  exists e. split; [|done].
  unfold OrderService.createOrder, OrderService.createOrder_head, bind.
  by rewrite He.
Qed.

(** The order of price 0.995 is refused before any remote call. *)
Lemma createOrder_refuses_price_0995 :
  OrderFacts.refused (Scenario.params (995 # 1000) 10) /\
  exists e,
    OrderService.createOrder Scenario.book_accepting
      (Scenario.params (995 # 1000) 10) (Scenario.db Scenario.ready_user [])
    = (Throw e, Scenario.db Scenario.ready_user []) /\
    In (Js.message e) ["Price must be between 0.01 and 0.99";
                       "Size must be positive";
                       "GTD orders require an expiration timestamp"].
Proof.
  assert (OrderFacts.refused (Scenario.params (995 # 1000) 10)) as H.
  { right; left. unfold Qlt; cbn. lia. }
  split; [exact H|].
  exact (createOrder_refuses_invalid_input Scenario.book_accepting
           (Scenario.params (995 # 1000) 10)
           (Scenario.db Scenario.ready_user []) H).
Defined.

(** C5 (as stated) fails at the bound: the price 0.01 is outside the open
    interval (0.01, 0.99), yet the order passes the checks, is submitted to
    the order book and is recorded LIVE. *)
Lemma createOrder_accepts_price_001 :
  let p := Scenario.params (1 # 100) 10 in
  let run := OrderService.createOrder Scenario.book_accepting p
               (Scenario.db Scenario.ready_user []) in
  ~ ((1 # 100 < OrderService.price p)%Q /\ (OrderService.price p < 99 # 100)%Q) /\
  fst run = Ok (OrderService.mkOrderResult "order-0" (Some "0xC10B") LIVE None) /\
  trace (snd run) = [EvFetchClobMarket "0xCOND"; EvPostOrder "token-1" false] /\
  row_status (snd run) 0 = Some LIVE.
Proof.
  cbv zeta. split.
  - intros [H _]. revert H. unfold Qlt; cbn. lia.
  - vm_compute. done.
Qed.


(** An error-shaped payload is a rejection, whatever else it holds:
    [attemptOrder] raises it, the submission step hands on no payload, and
    the row is FAILED. *)
Lemma createOrder_error_shaped_payload_is_rejected :
  let w := Scenario.book_error_with_id in
  let p := Scenario.params (45 # 100) 10 in
  let s := Scenario.db Scenario.ready_user [] in
  OrderFacts.accepted_payload w p s = None /\
  row_status (snd (OrderService.createOrder w p s)) 0 = Some FAILED /\
  posts (trace (snd (OrderService.createOrder w p s))) = [false].
Proof. vm_compute. done. Qed.

(** C4.  When the first attempt of [createOrder] is rejected and the
    rejection text is of the balance/allowance class, the call submits
    exactly once more, under the opposite routing, and when that retry is
    accepted the cache holds the opposite routing for the market afterwards;
    for every other class of rejection (corrupted signing material, invalid
    signature, tick size, anything else) the first submission is the only
    one and the call raises. *)
Theorem createOrder_routing_retry w p s row order s1 isNegRisk s2 firstError s3 :
  OrderService.createOrder_head w p s = (Ok (row, order), s1) ->
  OrderService.prepare w p row s1 = (Ok isNegRisk, s2) ->
  OrderService.attemptOrder w (OrderService.orderOptions_of p)
    (OrderFacts.clobOrderType_of p) isNegRisk s2 = (Throw firstError, s3) ->
  let s' := snd (OrderService.createOrder w p s) in
  match OrderService.classify (Js.detail firstError) with
  | OrderService.BalanceAllowance =>
      posts (trace s') = (posts (trace s) ++ [isNegRisk; negb isNegRisk])%list /\
      (forall r s4,
         OrderService.attemptOrder w (OrderService.orderOptions_of p)
           (OrderFacts.clobOrderType_of p) (negb isNegRisk) s3 = (Ok r, s4) ->
         marketNegRiskCache s' !! OrderService.conditionId p = Some (negb isNegRisk))
  | _ =>
      posts (trace s') = (posts (trace s) ++ [isNegRisk])%list /\
      exists e, fst (OrderService.createOrder w p s) = Throw e
  end.
Proof.
  intros Hhead Hprep Hatt.
  pose proof (OrderProofs.createOrder_head_spec w p s) as Hh.
  rewrite Hhead in Hh. destruct Hh as (_ & _ & _ & Ht1 & _).
  pose proof (OrderProofs.prepare_posts w p row s1) as Hp.
  rewrite Hprep in Hp. cbn in Hp. rewrite Ht1 in Hp.
  pose proof (OrderProofs.attemptOrder_trace w (OrderService.orderOptions_of p)
    (OrderFacts.clobOrderType_of p) isNegRisk s2) as Ha.
  rewrite Hatt in Ha. cbn in Ha.
  assert (posts (trace s3) = (posts (trace s) ++ [isNegRisk])%list) as H3.
  { rewrite Ha, OrderProofs.posts_app, Hp. done. }
  cbv zeta.
  unfold OrderService.createOrder, bind. rewrite Hhead.
  unfold try_catch, OrderService.createOrder_try, bind. rewrite Hprep.
  unfold OrderFacts.clobOrderType_of in *.
  unfold OrderService.submitOrder, try_catch. rewrite Hatt.
  destruct (OrderService.classify (Js.detail firstError));
    try (cbn; split; [exact H3|eauto]).
  unfold bind.
  pose proof (OrderProofs.attemptOrder_trace w (OrderService.orderOptions_of p)
    (OrderService.mapOrderType (default GTC (OrderService.orderType p)))
    (negb isNegRisk) s3) as Hb.
  destruct (OrderService.attemptOrder w _ _ (negb isNegRisk) s3) as [[r|e] s4];
    cbn in Hb.
  - cbn [modify ret].
    match goal with
    | |- context [OrderService.record p row order r ?st] => set (s5 := st)
    end.
    pose proof (OrderProofs.record_trace p row order r s5) as Hr.
    pose proof (OrderProofs.record_cache p row order r s5) as Hc.
    assert (posts (trace s5)
            = (posts (trace s) ++ [isNegRisk; negb isNegRisk])%list) as H5.
    { subst s5. cbn. rewrite Hb, OrderProofs.posts_app, H3, <- app_assoc. done. }
    assert (marketNegRiskCache s5 !! OrderService.conditionId p
            = Some (negb isNegRisk)) as Hc5.
    { subst s5. cbn. apply lookup_insert_eq. }
    destruct (OrderService.record p row order r s5) as [[res|e] s6];
      cbn in Hr, Hc; cbn; rewrite ?Hr, ?Hc; split; auto.
  - cbn. rewrite Hb, OrderProofs.posts_app, H3, <- app_assoc.
    split; [done|]. intros r s5 [=].
Qed.

(** The routing retry of the specification: rejected for balance under the
    standard routing, accepted under the neg-risk routing. *)
Lemma createOrder_routing_retry_scenario :
  let w := Scenario.book_neg_risk_only in
  let p := Scenario.params (45 # 100) 10 in
  let s := Scenario.db Scenario.ready_user [] in
  let s' := snd (OrderService.createOrder w p s) in
  fst (OrderService.createOrder w p s)
  = Ok (OrderService.mkOrderResult "order-0" (Some "0xC10B") LIVE None) /\
  posts (trace s') = [false; true] /\
  marketNegRiskCache s' !! "0xCOND" = Some true.
Proof.
  cbv zeta. split; [vm_compute; done|].
  set (w := Scenario.book_neg_risk_only).
  set (p := Scenario.params (45 # 100) 10).
  set (s := Scenario.db Scenario.ready_user []).
  destruct (OrderService.createOrder_head w p s) as [[[row order]|e] s1] eqn:Hhead;
    [|vm_compute in Hhead; discriminate].
  destruct (OrderService.prepare w p row s1) as [[isNegRisk|e] s2] eqn:Hprep;
    [|vm_compute in Hhead; injection Hhead as <- <- <-;
      vm_compute in Hprep; discriminate].
  destruct (OrderService.attemptOrder w (OrderService.orderOptions_of p)
    (OrderFacts.clobOrderType_of p) isNegRisk s2) as [[r|firstError] s3] eqn:Hatt.
  { vm_compute in Hhead; injection Hhead as <- <- <-.
    vm_compute in Hprep; injection Hprep as <- <-.
    vm_compute in Hatt; discriminate. }
  pose proof (createOrder_routing_retry w p s row order s1 isNegRisk s2
                firstError s3 Hhead Hprep Hatt) as H.
  vm_compute in Hhead; injection Hhead as <- <- <-.
  vm_compute in Hprep; injection Hprep as <- <-.
  assert (OrderService.classify (Js.detail firstError)
          = OrderService.BalanceAllowance) as Hc.
  { vm_compute in Hatt. injection Hatt as <- <-. vm_compute. done. }
  rewrite Hc in H. cbv zeta in H. destruct H as [H1 H2].
  split; [exact H1|].
  destruct (OrderService.attemptOrder w (OrderService.orderOptions_of p)
    (OrderFacts.clobOrderType_of p) (negb false) s3) as [[r|e] s4] eqn:Hretry.
  - exact (H2 r s4 eq_refl).
  - vm_compute in Hatt. injection Hatt as <- <-.
    vm_compute in Hretry. discriminate.
Defined.

(** C10.  [cancelOrder] on an order whose recorded status is not LIVE raises
    and leaves the state as it was: no remote read, no remote cancel, no
    write to the row, whether or not the row holds a remote id. *)
Theorem cancelOrder_refuses_non_live w userId orderId s row order :
  OrderService.findOrder orderId s = (Ok (Some (row, order)), s) ->
  o_status order <> LIVE ->
  exists e, OrderService.cancelOrder w userId orderId s = (Throw e, s).
Proof.
  intros Hfind Hst. unfold OrderService.cancelOrder, bind. rewrite Hfind.
  destruct (negb (bool_decide (o_userId order = userId))); [by eexists|].
  destruct (o_clobOrderId order) as [clob|]; [|by eexists].
  destruct (negb (Js.nonempty clob)); [by eexists|].
  rewrite bool_decide_eq_false_2 by done. by eexists.
Qed.

(** A filled order, looked up by its remote id, cannot be cancelled. *)
Lemma cancelOrder_refuses_filled_order :
  exists e,
    OrderService.cancelOrder Scenario.book_accepting "user-1" "0xC10B"
      (Scenario.db Scenario.ready_user [Scenario.filled_order])
    = (Throw e, Scenario.db Scenario.ready_user [Scenario.filled_order]).
Proof.
  apply (cancelOrder_refuses_non_live Scenario.book_accepting "user-1" "0xC10B"
           (Scenario.db Scenario.ready_user [Scenario.filled_order])
           0 Scenario.filled_order).
  - reflexivity.
  - discriminate.
Defined.

(** ** Wallet provisioning *)

(** C7.  [deploySafeWallet] on an account whose row has the deployment flag
    and a stored Safe address returns that address and leaves the state as
    it was: no call to the relayer, no write; so do two calls in a row. *)
Theorem deploySafeWallet_idempotent w userId s user safeAddress :
  users s !! userId = Some user ->
  u_safeDeployed user = true ->
  u_safeAddress user = Some safeAddress ->
  Js.nonempty safeAddress = true ->
  WalletService.deploySafeWallet w userId s = (Ok safeAddress, s) /\
  (first <- WalletService.deploySafeWallet w userId ;;
   second <- WalletService.deploySafeWallet w userId ;;
   ret (first, second)) s = (Ok (safeAddress, safeAddress), s).
Proof.
  intros Hu Hd Ha Hne.
  assert (WalletService.deploySafeWallet w userId s = (Ok safeAddress, s)) as H.
  { unfold WalletService.deploySafeWallet, bind, prisma.user_findUnique.
    rewrite Hu, Hd, Ha. cbn. rewrite Hne. done. }
  split; [exact H|]. unfold bind. rewrite H, H. done.
Qed.

Lemma deploySafeWallet_idempotent_ready_user :
  let s := Scenario.db Scenario.ready_user [] in
  WalletService.deploySafeWallet Scenario.book_accepting "user-1" s
  = (Ok "0x5AFE", s) /\
  (first <- WalletService.deploySafeWallet Scenario.book_accepting "user-1" ;;
   second <- WalletService.deploySafeWallet Scenario.book_accepting "user-1" ;;
   ret (first, second)) s = (Ok ("0x5AFE", "0x5AFE"), s).
Proof.
  apply (deploySafeWallet_idempotent Scenario.book_accepting "user-1"
           (Scenario.db Scenario.ready_user []) Scenario.ready_user "0x5AFE");
    reflexivity.
Defined.

Module WalletProofs.
Import WalletService WalletFacts.

(** A write to an existing row, step by step. *)
Lemma update_user_lookup id f s u :
  users s !! id = Some u ->
  users (update_user id f s) !! id = Some (f u) /\
  statusHistory (update_user id f s)
  = (statusHistory s ++ [(id, u_status (f u))])%list.
Proof.
  intros Hu. unfold update_user. cbn. rewrite Hu.
  split; [|done]. by rewrite lookup_alter_eq, Hu.
Qed.

Lemma getUserWallet_ok userId s user :
  users s !! userId = Some user -> u_privateKey user = true ->
  KeyService.getUserWallet userId s = (Ok (u_eoaAddress user), s).
Proof.
  intros Hu Hk. unfold KeyService.getUserWallet, bind, prisma.user_findUnique.
  by rewrite Hu, Hk.
Qed.


Lemma new_events_app s s' tail :
  trace s' = (trace s ++ tail)%list -> new_events s s' = tail.
Proof. intros H. unfold new_events. by rewrite H, drop_app_length. Qed.

(** Case analysis on what the code branches on, never on a run. *)
Ltac destruct_match :=
  match goal with
  | |- context [match ?x with _ => _ end] =>
      lazymatch type of x with
      | (_ * State)%type => fail
      | Result _ => fail
      | _ => destruct x eqn:?
      end
  end.







(** *** The writes of [deploySafeWallet] to the row of the user *)

Lemma db_view_update_user id f s1 s :
  db_view s1 = db_view s ->
  db_view (update_user id f s1) = db_view (update_user id f s).
Proof. unfold db_view, update_user. cbn. intros [= -> ->]. done. Qed.

Lemma saved_after_untouched userId s s1 s2 a :
  untouched s s1 -> saved userId s1 s2 a -> saved userId s s2 a.
Proof.
  unfold untouched, saved. intros H1 H2. rewrite H2.
  by apply db_view_update_user.
Qed.

Lemma untouched_trans s s1 s2 :
  untouched s s1 -> untouched s1 s2 -> untouched s s2.
Proof. unfold untouched. congruence. Qed.

Lemma saveSafeDeployment_saved userId owner a tx s :
  saved userId s (snd (saveSafeDeployment userId owner a tx s)) a.
Proof. done. Qed.

Lemma getCode_untouched w a : preserves db_view (getCode w a).
Proof. unfold getCode. frame. Qed.

Lemma sleep_untouched ms : preserves db_view (sleep ms).
Proof. done. Qed.

#[local] Hint Resolve getCode_untouched sleep_untouched : frame.

Lemma deployAttempt_catch_writes w userId wallet attempt loc e s :
  let run := deployAttempt_catch w userId wallet attempt loc e s in
  match fst run with
  | Ok (Return a) => saved userId s (snd run) a
  | _ => untouched s (snd run)
  end.
Proof.
  cbv zeta. unfold deployAttempt_catch, getPredictedSafeAddress,
    getCode, sleep, saveSafeDeployment, bind, remote, saved, untouched.
  repeat (destruct_match; cbn); done.
Qed.

Lemma deployAttempt_writes w userId wallet attempt loc s :
  let run := deployAttempt w userId wallet attempt loc s in
  match fst run with
  | Ok (Return a) => saved userId s (snd run) a
  | _ => untouched s (snd run)
  end.
Proof.
  cbv zeta. unfold deployAttempt, bind, remote.
  cbn -[deployAttempt_catch].
  repeat (destruct_match; cbn -[deployAttempt_catch]);
    try done;
    match goal with
    | |- context [deployAttempt_catch ?w ?u ?wa ?at_ ?l ?e ?s] =>
        pose proof (deployAttempt_catch_writes w u wa at_ l e s) as H;
        cbv zeta in H;
        destruct (deployAttempt_catch w u wa at_ l e s) as [[[| |]|] ?];
        exact H
    end.
Qed.

Lemma deployLoop_writes w userId wallet n : forall attempt loc s,
  let run := deployLoop w userId wallet n attempt loc s in
  match fst run with
  | Ok (Return a) => saved userId s (snd run) a
  | _ => untouched s (snd run)
  end.
Proof.
  induction n as [|n IH]; intros attempt loc s; [done|].
  cbv zeta. cbn [deployLoop]. unfold bind.
  pose proof (deployAttempt_writes w userId wallet attempt loc s) as H.
  cbv zeta in H.
  destruct (deployAttempt w userId wallet attempt loc s) as [[[a|l|l]|e] s1];
    cbn in H; cbn; try done.
  specialize (IH (S attempt) l s1). cbv zeta in IH.
  destruct (deployLoop w userId wallet n (S attempt) l s1) as [[[a|l'|l']|e] s2];
    cbn in IH; cbn; eauto using saved_after_untouched, untouched_trans.
Qed.

Section SavesResult.
Context {A : Type} (userId : string) (sel : A -> option string).

Lemma saves_ret_none x : sel x = None -> saves_result userId sel (ret x).
Proof. intros H s. cbn. by rewrite H. Qed.

Lemma saves_throw e : saves_result userId sel (throw e).
Proof. intros s. done. Qed.

Lemma saves_save owner a tx x :
  sel x = Some a ->
  saves_result userId sel (saveSafeDeployment userId owner a tx >> ret x).
Proof. intros H s. cbn. by rewrite H. Qed.

Lemma saves_bind_untouched {B} (m : M B) (k : B -> M A) :
  preserves db_view m -> (forall b, saves_result userId sel (k b)) ->
  saves_result userId sel (bind m k).
Proof.
  intros Hm Hk s. unfold bind. specialize (Hm s).
  destruct (m s) as [[b|e] s1]; cbn in Hm; [|done].
  specialize (Hk b s1).
  destruct (k b s1) as [[x|e] s2]; cbn in *;
    [destruct (sel x)|]; eauto using saved_after_untouched, untouched_trans.
Qed.
End SavesResult.

Ltac saves_step :=
  first
    [ solve [auto with frame]
    | progress cbv zeta
    | apply saves_throw
    | apply saves_save; reflexivity
    | apply saves_ret_none; reflexivity
    | apply saves_bind_untouched; [solve [frame]|intros]
    | match goal with
      | |- saves_result _ _ (match ?x with _ => _ end) => destruct x
      | |- saves_result _ _ (if ?x then _ else _) => destruct x
      end ].

Ltac saves := repeat saves_step.

Lemma recoverAfterPolling_saves w userId wallet known :
  saves_result userId Some (recoverAfterPolling w userId wallet known).
Proof. unfold recoverAfterPolling. saves. Qed.

Lemma deployLoop_saves w userId wallet n attempt loc :
  saves_result userId returned (deployLoop w userId wallet n attempt loc).
Proof.
  intros s. pose proof (deployLoop_writes w userId wallet n attempt loc s) as H.
  cbv zeta in H.
  destruct (deployLoop w userId wallet n attempt loc s) as [[[a|l|l]|e] s1]; done.
Qed.

Lemma confirmDeployment_saves w userId wallet loc :
  saves_result userId Some (confirmDeployment w userId wallet loc).
Proof.
  unfold confirmDeployment. saves; auto using recoverAfterPolling_saves.
Qed.

Lemma deploySafeWallet_try_saves w userId :
  saves_result userId Some (deploySafeWallet_try w userId).
Proof.
  unfold deploySafeWallet_try.
  apply saves_bind_untouched; [frame|intros wallet].
  destruct (negb _); [apply saves_throw|].
  intros s. unfold bind.
  pose proof (deployLoop_saves w userId wallet maxRetries 1
                (mkDeployLocals None None None) s) as Hl.
  destruct (deployLoop _ _ _ _ _ _ s) as [[exit|e] s1]; cbn in Hl; [|done].
  destruct exit as [a|loc|loc]; [exact Hl|..];
    pose proof (confirmDeployment_saves w userId wallet loc s1) as Hc;
    destruct (confirmDeployment w userId wallet loc s1) as [[a|e] s2];
    cbn in *; eauto using saved_after_untouched, untouched_trans.
Qed.

Lemma recoverDeployed_saves w userId errorMessage :
  saves_result userId id (recoverDeployed w userId errorMessage).
Proof.
  unfold recoverDeployed.
  assert (forall m : M (option string),
    saves_result userId id m ->
    saves_result userId id (try_catch m (fun _ => ret None))) as Htry.
  { intros m Hm s. specialize (Hm s). unfold try_catch.
    destruct (m s) as [[x|e] s1]; done. }
  apply Htry. saves; intros ?; done.
Qed.

Lemma recoverDeployed_returns w userId errorMessage s :
  exists r, fst (recoverDeployed w userId errorMessage s) = Ok r.
Proof.
  unfold recoverDeployed, try_catch.
  match goal with
  | |- context [match ?m s with _ => _ end] => destruct (m s) as [[x|e] s1]
  end; cbn; eauto.
Qed.

Lemma status_writes_app s s' l :
  statusHistory s' = (statusHistory s ++ l)%list -> status_writes s s' = l.*2.
Proof. intros H. unfold status_writes. by rewrite H, drop_app_length. Qed.

Lemma status_writes_none s s' :
  untouched s s' -> status_writes s s' = [] /\
  forall userId, user_status s' userId = user_status s userId.
Proof.
  unfold untouched, db_view, user_status. intros [= Hu Hh]. split.
  - apply (status_writes_app s s' []). by rewrite app_nil_r.
  - intros. by rewrite Hu.
Qed.

(** A first write, then the write of the saved deployment. *)
Lemma walk_saved userId s u st s2 a :
  users s !! userId = Some u ->
  saved userId (update_user userId (user_set_status st) s) s2 a ->
  status_writes s s2 = [st; SAFE_DEPLOYED] /\
  user_status s2 userId = Some SAFE_DEPLOYED.
Proof.
  intros Hu Hs.
  destruct (update_user_lookup userId (user_set_status st) s u Hu) as [Hu1 Hh1].
  destruct (update_user_lookup userId (user_set_safe a) _ _ Hu1) as [Hu2 Hh2].
  unfold saved, db_view in Hs.
  pose proof (f_equal fst Hs) as Hsu. pose proof (f_equal snd Hs) as Hsh.
  cbn [fst snd] in Hsu, Hsh.
  split.
  - apply (status_writes_app s s2 [(userId, st); (userId, SAFE_DEPLOYED)]).
    rewrite Hsh, Hh2, Hh1, <- app_assoc. done.
  - unfold user_status. rewrite Hsu, Hu2. done.
Qed.

(** A first write, then a second write of the status alone. *)
Lemma walk_revert userId s u st s2 st' :
  users s !! userId = Some u ->
  untouched (update_user userId (user_set_status st) s) s2 ->
  let s3 := update_user userId (user_set_status st') s2 in
  status_writes s s3 = [st; st'] /\ user_status s3 userId = Some st'.
Proof.
  intros Hu Hs. cbv zeta.
  destruct (update_user_lookup userId (user_set_status st) s u Hu) as [Hu1 Hh1].
  unfold untouched, db_view in Hs.
  pose proof (f_equal fst Hs) as Hsu. pose proof (f_equal snd Hs) as Hsh.
  cbn [fst snd] in Hsu, Hsh.
  rewrite <- Hsu in Hu1.
  destruct (update_user_lookup userId (user_set_status st') s2 _ Hu1) as [Hu3 Hh3].
  split.
  - apply (status_writes_app s _ [(userId, st); (userId, st')]).
    rewrite Hh3, Hsh, Hh1, <- app_assoc. done.
  - unfold user_status. rewrite Hu3. done.
Qed.

(** The walks of [deploySafeWallet]. *)
Lemma deploySafeWallet_walk w userId s user :
  users s !! userId = Some user ->
  let s' := snd (deploySafeWallet w userId s) in
  (status_writes s s' = [] /\ user_status s' userId = Some (u_status user)) \/
  (status_writes s s' = [SAFE_DEPLOYING; SAFE_DEPLOYED] /\
   user_status s' userId = Some SAFE_DEPLOYED) \/
  (status_writes s s' = [SAFE_DEPLOYING; CREATED] /\
   user_status s' userId = Some CREATED).
Proof.
  intros Hu. cbv zeta.
  unfold deploySafeWallet, bind, prisma.user_findUnique. rewrite Hu.
  destruct (u_safeDeployed user && Js.truthy (u_safeAddress user)).
  { left. cbn. destruct (status_writes_none s s eq_refl) as [H1 H2].
    split; [done|]. unfold user_status. by rewrite Hu. }
  right. unfold prisma.user_update, modify. cbn [fst snd].
  set (s1 := update_user userId (user_set_status SAFE_DEPLOYING) s).
  unfold try_catch.
  pose proof (deploySafeWallet_try_saves w userId s1) as Ht.
  destruct (deploySafeWallet_try w userId s1) as [[a|e] s2]; cbn in Ht.
  { left. cbn [snd]. by apply (walk_saved userId s user SAFE_DEPLOYING s2 a). }
  unfold deploySafeWallet_catch, bind.
  destruct (already_deployed (Js.message e)).
  - pose proof (recoverDeployed_saves w userId (Js.message e) s2) as Hr.
    destruct (recoverDeployed_returns w userId (Js.message e) s2) as [r Hok].
    destruct (recoverDeployed w userId (Js.message e) s2) as [r' s3].
    cbn in Hok. subst r'. cbn in Hr.
    destruct r as [a|]; cbn in Hr.
    + left. cbn [snd].
      apply (walk_saved userId s user SAFE_DEPLOYING s3 a Hu).
      by apply (saved_after_untouched userId s1 s2 s3 a).
    + right. cbn.
      apply (walk_revert userId s user SAFE_DEPLOYING s3 CREATED Hu).
      by apply (untouched_trans s1 s2 s3).
  - right. cbn.
    by apply (walk_revert userId s user SAFE_DEPLOYING s2 CREATED Hu).
Qed.

(** *** The writes of [createApiCredentials] *)

Lemma obtainCredentials_untouched w wallet :
  preserves db_view (obtainCredentials w wallet).
Proof. unfold obtainCredentials. frame. Qed.

Lemma validateAndStore_writes w userId c s :
  let run := validateAndStore w userId c s in
  match fst run with
  | Ok _ => db_view (snd run) = db_view (stored userId c s)
  | Throw _ => untouched s (snd run)
  end.
Proof.
  cbv zeta. unfold validateAndStore.
  destruct (w_base64_decode w (secret c)) as [decoded|]; [|done].
  cbv zeta. destruct (negb _); done.
Qed.

Lemma createApiCredentials_try_writes w userId s :
  let run := createApiCredentials_try w userId s in
  match fst run with
  | Ok _ => exists c s1, untouched s s1 /\
              db_view (snd run) = db_view (stored userId c s1)
  | Throw _ => untouched s (snd run)
  end.
Proof.
  cbv zeta. unfold createApiCredentials_try, bind.
  pose proof (getUserWallet_pure db_view userId s) as Hw.
  destruct (KeyService.getUserWallet userId s) as [[wallet|e] s1];
    cbn in Hw; [|done].
  pose proof (obtainCredentials_untouched w wallet s1) as Ho.
  destruct (obtainCredentials w wallet s1) as [[[c|]|e] s2]; cbn in Ho;
    cbn [fst snd]; [|unfold untouched; cbn; congruence..].
  pose proof (validateAndStore_writes w userId c s2) as Hv. cbv zeta in Hv.
  destruct (validateAndStore w userId c s2) as [[[]|e] s3]; cbn in Hv; cbn.
  - exists c, s2. split; [unfold untouched; congruence|done].
  - unfold untouched in *. congruence.
Qed.

Lemma walk_stored userId s u st c s1 s2 :
  users s !! userId = Some u ->
  untouched (update_user userId (user_set_status st) s) s1 ->
  db_view s2 = db_view (stored userId c s1) ->
  status_writes s s2 = [st; st; READY] /\ user_status s2 userId = Some READY.
Proof.
  intros Hu H1 H2.
  destruct (update_user_lookup userId (user_set_status st) s u Hu) as [Hu1 Hh1].
  unfold untouched, db_view in H1.
  pose proof (f_equal fst H1) as H1u. pose proof (f_equal snd H1) as H1h.
  cbn [fst snd] in H1u, H1h. rewrite <- H1u in Hu1.
  destruct (update_user_lookup userId (user_set_credentials (Some c)) s1 _ Hu1)
    as [Hu2 Hh2].
  destruct (update_user_lookup userId (user_set_status READY) _ _ Hu2)
    as [Hu3 Hh3].
  unfold db_view, stored in H2.
  pose proof (f_equal fst H2) as H2u. pose proof (f_equal snd H2) as H2h.
  cbn [fst snd] in H2u, H2h.
  split.
  - apply (status_writes_app s s2
             [(userId, st); (userId, st); (userId, READY)]).
    rewrite H2h, Hh3, Hh2, H1h, Hh1, <- !app_assoc. done.
  - unfold user_status. rewrite H2u, Hu3. done.
Qed.

(** The walks of [createApiCredentials]. *)
Lemma createApiCredentials_walk w userId s user :
  users s !! userId = Some user ->
  let s' := snd (createApiCredentials w userId s) in
  (status_writes s s' = [] /\ user_status s' userId = Some (u_status user)) \/
  (status_writes s s' = [SETTING_UP; SETTING_UP; READY] /\
   user_status s' userId = Some READY) \/
  (status_writes s s' = [SETTING_UP; SAFE_DEPLOYED] /\
   user_status s' userId = Some SAFE_DEPLOYED).
Proof.
  intros Hu. cbv zeta.
  unfold createApiCredentials, bind, prisma.user_findUnique. rewrite Hu.
  destruct (negb (Js.truthy (u_safeAddress user))).
  { left. cbn. destruct (status_writes_none s s eq_refl) as [H1 H2].
    split; [done|]. unfold user_status. by rewrite Hu. }
  right. unfold prisma.user_update, modify. cbn [fst snd].
  set (s1 := update_user userId (user_set_status SETTING_UP) s).
  unfold try_catch.
  pose proof (createApiCredentials_try_writes w userId s1) as Ht.
  cbv zeta in Ht.
  destruct (createApiCredentials_try w userId s1) as [[[]|e] s2]; cbn in Ht.
  - left. destruct Ht as (c & s1' & H1 & H2). cbn [snd].
    by apply (walk_stored userId s user SETTING_UP c s1' s2).
  - right. cbn.
    by apply (walk_revert userId s user SETTING_UP s2 SAFE_DEPLOYED Hu).
Qed.

End WalletProofs.

(** C8 (as amended).  The secret is decoded before anything is stored.  When
    the decoder raises, the call raises the invalid-base64 error and writes
    nothing.  When the decoder returns, the credentials are stored and the
    status becomes READY whether or not the re-encoded bytes equal the
    secret: a mismatch only adds a warning line. *)
Theorem validateAndStore_checks_decoding w userId credentials s user :
  users s !! userId = Some user ->
  match w_base64_decode w (secret credentials) with
  | None =>
      WalletService.validateAndStore w userId credentials s
      = (Throw WalletService.invalid_base64, s)
  | Some decoded =>
      let s' := snd (WalletService.validateAndStore w userId credentials s) in
      fst (WalletService.validateAndStore w userId credentials s) = Ok tt /\
      (u_credentials <$> users s' !! userId) = Some (Some credentials) /\
      user_status s' userId = Some READY /\
      warnings s'
      = (warnings s ++
         (if bool_decide (w_base64_encode w decoded = secret credentials)
          then [] else [WalletService.secret_warning]))%list
  end.
Proof.
  intros Hu. unfold WalletService.validateAndStore.
  destruct (w_base64_decode w (secret credentials)) as [decoded|]; [|done].
  cbv zeta. unfold bind, user_status.
  destruct (bool_decide (w_base64_encode w decoded = secret credentials));
    cbn; rewrite !lookup_alter_eq, Hu; cbn; by rewrite ?app_nil_r.
Qed.

(** A URL-safe secret is stored, with a warning. *)
Lemma validateAndStore_url_safe_secret :
  let w := Scenario.issuer_url_safe in
  let s := Scenario.db Scenario.deployed_user [] in
  let run := WalletService.validateAndStore w "user-1"
               Scenario.url_safe_credentials s in
  fst run = Ok tt /\
  (u_credentials <$> users (snd run) !! "user-1")
  = Some (Some Scenario.url_safe_credentials) /\
  user_status (snd run) "user-1" = Some READY /\
  warnings (snd run) = [WalletService.secret_warning].
Proof.
  exact (validateAndStore_checks_decoding Scenario.issuer_url_safe "user-1"
           Scenario.url_safe_credentials (Scenario.db Scenario.deployed_user [])
           Scenario.deployed_user eq_refl).
Defined.

(** C8 (as stated) fails: the secret ["ab-_"] decodes, its bytes re-encode
    to ["ab+/"], and [createApiCredentials] still returns normally, with the
    credentials stored and the status READY. *)
Lemma createApiCredentials_stores_secret_failing_round_trip :
  let w := Scenario.issuer_url_safe in
  let run := WalletService.createApiCredentials w "user-1"
               (Scenario.db Scenario.deployed_user []) in
  (w_base64_encode w <$> w_base64_decode w "ab-_") = Some "ab+/" /\
  fst run = Ok tt /\
  (u_credentials <$> users (snd run) !! "user-1")
  = Some (Some (mkCredentials "key-1" "ab-_" "pass-1")) /\
  user_status (snd run) "user-1" = Some READY.
Proof. vm_compute. done. Qed.



(** C6 (as amended).  [deploySafeWallet] writes SAFE_DEPLOYING and then
    SAFE_DEPLOYED or CREATED, or writes nothing; [createApiCredentials]
    writes SETTING_UP and then READY (after the write of the credentials,
    which leaves SETTING_UP) or SAFE_DEPLOYED, or writes nothing.  So a
    deploy of an account that is not beyond SAFE_DEPLOYING and a credential
    creation on an account that is not yet READY move the status forward or
    along one of the two reverts, and an account that was not in
    SAFE_DEPLOYING or SETTING_UP when the call began is not there when it
    returns, normally or with an error. *)
Theorem provisioning_status_walk w userId s user :
  users s !! userId = Some user ->
  let st := u_status user in
  let afterDeploy := snd (WalletService.deploySafeWallet w userId s) in
  let afterCreate := snd (WalletService.createApiCredentials w userId s) in
  In (status_writes s afterDeploy)
     [[]; [SAFE_DEPLOYING; SAFE_DEPLOYED]; [SAFE_DEPLOYING; CREATED]] /\
  In (status_writes s afterCreate)
     [[]; [SETTING_UP; SETTING_UP; READY]; [SETTING_UP; SAFE_DEPLOYED]] /\
  ((status_rank st <= status_rank SAFE_DEPLOYING)%nat ->
   admitted_walk st (status_writes s afterDeploy) = true) /\
  ((status_rank st <= status_rank SETTING_UP)%nat ->
   admitted_walk st (status_writes s afterCreate) = true) /\
  (mid_transition st = false ->
   (exists fin, user_status afterDeploy userId = Some fin /\
                mid_transition fin = false) /\
   (exists fin, user_status afterCreate userId = Some fin /\
                mid_transition fin = false)).
Proof.
  intros Hu. cbv zeta.
  pose proof (WalletProofs.deploySafeWallet_walk w userId s user Hu) as Hd.
  pose proof (WalletProofs.createApiCredentials_walk w userId s user Hu) as Hc.
  cbv zeta in Hd, Hc.
  split; [|split; [|split; [|split]]].
  - destruct Hd as [[-> _]|[[-> _]|[-> _]]]; cbn; tauto.
  - destruct Hc as [[-> _]|[[-> _]|[-> _]]]; cbn; tauto.
  - intros Hr. destruct Hd as [[-> _]|[[-> _]|[-> _]]]; [done|..];
      destruct (u_status user); cbn in Hr; try lia; done.
  - intros Hr. destruct Hc as [[-> _]|[[-> _]|[-> _]]]; [done|..];
      destruct (u_status user); cbn in Hr; try lia; done.
  - intros Hm. split.
    + destruct Hd as [[_ ->]|[[_ ->]|[_ ->]]]; eauto.
    + destruct Hc as [[_ ->]|[[_ ->]|[_ ->]]]; eauto.
Qed.

(** A fresh account whose deployment fails goes CREATED, SAFE_DEPLOYING,
    CREATED. *)
Lemma provisioning_status_walk_fresh_account :
  let s := Scenario.db Scenario.fresh_user [] in
  let s' := snd (WalletService.deploySafeWallet Scenario.relay_down "user-1" s) in
  status_writes s s' = [SAFE_DEPLOYING; CREATED] /\
  admitted_walk CREATED (status_writes s s') = true /\
  exists fin, user_status s' "user-1" = Some fin /\ mid_transition fin = false.
Proof.
  cbv zeta.
  destruct (provisioning_status_walk Scenario.relay_down "user-1"
              (Scenario.db Scenario.fresh_user []) Scenario.fresh_user eq_refl)
    as (_ & _ & Hwalk & _ & Hfin).
  split; [vm_compute; reflexivity|]. split.
  - apply Hwalk. cbn. lia.
  - apply Hfin. reflexivity.
Defined.

(** C6 (as stated) fails on a READY account: credential creation writes
    SETTING_UP over READY, and the reset writes SAFE_DEPLOYED over READY
    first; neither step is forward nor one of the two reverts. *)
Lemma credentials_on_ready_account_step_back :
  let w := Scenario.issuer_url_safe in
  let s := Scenario.db Scenario.ready_user [] in
  status_writes s (snd (WalletService.createApiCredentials w "user-1" s))
  = [SETTING_UP; SETTING_UP; READY] /\
  admitted_step READY SETTING_UP = false /\
  status_writes s (snd (WalletService.resetApiCredentials w "user-1" s))
  = [SAFE_DEPLOYED; SETTING_UP; SETTING_UP; READY] /\
  admitted_step READY SAFE_DEPLOYED = false.
Proof. vm_compute. done. Qed.

(** ** The atomic batch *)

Module BatchProofs.
Import Routes BatchFacts.

(** One iteration of the loop: a row is appended; either the order is
    accepted, the row made LIVE under the remote id and the id pushed, or
    the failure is recorded and the row stays as it was created. *)
Lemma iteration_spec w userId i orderInput acc s :
  let run := try_catch (submitOne w userId i orderInput acc)
                       (recordFailure i acc) s in
  exists acc' o, fst run = Ok acc' /\
    ((exists c dbId,
        orders (snd run) = (orders s ++ [order_set_live c o])%list /\
        submittedOrders acc' = (submittedOrders acc ++ [c])%list /\
        results acc' = (results acc ++
                        [mkOrderEntry i dbId (Some c) true None])%list)
     \/
     (exists msg,
        orders (snd run) = (orders s ++ [o])%list /\
        o_status o = PENDING /\
        submittedOrders acc' = submittedOrders acc /\
        results acc' = (results acc ++
                        [mkOrderEntry i None None false msg])%list)).
Proof.
  cbv zeta. unfold try_catch, submitOne, recordFailure, bind, remote,
    prisma.order_create, prisma.order_update, modify.
  cbn.
  set (o := mkOrder _ _ _ _ _ _ _ _ _ _ _ _ _).
  assert (forall acc' (rows : list Order) msg,
    rows = (orders s ++ [o])%list ->
    submittedOrders acc' = submittedOrders acc ->
    results acc' = (results acc ++ [mkOrderEntry i None None false msg])%list ->
    exists acc'' o', Ok acc' = Ok acc'' /\
      ((exists c dbId,
          rows = (orders s ++ [order_set_live c o'])%list /\
          submittedOrders acc'' = (submittedOrders acc ++ [c])%list /\
          results acc'' = (results acc ++
                           [mkOrderEntry i dbId (Some c) true None])%list)
       \/
       (exists msg,
          rows = (orders s ++ [o'])%list /\
          o_status o' = PENDING /\
          submittedOrders acc'' = submittedOrders acc /\
          results acc'' = (results acc ++
                           [mkOrderEntry i None None false msg])%list)))
    as Hfail.
  { intros acc' rows msg H1 H2 H3. exists acc', o. split; [done|].
    right. exists msg. done. }
  destruct (w_postOrder w _ _ _ _) as [e|[r|]]; cbn.
  1,3: eapply Hfail; reflexivity.
  destruct (OrderService.error_shaped r); cbn; [eapply Hfail; reflexivity|].
  destruct (Js.or (Js.or (r_orderID r) (r_orderId r)) (r_id r)) as [c|]; cbn;
    [|eapply Hfail; reflexivity].
  destruct (Js.nonempty c); cbn; [|eapply Hfail; reflexivity].
  eexists _, o; split; [done|]. left. exists c. eexists. split; [|done].
  rewrite alter_app_r_alt by lia. rewrite Nat.sub_diag. done.
Qed.

Lemma processOrders_spec w userId base batch : forall i acc s,
  length (orders s) = (base + i)%nat ->
  accepted_rows base acc s ->
  let run := processOrders w userId batch i acc s in
  exists acc', fst run = Ok acc' /\ accepted_rows base acc' (snd run).
Proof.
  induction batch as [|orderInput rest IH]; intros i acc s Hlen Hinv.
  { cbn. eauto. }
  cbv zeta. cbn [processOrders]. unfold bind.
  destruct (iteration_spec w userId i orderInput acc s)
    as (acc1 & o & Hok & Hcase).
  destruct (try_catch _ _ s) as [r s1]. cbn in Hok, Hcase. subst r.
  apply IH.
  - destruct Hcase as [(c & dbId & -> & _)|(msg & -> & _)];
      rewrite length_app; cbn; lia.
  - intros entry Hin Hs.
    destruct Hcase as [(c & dbId & Ho & Hsub & Hres)|(msg & Ho & _ & Hsub & Hres)];
      rewrite Hres in Hin; apply elem_of_app in Hin as [Hin|Hin].
    + destruct (Hinv entry Hin Hs) as (o' & c' & Hl & Hc & Hm).
      exists o', c'. rewrite Ho, Hsub. split; [|split; [done|]].
      * by apply lookup_app_l_Some.
      * apply elem_of_app. by left.
    + apply list_elem_of_singleton in Hin as ->. cbn.
      exists (order_set_live c o), c. rewrite Ho, Hsub. split; [|split; [done|]].
      * rewrite <- Hlen. apply list_lookup_middle. done.
      * apply elem_of_app. right. by apply list_elem_of_singleton.
    + destruct (Hinv entry Hin Hs) as (o' & c' & Hl & Hc & Hm).
      exists o', c'. rewrite Ho, Hsub. split; [|done].
      by apply lookup_app_l_Some.
    + apply list_elem_of_singleton in Hin as ->. done.
Qed.

Lemma cancelSubmitted_orders w submitted :
  preserves orders (cancelSubmitted w submitted).
Proof. induction submitted; cbn [cancelSubmitted]; frame. Qed.

(** The rollback marks CANCELLED every row that holds a remote id of the
    rollback list, whatever the cancel calls answered. *)
Lemma rollback_cancels w submitted s row o c :
  orders s !! row = Some o -> o_clobOrderId o = Some c -> c ∈ submitted ->
  row_status (snd (rollback w submitted s)) row = Some CANCELLED.
Proof.
  intros Hl Hc Hin. unfold rollback, bind.
  pose proof (cancelSubmitted_orders w submitted s) as Hp.
  assert (exists s1, cancelSubmitted w submitted s = (Ok tt, s1)) as [s1 Hs1].
  { clear. revert s. induction submitted as [|x l IH]; intros s; cbn; [eauto|].
    unfold bind, remote. cbn. apply IH. }
  rewrite Hs1 in Hp |- *. cbn in Hp. cbn.
  unfold row_status. cbn [orders set_orders].
  rewrite list_lookup_fmap, Hp, Hl. cbn.
  rewrite Hc. by rewrite bool_decide_eq_true_2.
Qed.

Lemma resolveUser_pure {X} (f : State -> X) w req : preserves f (resolveUser w req).
Proof. unfold resolveUser. frame. Qed.

Lemma validateOrders_pure {X} (f : State -> X) batch :
  forall i, preserves f (validateOrders batch i).
Proof.
  induction batch as [|o rest IH]; intros i; cbn [validateOrders]; frame.
Qed.

(** *** Which orders the two loops reach *)

Lemma posts_snoc t tok flag :
  posts (t ++ [EvPostOrder tok flag]) = (posts t ++ [flag])%list.
Proof. by rewrite OrderProofs.posts_app. Qed.

(** One iteration of the REST loop persists one row and submits one order,
    whatever became of the orders before it. *)
Lemma iteration_reach w userId i orderInput acc s :
  let run := try_catch (submitOne w userId i orderInput acc)
                       (recordFailure i acc) s in
  exists acc', fst run = Ok acc' /\
    length (orders (snd run)) = S (length (orders s)) /\
    posts (trace (snd run)) = (posts (trace s) ++ [false])%list.
Proof.
  cbv zeta. unfold try_catch, submitOne, recordFailure, bind, remote,
    prisma.order_create, prisma.order_update, modify.
  cbn.
  destruct (w_postOrder w _ _ _ _) as [e|[r|]]; cbn;
    rewrite ?length_app, ?posts_snoc; cbn;
    [eexists; split; [done|split; [lia|done]]| |
     eexists; split; [done|split; [lia|done]]].
  destruct (OrderService.error_shaped r); cbn;
    rewrite ?length_app, ?posts_snoc; cbn;
    [eexists; split; [done|split; [lia|done]]|].
  destruct (Js.or (Js.or (r_orderID r) (r_orderId r)) (r_id r)) as [c|]; cbn;
    rewrite ?length_app, ?posts_snoc; cbn;
    [|eexists; split; [done|split; [lia|done]]].
  destruct (Js.nonempty c); cbn;
    rewrite ?length_alter, ?length_app, ?posts_snoc; cbn;
    eexists; (split; [done|split; [lia|done]]).
Qed.

(** The REST loop reaches every order of the batch. *)
Lemma processOrders_reaches_all w userId batch : forall i acc s,
  let run := processOrders w userId batch i acc s in
  length (orders (snd run)) = (length (orders s) + length batch)%nat /\
  posts (trace (snd run))
  = (posts (trace s) ++ replicate (length batch) false)%list.
Proof.
  induction batch as [|orderInput rest IH]; intros i acc s.
  { cbn. by rewrite Nat.add_0_r, app_nil_r. }
  cbv zeta. cbn [processOrders]. unfold bind.
  destruct (iteration_reach w userId i orderInput acc s) as (acc1 & Hok & Hl & Hp).
  destruct (try_catch _ _ s) as [r s1]. cbn in Hok, Hl, Hp. subst r.
  destruct (IH (S i) acc1 s1) as [IHl IHp].
  split.
  - rewrite IHl, Hl. cbn. lia.
  - rewrite IHp, Hp, <- app_assoc. done.
Qed.

(** One iteration of the MCP loop: one row, one submission, one entry, and
    the iteration stops the loop exactly when the entry is a failure. *)
Lemma mcp_iteration w userId i orderInput acc s :
  let run :=
    try_catch
      (acc' <- McpTools.submitOne w userId i orderInput acc ;; ret (acc', false))
      (fun orderError => acc' <- recordFailure i acc orderError ;; ret (acc', true))
      s in
  exists acc' stop entry, fst run = Ok (acc', stop) /\
    length (orders (snd run)) = S (length (orders s)) /\
    posts (trace (snd run)) = (posts (trace s) ++ [false])%list /\
    results acc' = (results acc ++ [entry])%list /\
    e_success entry = negb stop.
Proof.
  cbv zeta. unfold try_catch, McpTools.submitOne, recordFailure, bind, remote,
    prisma.order_create, prisma.order_update, modify.
  cbn.
  destruct (w_postOrder w _ _ _ _) as [e|[r|]]; cbn;
    rewrite ?length_app, ?posts_snoc; cbn;
    [eexists _, _, _; split; [done|split; [lia|done]]| |
     eexists _, _, _; split; [done|split; [lia|done]]].
  destruct (OrderService.error_shaped r); cbn;
    rewrite ?length_app, ?posts_snoc; cbn;
    [eexists _, _, _; split; [done|split; [lia|done]]|].
  destruct (Js.or (Js.or (r_orderID r) (r_orderId r)) (r_id r)) as [c|]; cbn;
    rewrite ?length_app, ?posts_snoc; cbn;
    [|eexists _, _, _; split; [done|split; [lia|done]]].
  destruct (Js.nonempty c); cbn;
    rewrite ?length_alter, ?length_app, ?posts_snoc; cbn;
    eexists _, _, _; (split; [done|split; [lia|done]]).
Qed.

(** The MCP loop stops at the first failure: the entries it adds are as
    many as the rows it persists and the orders it submits, and a failed
    entry is the last of them. *)
Lemma mcp_processOrders_halts w userId batch : forall i acc s,
  let run := McpTools.processOrders w userId batch i acc s in
  exists acc' new, fst run = Ok acc' /\
    results acc' = (results acc ++ new)%list /\
    (length new <= length batch)%nat /\
    length (orders (snd run)) = (length (orders s) + length new)%nat /\
    posts (trace (snd run))
    = (posts (trace s) ++ replicate (length new) false)%list /\
    (forall j entry, new !! j = Some entry -> e_success entry = false ->
       S j = length new).
Proof.
  induction batch as [|orderInput rest IH]; intros i acc s.
  { cbn. exists acc, []. rewrite !app_nil_r, Nat.add_0_r.
    repeat (split; [done|]). intros j entry [=]. }
  cbv zeta. cbn [McpTools.processOrders]. unfold bind.
  destruct (mcp_iteration w userId i orderInput acc s)
    as (acc1 & stop & entry & Hok & Hl & Hp & Hres & Hs).
  destruct (try_catch _ _ s) as [r s1]. cbn in Hok, Hl, Hp. subst r.
  destruct stop.
  - cbn. exists acc1, [entry]. cbn.
    split; [done|]. split; [done|]. split; [lia|]. split; [lia|].
    split; [done|]. intros [|j] e0; [done|intros [=]].
  - destruct (IH (S i) acc1 s1) as (acc2 & new & H1 & H2 & H3 & H4 & H5 & H6).
    exists acc2, (entry :: new). cbn [length replicate].
    split; [done|]. split; [by rewrite H2, Hres, <- app_assoc|].
    split; [lia|]. split; [rewrite H4, Hl; lia|].
    split; [rewrite H5, Hp, <- app_assoc; done|].
    intros [|j] e0; cbn.
    + intros [= <-]. rewrite Hs. done.
    + intros Hj Hf. by rewrite (H6 j e0 Hj Hf).
Qed.

End BatchProofs.

(** C2 (as amended).  When the REST handler answers that the batch failed,
    every member that the order book had accepted is CANCELLED in its row,
    whether or not its cancel call succeeded. *)
Theorem execute_atomic_rollback_cancels_accepted w req s response :
  fst (Routes.execute_atomic w req s) = Ok response ->
  Routes.success response = false ->
  forall entry,
    entry ∈ Routes.orderResults response ->
    Routes.e_success entry = true ->
    row_status (snd (Routes.execute_atomic w req s))
               (length (orders s) + Routes.e_index entry)
    = Some CANCELLED.
Proof.
  destruct (Routes.execute_atomic w req s) as [r s'] eqn:Hrun.
  cbn [fst snd]. intros ->. revert Hrun.
  unfold Routes.execute_atomic.
  destruct (Routes.req_orders req) as [[|o1 batch]|]; [done| |done].
  destruct (10 <? _)%nat; [done|].
  unfold bind at 1.
  pose proof (BatchProofs.resolveUser_pure id w req s) as Hr.
  destruct (Routes.resolveUser w req s) as [[[[userId user]|]|e] s1];
    cbn in Hr; subst s1; [|done|done].
  destruct (negb _); [done|].
  unfold bind at 1.
  pose proof (BatchProofs.validateOrders_pure id (o1 :: batch) 0 s) as Hv.
  destruct (Routes.validateOrders (o1 :: batch) 0 s) as [[[]|e] s1];
    cbn in Hv; subst s1; [|done].
  unfold bind at 1.
  pose proof (getUserWallet_pure id userId s) as Hw.
  destruct (KeyService.getUserWallet userId s) as [[wallet|e] s1];
    cbn in Hw; subst s1; [|done].
  unfold bind at 1.
  pose proof (getApiCredentials_pure id w userId s) as Hc.
  destruct (KeyService.getApiCredentials w userId s) as [[credentials|e] s1];
    cbn in Hc; subst s1; [|done].
  unfold bind at 1.
  destruct (BatchProofs.processOrders_spec w userId (length (orders s))
              (o1 :: batch) 0 (Routes.mkLocals false [] []) s)
    as (acc & Hok & Hinv); [lia|intros entry Hin; by apply elem_of_nil in Hin|].
  destruct (Routes.processOrders w userId (o1 :: batch) 0 _ s) as [r s1].
  cbn in Hok, Hinv. subst r.
  unfold Routes.respond.
  destruct (Routes.hasFailure acc && negb (bool_decide (Routes.submittedOrders acc = [])));
    [|cbn; intros [= <- <-]; cbn; discriminate].
  unfold bind.
  destruct (Routes.rollback w (Routes.submittedOrders acc) s1) as [[[]|e] s2] eqn:Hroll;
    [|done].
  cbn. intros [= <- <-] _ entry Hin Hs. cbn in Hin.
  destruct (Hinv entry Hin Hs) as (o & c & Hl & Hcl & Hm).
  pose proof (BatchProofs.rollback_cancels w _ s1 _ o c Hl Hcl Hm) as H.
  rewrite Hroll in H. exact H.
Qed.

(** In the batch of three whose second order is refused, the first order,
    accepted, ends CANCELLED. *)
Lemma execute_atomic_rollback_cancels_first_of_three :
  row_status
    (snd (Routes.execute_atomic Scenario.book_refusing_second
            Scenario.batch_request (Scenario.db Scenario.ready_user [])))
    0
  = Some CANCELLED.
Proof.
  set (entry := Routes.mkOrderEntry 0 (Some "order-0") (Some "0xC10B-0") true None).
  assert (exists response,
    fst (Routes.execute_atomic Scenario.book_refusing_second
           Scenario.batch_request (Scenario.db Scenario.ready_user []))
    = Ok response /\
    Routes.success response = false /\
    entry ∈ Routes.orderResults response) as (response & H1 & H2 & H3).
  { eexists. split; [vm_compute; reflexivity|]. split; [reflexivity|].
    apply list_elem_of_here. }
  exact (execute_atomic_rollback_cancels_accepted
           Scenario.book_refusing_second Scenario.batch_request
           (Scenario.db Scenario.ready_user []) response H1 H2 entry H3 eq_refl).
Defined.

(** C2 (as stated) fails for the member that failed: in the batch of three
    whose second order is refused, the handler answers that the batch
    failed, the rollback runs, and the row of the second order still has
    the status PENDING it was created with. *)
Lemma execute_atomic_leaves_failed_member_pending :
  let run := Routes.execute_atomic Scenario.book_refusing_second
               Scenario.batch_request (Scenario.db Scenario.ready_user []) in
  (exists response, fst run = Ok response /\ Routes.success response = false /\
     Routes.e_success <$> Routes.orderResults response = [true; false; true]) /\
  In (EvCancelOrder "0xC10B-0") (trace (snd run)) /\
  row_status (snd run) 1 = Some PENDING /\
  row_status (snd run) 1 <> Some CANCELLED.
Proof.
  cbv zeta. split; [eexists; vm_compute; done|].
  vm_compute. split; [tauto|]. split; [done|discriminate].
Qed.

(** C1 fails on the REST handler: in the batch of three whose second order
    is refused, the third order is persisted and submitted all the same
    (and, accepted, cancelled afterwards with the first). *)
Lemma execute_atomic_submits_after_failure :
  let run := Routes.execute_atomic Scenario.book_refusing_second
               Scenario.batch_request (Scenario.db Scenario.ready_user []) in
  trace (snd run)
  = [EvPostOrder "token-0" false; EvPostOrder "token-1" false;
     EvPostOrder "token-2" false;
     EvCancelOrder "0xC10B-0"; EvCancelOrder "0xC10B-2"] /\
  o_tokenId <$> orders (snd run) = ["token-0"; "token-1"; "token-2"] /\
  o_clobOrderId <$> orders (snd run) = [Some "0xC10B-0"; None; Some "0xC10B-2"].
Proof. vm_compute. done. Qed.

(** The MCP tool, on the same batch, stops at the refused order: the third
    order is neither persisted nor submitted. *)
Lemma execute_atomic_orders_stops_at_failure :
  let run := McpTools.execute_atomic_orders Scenario.book_refusing_second
               "user-1" (Some Scenario.batch)
               (Scenario.db Scenario.ready_user []) in
  trace (snd run)
  = [EvPostOrder "token-0" false; EvPostOrder "token-1" false;
     EvCancelOrder "0xC10B-0"] /\
  o_tokenId <$> orders (snd run) = ["token-0"; "token-1"] /\
  o_status <$> orders (snd run) = [CANCELLED; PENDING].
Proof. vm_compute. done. Qed.

(** * The rest of the gateway *)

Module GatewayProofs.
Import OrderService GatewayFacts.



Lemma createOrder_head_tradable w p s row order s1 :
  createOrder_head w p s = (Ok (row, order), s1) -> tradable s (userId p).
Proof.
  unfold createOrder_head, bind.
  pose proof (OrderProofs.validate_pure id p s) as Hv.
  destruct (validate p s) as [[[]|e] s0]; cbn in Hv; subst s0; [|done].
  cbn. destruct (users s !! userId p) as [u|] eqn:Hu; [|done].
  destruct (bool_decide (u_status u = READY)) eqn:E1; [|done].
  destruct (Js.truthy (u_safeAddress u)) eqn:E2; [|done].
  intros _. exists u. apply bool_decide_eq_true in E1. done.
Qed.

Lemma createOrder_head_row w p s row order s1 :
  createOrder_head w p s = (Ok (row, order), s1) ->
  o_id order = w_cuid w (length (orders s)) /\ o_clobOrderId order = None /\
  users s1 = users s /\ activityLog s1 = activityLog s /\
  o_userId order = userId p /\ o_tokenId order = tokenId p /\
  o_price order = price p /\ o_size order = size p.
Proof.
  unfold createOrder_head, bind.
  pose proof (OrderProofs.validate_pure id p s) as Hv.
  destruct (validate p s) as [[[]|e] s0]; cbn in Hv; subst s0; [|done].
  cbn. destruct (users s !! userId p) as [u|] eqn:Hu; [|done].
  destruct (negb _); [done|]. destruct (negb _); [done|].
  cbn. intros [= <- <- <-]. done.
Qed.

Lemma alter_last {A} (f : A -> A) (l : list A) (o : A) :
  alter f (length l) (l ++ [o])%list = (l ++ [f o])%list.
Proof. rewrite alter_app_r_alt by lia. by rewrite Nat.sub_diag. Qed.

Lemma isNegRiskMarket_ledger w c t : preserves ledger (isNegRiskMarket w c t).
Proof. unfold isNegRiskMarket. frame. Qed.

Lemma attemptOrder_ledger w oo ty f : preserves ledger (attemptOrder w oo ty f).
Proof. unfold attemptOrder. frame. Qed.

#[local] Hint Resolve isNegRiskMarket_ledger attemptOrder_ledger : frame.

Lemma submitOrder_ledger w c oo ty f : preserves ledger (submitOrder w c oo ty f).
Proof. unfold submitOrder. frame. Qed.

Lemma prepare_ledger w p row : preserves ledger (prepare w p row).
Proof. unfold prepare. frame. Qed.

(** What the [try] block and the handler of [createOrder] do to the
    tables, whatever the remote services answer. *)
Lemma createOrder_settles w p l order s1 :
  orders s1 = (l ++ [order])%list ->
  let run := try_catch (createOrder_try w p (length l) order)
                       (createOrder_catch p (length l) order) s1 in
  exists final,
    orders (snd run) = (l ++ [final])%list /\
    users (snd run) = users s1 /\
    o_id final = o_id order /\
    match fst run with
    | Ok res =>
        o_status final = LIVE /\ res_status res = LIVE /\
        res_orderId res = o_id order /\
        o_clobOrderId final = res_clobOrderId res /\
        Js.truthy (res_clobOrderId res) = true /\
        activityLog (snd run)
        = (activityLog s1 ++ [mkActivity (userId p) "ORDER_CREATED" (o_id order)])%list
    | Throw e =>
        o_status final = FAILED /\ o_clobOrderId final = o_clobOrderId order /\
        o_statusMessage final = Some (Js.message e) /\
        activityLog (snd run)
        = (activityLog s1 ++ [mkActivity (userId p) "ORDER_FAILED" (o_id order)])%list
    end.
Proof.
  intros Ho. cbv zeta. unfold try_catch, createOrder_try, bind.
  pose proof (OrderProofs.prepare_orders w p (length l) s1) as Hp.
  pose proof (prepare_ledger w p (length l) s1) as Hpl.
  destruct (prepare w p (length l) s1) as [[flag|e] s2]; cbn in Hp, Hpl.
  2:{ injection Hpl as Hu Ha. cbn.
      rewrite Hp, Ho, !alter_last, Hu, Ha. eexists. split; [done|]. done. }
  pose proof (OrderProofs.submitOrder_orders w (conditionId p) (orderOptions_of p)
    (mapOrderType (default GTC (orderType p))) flag s2) as Hs.
  pose proof (submitOrder_ledger w (conditionId p) (orderOptions_of p)
    (mapOrderType (default GTC (orderType p))) flag s2) as Hsl.
  destruct (submitOrder _ _ _ _ _ s2) as [[resp|e] s3]; cbn in Hs, Hsl;
    injection Hpl as Hu Ha; injection Hsl as Hu3 Ha3.
  2:{ cbn. rewrite Hs, Hp, Ho, !alter_last, Hu3, Hu, Ha3, Ha.
      eexists. split; [done|]. done. }
  unfold record. destruct resp as [r|].
  2:{ cbn. rewrite Hs, Hp, Ho, !alter_last, Hu3, Hu, Ha3, Ha.
      eexists. split; [done|]. done. }
  destruct (extract_clobOrderId r) as [cid|] eqn:Hid; cbn.
  - rewrite Hs, Hp, Ho, !alter_last, Hu3, Hu, Ha3, Ha.
    eexists. split; [done|]. cbn.
    pose proof (OrderProofs.extract_nonempty r cid Hid). done.
  - rewrite Hs, Hp, Ho, !alter_last, Hu3, Hu, Ha3, Ha.
    eexists. split; [done|]. done.
Qed.

Lemma createOrder_outcome w p s :
  let run := createOrder w p s in
  (exists e, run = (Throw e, s)) \/
  (tradable s (userId p) /\
   exists final,
    orders (snd run) = (orders s ++ [final])%list /\
    users (snd run) = users s /\
    o_id final = w_cuid w (length (orders s)) /\
    match fst run with
    | Ok res =>
        o_status final = LIVE /\ res_status res = LIVE /\
        res_orderId res = o_id final /\
        o_clobOrderId final = res_clobOrderId res /\
        Js.truthy (res_clobOrderId res) = true /\
        activityLog (snd run)
        = (activityLog s ++ [mkActivity (userId p) "ORDER_CREATED" (o_id final)])%list
    | Throw e =>
        o_status final = FAILED /\ o_clobOrderId final = None /\
        o_statusMessage final = Some (Js.message e) /\
        activityLog (snd run)
        = (activityLog s ++ [mkActivity (userId p) "ORDER_FAILED" (o_id final)])%list
    end).
Proof.
  cbv zeta. unfold createOrder, bind.
  pose proof (OrderProofs.createOrder_head_spec w p s) as Hh.
  pose proof (createOrder_head_tradable w p s) as Ht.
  pose proof (createOrder_head_row w p s) as Hr.
  destruct (createOrder_head w p s) as [[[row order]|e] s1].
  2:{ subst s1. left. by eexists. }
  right. destruct Hh as (-> & Ho & _).
  specialize (Ht _ _ _ eq_refl). specialize (Hr _ _ _ eq_refl).
  destruct Hr as (Hid & Hc & Hu & Ha & _).
  split; [done|].
  destruct (createOrder_settles w p (orders s) order s1 Ho)
    as (final & H1 & H2 & H3 & H4).
  exists final. rewrite H1, H2, Hu, H3, Hid. repeat split; try done.
  destruct (fst _); rewrite <- ?Ha, <- ?Hc, <- ?Hid; exact H4.
Qed.

Lemma getApiCredentials_users w userId s s' :
  users s = users s' ->
  fst (KeyService.getApiCredentials w userId s)
  = fst (KeyService.getApiCredentials w userId s').
Proof.
  intros H. unfold KeyService.getApiCredentials, bind, prisma.user_findUnique.
  cbn. rewrite H. destruct (users s' !! userId) as [u|]; [|done].
  destruct (u_credentials u) as [c|]; [|done].
  destruct (w_base64_decode w _); [|done].
  destruct (KeyService.base64Regex_test _); done.
Qed.

Lemma find_row_lookup p os : forall base row o,
  prisma.find_row p os base = Some (row, o) ->
  exists i, row = (base + i)%nat /\ os !! i = Some o /\ p o = true.
Proof.
  induction os as [|x os IH]; intros base row o; cbn; [done|].
  destruct (p x) eqn:Hp.
  - intros [= <- <-]. exists 0%nat. rewrite Nat.add_0_r. done.
  - intros H. destruct (IH _ _ _ H) as (i & -> & Hi & Hpo).
    exists (S i). split; [lia|done].
Qed.

Lemma findOrder_lookup orderId s row order s' :
  findOrder orderId s = (Ok (Some (row, order)), s') ->
  s' = s /\ orders s !! row = Some order.
Proof.
  unfold findOrder, bind, prisma.order_findUnique_id,
    prisma.order_findUnique_clobOrderId. cbn.
  destruct (prisma.find_row _ (orders s) 0) as [[r o]|] eqn:H1; cbn.
  - intros [= <- <- <-]. split; [done|].
    destruct (find_row_lookup _ _ _ _ _ H1) as (i & -> & Hi & _). exact Hi.
  - intros [= H2 <-]. split; [done|].
    destruct (find_row_lookup _ _ _ _ _ H2) as (i & -> & Hi & _). exact Hi.
Qed.

(** What the [try] block of [cancelOrder] does. *)
Lemma cancelOrder_try_spec w userId row order c s :
  orders s !! row = Some order ->
  let run := cancelOrder_try w userId row order c s in
  match fst run with
  | Throw _ => snd run = s
  | Ok res =>
      users (snd run) = users s /\
      (forall j, j <> row -> orders (snd run) !! j = orders s !! j) /\
      exists final,
        orders (snd run) !! row = Some final /\
        o_id final = o_id order /\ o_clobOrderId final = o_clobOrderId order /\
        ((res_status res = FILLED /\ o_status final = FILLED /\
          new_events s (snd run) = [EvGetOrder c]) \/
         (res_status res = CANCELLED /\
          (o_status final = CANCELLED \/ o_status final = FILLED) /\
          new_events s (snd run) = [EvGetOrder c; EvCancelOrder c; EvGetOrder c]))
  end.
Proof.
  intros Hrow. cbv zeta. unfold cancelOrder_try, bind.
  pose proof (getUserWallet_pure id userId s) as H1.
  destruct (KeyService.getUserWallet userId s) as [[wallet|e] s1];
    cbn in H1; subst s1; [|done].
  pose proof (getApiCredentials_pure id w userId s) as H2.
  destruct (KeyService.getApiCredentials w userId s) as [[cr|e] s1];
    cbn in H2; subst s1; [|done].
  unfold remote. cbn -[is_filled].
  match goal with
  | |- context [let '(_, _) := ?x in _] => destruct x as [actualStatus sizeMatched]
  end.
  destruct (is_filled actualStatus sizeMatched (o_size order)).
  { cbn. split; [done|]. split.
    { intros j Hj. by rewrite list_lookup_alter_ne. }
    eexists. rewrite list_lookup_alter_eq, Hrow. cbn. split; [done|].
    split; [done|]. split; [done|]. left.
    unfold new_events. cbn. by rewrite drop_app_length. }
  cbn -[is_filled].
  match goal with
  | |- context [w_getOrder w ?t c] => destruct (w_getOrder w t c) as [e|[after|]]
  end; cbn -[is_filled].
  2:{ destruct (is_filled _ _ _); [|destruct (Qltb 0 _)]; cbn;
        (split; [done|]); (split;
          [intros j Hj; by rewrite ?list_lookup_alter_ne by done|]);
        eexists; rewrite ?list_lookup_alter_eq, Hrow; cbn;
        (split; [done|]); (split; [done|]); (split; [done|]); right;
        unfold new_events; cbn; rewrite <- !app_assoc, drop_app_length; cbn;
        auto. }
  all: cbn; (split; [done|]); (split;
          [intros j Hj; by rewrite ?list_lookup_alter_ne by done|]);
        eexists; rewrite ?list_lookup_alter_eq, Hrow; cbn;
        (split; [done|]); (split; [done|]); (split; [done|]); right;
        unfold new_events; cbn; rewrite <- !app_assoc, drop_app_length; cbn;
        auto.
Qed.

End GatewayProofs.


(** X2.  On a cache miss [isNegRiskMarket] answers neg-risk only when a
    remote service said so: the CLOB market has [neg_risk], or the CLOB
    answered not-ok and the first Gamma market of the token is neg-risk.
    A fetch that throws, a Gamma answer that is not ok or empty, or a
    missing token id all give the standard routing. *)
Theorem isNegRiskMarket_defaults_to_standard w conditionId tokenId s :
  marketNegRiskCache s !! conditionId = None ->
  fst (OrderService.isNegRiskMarket w conditionId tokenId s) = Ok true ->
  w_fetchClobMarket w (trace s) conditionId = ClobFetchOk true \/
  (w_fetchClobMarket w (trace s) conditionId = ClobFetchNotOk /\
   exists tok rest,
     tokenId = Some tok /\ Js.nonempty tok = true /\
     w_fetchGammaMarkets w (trace s ++ [EvFetchClobMarket conditionId]) tok
     = GammaFetchOk (true :: rest)).
Proof.
  intros Hc. unfold OrderService.isNegRiskMarket, bind, get, remote. cbn.
  rewrite Hc.
  destruct (w_fetchClobMarket w (trace s) conditionId) as [| |b]; cbn.
  - done.
  - destruct tokenId as [tok|]; [|done].
    destruct (Js.nonempty tok) eqn:Hn; [|done]. cbn.
    destruct (w_fetchGammaMarkets w _ tok) as [| |[|b rest]] eqn:Hg; try done.
    cbn. intros [= ->]. right. split; [done|]. by exists tok, rest.
  - intros [= ->]. by left.
Qed.

Lemma isNegRiskMarket_defaults_to_standard_neg_risk_market :
  w_fetchClobMarket Cases.neg_risk_market
    (trace (Scenario.db Scenario.ready_user [])) "0xCOND" = ClobFetchOk true \/
  (w_fetchClobMarket Cases.neg_risk_market
     (trace (Scenario.db Scenario.ready_user [])) "0xCOND" = ClobFetchNotOk /\
   exists tok rest,
     Some "token-1" = Some tok /\ Js.nonempty tok = true /\
     w_fetchGammaMarkets Cases.neg_risk_market
       (trace (Scenario.db Scenario.ready_user []) ++ [EvFetchClobMarket "0xCOND"])
       tok
     = GammaFetchOk (true :: rest)).
Proof.
  apply (isNegRiskMarket_defaults_to_standard Cases.neg_risk_market "0xCOND"
           (Some "token-1") (Scenario.db Scenario.ready_user []));
    reflexivity.
Defined.

(** X3.  [createOrder] for an account that may not trade (unknown, not
    READY, or without a Safe address) raises and leaves the state as it
    was: no row is created and no remote call is made. *)
Theorem createOrder_requires_tradable_account w p s :
  ~ GatewayFacts.tradable s (OrderService.userId p) ->
  exists e, OrderService.createOrder w p s = (Throw e, s).
Proof.
  intros Hn. destruct (GatewayProofs.createOrder_outcome w p s) as [H|[H _]];
    [exact H|done].
Qed.

Lemma createOrder_requires_tradable_account_deployed_user :
  exists e,
    OrderService.createOrder Scenario.book_accepting (Scenario.params (45 # 100) 10)
      (Scenario.db Scenario.deployed_user [])
    = (Throw e, Scenario.db Scenario.deployed_user []).
Proof.
  apply (createOrder_requires_tradable_account Scenario.book_accepting
           (Scenario.params (45 # 100) 10) (Scenario.db Scenario.deployed_user [])).
  intros (u & Hu & Hst & _). vm_compute in Hu. injection Hu as <-. discriminate.
Defined.

(** X4.  [createOrder] either raises with the state as it was, or appends
    exactly one row to the orders and leaves every older row and every user
    as they were.  The appended row is LIVE under the remote id that the
    call returns when the call returns, and FAILED without a remote id,
    with the error's message as its status message, when the call raises:
    it is never left PENDING or SUBMITTING. *)
Theorem createOrder_appends_one_settled_row w p s :
  let run := OrderService.createOrder w p s in
  (exists e, run = (Throw e, s)) \/
  exists final,
    orders (snd run) = (orders s ++ [final])%list /\
    users (snd run) = users s /\
    match fst run with
    | Ok res =>
        o_status final = LIVE /\
        OrderService.res_status res = LIVE /\
        OrderService.res_orderId res = o_id final /\
        o_clobOrderId final = OrderService.res_clobOrderId res /\
        Js.truthy (OrderService.res_clobOrderId res) = true
    | Throw e =>
        o_status final = FAILED /\ o_clobOrderId final = None /\
        o_statusMessage final = Some (Js.message e)
    end.
Proof.
  cbv zeta.
  destruct (GatewayProofs.createOrder_outcome w p s)
    as [H|(_ & final & H1 & H2 & _ & H3)]; [by left|right].
  exists final. split; [done|]. split; [done|].
  destruct (fst _); tauto.
Qed.

(** X5.  Every [createOrder] that gets as far as creating its row writes
    exactly one entry to the activity log, for the calling user and the new
    row: ORDER_CREATED when the call returns, ORDER_FAILED when it raises.
    A call that is refused before the row is created writes none. *)
Theorem createOrder_audit_entry w p s :
  let run := OrderService.createOrder w p s in
  let entry action :=
    mkActivity (OrderService.userId p) action (w_cuid w (length (orders s))) in
  match fst run with
  | Ok _ => activityLog (snd run) = (activityLog s ++ [entry "ORDER_CREATED"])%list
  | Throw _ =>
      (length (orders (snd run)) = length (orders s) /\
       activityLog (snd run) = activityLog s) \/
      (length (orders (snd run)) = S (length (orders s)) /\
       activityLog (snd run) = (activityLog s ++ [entry "ORDER_FAILED"])%list)
  end.
Proof.
  cbv zeta.
  destruct (GatewayProofs.createOrder_outcome w p s)
    as [[e ->]|(_ & final & H1 & _ & H2 & H3)]; [cbn; by left|].
  rewrite H2 in H3.
  destruct (fst _).
  - tauto.
  - right. rewrite H1, length_app. cbn. split; [lia|tauto].
Qed.

(** X6.  Without readable credentials [createOrder] makes no remote call at
    all, not even the market lookup: it raises, and the transcript is as it
    was. *)
Theorem createOrder_needs_credentials w p s e0 :
  fst (KeyService.getApiCredentials w (OrderService.userId p) s) = Throw e0 ->
  trace (snd (OrderService.createOrder w p s)) = trace s /\
  exists e, fst (OrderService.createOrder w p s) = Throw e.
Proof.
  intros Hc. unfold OrderService.createOrder, bind.
  pose proof (OrderProofs.createOrder_head_spec w p s) as Hh.
  pose proof (GatewayProofs.createOrder_head_row w p s) as Hr.
  destruct (OrderService.createOrder_head w p s) as [[[row order]|e] s1].
  2:{ subst s1. split; [done|by eexists]. }
  destruct Hh as (_ & _ & _ & Ht & _).
  destruct (Hr _ _ _ eq_refl) as (_ & _ & Hu & _).
  unfold try_catch, OrderService.createOrder_try, OrderService.prepare, bind.
  unfold prisma.order_update, modify.
  match goal with
  | |- context [KeyService.getUserWallet _ ?st] => set (s2 := st)
  end.
  assert (trace s2 = trace s) as Ht2 by (subst s2; exact Ht).
  assert (users s2 = users s) as Hu2 by (subst s2; exact Hu).
  pose proof (getUserWallet_pure id (OrderService.userId p) s2) as H1.
  destruct (KeyService.getUserWallet (OrderService.userId p) s2) as [[wallet|e] s3];
    cbn in H1; subst s3.
  2:{ cbn. split; [done|by eexists]. }
  pose proof (getApiCredentials_pure id w (OrderService.userId p) s2) as H2.
  pose proof (GatewayProofs.getApiCredentials_users w (OrderService.userId p)
                s2 s Hu2) as H3.
  rewrite Hc in H3.
  destruct (KeyService.getApiCredentials w (OrderService.userId p) s2)
    as [[cr|e] s3]; cbn in H2, H3; subst s3; [done|].
  cbn. split; [done|by eexists].
Qed.

Lemma createOrder_needs_credentials_lost :
  let s := Scenario.db Cases.user_without_credentials [] in
  trace (snd (OrderService.createOrder Scenario.book_accepting
                (Scenario.params (45 # 100) 10) s)) = trace s /\
  exists e, fst (OrderService.createOrder Scenario.book_accepting
                   (Scenario.params (45 # 100) 10) s) = Throw e.
Proof.
  apply (createOrder_needs_credentials Scenario.book_accepting
           (Scenario.params (45 # 100) 10)
           (Scenario.db Cases.user_without_credentials [])
           (Js.error "API credentials not found for user")).
  reflexivity.
Defined.

(** X7.  [cancelOrder] by a user other than the owner of the order raises
    "Order does not belong to user" and leaves the state as it was, whatever
    the status of the order. *)
Theorem cancelOrder_refuses_foreign_order w userId orderId s row order :
  OrderService.findOrder orderId s = (Ok (Some (row, order)), s) ->
  o_userId order <> userId ->
  OrderService.cancelOrder w userId orderId s
  = (Throw (Js.error "Order does not belong to user"), s).
Proof.
  intros Hfind Hu. unfold OrderService.cancelOrder, bind. rewrite Hfind.
  by rewrite bool_decide_eq_false_2.
Qed.

Lemma cancelOrder_refuses_foreign_order_user_2 :
  OrderService.cancelOrder Scenario.book_accepting "user-2" "order-0"
    (Scenario.db Scenario.ready_user [Cases.live_order])
  = (Throw (Js.error "Order does not belong to user"),
     Scenario.db Scenario.ready_user [Cases.live_order]).
Proof.
  apply (cancelOrder_refuses_foreign_order Scenario.book_accepting "user-2"
           "order-0" (Scenario.db Scenario.ready_user [Cases.live_order])
           0 Cases.live_order).
  - reflexivity.
  - discriminate.
Defined.

(** X8.  When [cancelOrder] returns, the row of the order is FILLED or
    CANCELLED and no other row has changed.  Either the order book showed
    the order as filled before any cancel call: the answer and the row say
    FILLED and the only remote call was that read.  Or one cancel call was
    made between two reads: the answer says CANCELLED, and the row says
    CANCELLED, or FILLED when the second read showed the order filled. *)
Theorem cancelOrder_outcome w userId orderId s row order res :
  OrderService.findOrder orderId s = (Ok (Some (row, order)), s) ->
  fst (OrderService.cancelOrder w userId orderId s) = Ok res ->
  let s' := snd (OrderService.cancelOrder w userId orderId s) in
  (forall j, j <> row -> orders s' !! j = orders s !! j) /\
  exists c final,
    o_clobOrderId order = Some c /\ orders s' !! row = Some final /\
    ((OrderService.res_status res = FILLED /\ o_status final = FILLED /\
      new_events s s' = [EvGetOrder c]) \/
     (OrderService.res_status res = CANCELLED /\
      (o_status final = CANCELLED \/ o_status final = FILLED) /\
      new_events s s' = [EvGetOrder c; EvCancelOrder c; EvGetOrder c])).
Proof.
  intros Hfind. cbv zeta.
  destruct (GatewayProofs.findOrder_lookup _ _ _ _ _ Hfind) as [_ Hrow].
  unfold OrderService.cancelOrder, bind. rewrite Hfind.
  destruct (negb (bool_decide (o_userId order = userId))); [done|].
  destruct (o_clobOrderId order) as [c|] eqn:Hc; [|done].
  destruct (negb (Js.nonempty c)); [done|].
  destruct (negb (bool_decide (o_status order = LIVE))); [done|].
  unfold try_catch.
  pose proof (GatewayProofs.cancelOrder_try_spec w userId row order c s Hrow)
    as Hspec. cbv zeta in Hspec.
  destruct (OrderService.cancelOrder_try w userId row order c s) as [[r|e] s1];
    cbn in Hspec; cbn; [|done].
  intros [= <-]. destruct Hspec as (_ & Hrest & final & Hf & _ & _ & Hcases).
  split; [exact Hrest|]. exists c, final. done.
Qed.

Lemma cancelOrder_outcome_filled_meanwhile :
  let s := Scenario.db Scenario.ready_user [Cases.live_order] in
  let s' := snd (OrderService.cancelOrder Cases.book_filling_meanwhile
                   "user-1" "order-0" s) in
  (forall j, j <> 0%nat -> orders s' !! j = orders s !! j) /\
  exists c final,
    o_clobOrderId Cases.live_order = Some c /\ orders s' !! 0%nat = Some final /\
    ((OrderService.res_status
        (OrderService.mkOrderResult "order-0" (Some "0xC10B") CANCELLED None)
      = FILLED /\ o_status final = FILLED /\
      new_events s s' = [EvGetOrder c]) \/
     (OrderService.res_status
        (OrderService.mkOrderResult "order-0" (Some "0xC10B") CANCELLED None)
      = CANCELLED /\
      (o_status final = CANCELLED \/ o_status final = FILLED) /\
      new_events s s' = [EvGetOrder c; EvCancelOrder c; EvGetOrder c])).
Proof.
  apply (cancelOrder_outcome Cases.book_filling_meanwhile "user-1" "order-0"
           (Scenario.db Scenario.ready_user [Cases.live_order]) 0 Cases.live_order
           (OrderService.mkOrderResult "order-0" (Some "0xC10B") CANCELLED None)).
  - reflexivity.
  - vm_compute. reflexivity.
Defined.

(** X9.  When [cancelOrder] raises it has made no remote call and has
    changed no order row and no user: a cancel is refused or given up
    before the order book is contacted. *)
Theorem cancelOrder_raise_changes_nothing w userId orderId s e :
  fst (OrderService.cancelOrder w userId orderId s) = Throw e ->
  let s' := snd (OrderService.cancelOrder w userId orderId s) in
  orders s' = orders s /\ users s' = users s /\ trace s' = trace s.
Proof.
  cbv zeta. unfold OrderService.cancelOrder, bind.
  destruct (OrderService.findOrder orderId s) as [[found|e0] s0] eqn:Hfind.
  2:{ unfold OrderService.findOrder, bind in Hfind. cbn in Hfind.
      destruct (prisma.find_row _ _ _); done. }
  destruct found as [[row order]|].
  2:{ unfold OrderService.findOrder, bind in Hfind. cbn in Hfind.
      destruct (prisma.find_row _ _ _); injection Hfind as _ <-; done. }
  destruct (GatewayProofs.findOrder_lookup _ _ _ _ _ Hfind) as [-> Hrow].
  destruct (negb (bool_decide (o_userId order = userId))); [done|].
  destruct (o_clobOrderId order) as [c|] eqn:Hc; [|done].
  destruct (negb (Js.nonempty c)); [done|].
  destruct (negb (bool_decide (o_status order = LIVE))); [done|].
  unfold try_catch.
  pose proof (GatewayProofs.cancelOrder_try_spec w userId row order c s Hrow)
    as Hspec. cbv zeta in Hspec.
  destruct (OrderService.cancelOrder_try w userId row order c s) as [[r|e1] s1];
    cbn in Hspec; cbn; [done|].
  subst s1. done.
Qed.

Lemma cancelOrder_raise_changes_nothing_without_credentials :
  let s := Scenario.db Cases.user_without_credentials [Cases.live_order] in
  let s' := snd (OrderService.cancelOrder Scenario.book_accepting
                   "user-1" "order-0" s) in
  orders s' = orders s /\ users s' = users s /\ trace s' = trace s.
Proof.
  apply (cancelOrder_raise_changes_nothing Scenario.book_accepting "user-1"
           "order-0" (Scenario.db Cases.user_without_credentials [Cases.live_order])
           (Js.error "API credentials not found for user")).
  reflexivity.
Defined.

Module ReconciliationProofs.
Import OrderService OrderReconciliation ReconciliationFacts.

Lemma order_findMany_lookup p os : forall base row o,
  (row, o) ∈ order_findMany p os base ->
  exists i, row = (base + i)%nat /\ os !! i = Some o /\ p o = true.
Proof.
  induction os as [|x os IH]; intros base row o; cbn.
  { intros H. by apply elem_of_nil in H. }
  destruct (p x) eqn:Hp.
  - intros [[= -> ->]|H]%elem_of_cons.
    + exists 0%nat. rewrite Nat.add_0_r. done.
    + destruct (IH _ _ _ H) as (i & -> & Hi & Hpo).
      exists (S i). split; [lia|done].
  - intros H. destruct (IH _ _ _ H) as (i & -> & Hi & Hpo).
    exists (S i). split; [lia|done].
Qed.

Lemma syncedStatus_range order clobStatus sizeMatched :
  syncedStatus order clobStatus sizeMatched = o_status order \/
  In (syncedStatus order clobStatus sizeMatched) [FILLED; MATCHED; CANCELLED; LIVE].
Proof.
  unfold syncedStatus.
  repeat match goal with
         | |- context [if ?b then _ else _] => destruct b
         end; cbn; tauto.
Qed.

(** One iteration of the loop never raises; it reads the order once and
    writes, if at all, to the row of the order, a status that
    [syncedStatus] gives. *)
Lemma syncStep_spec w row order c s :
  let run := try_catch (syncOne w row order c)
               (fun e =>
                  ret (mkSyncEntry (o_id order) (OrderStatus_name (o_status order))
                         "SYNC_ERROR" (filledSize order), false)) s in
  exists entry written,
    fst run = Ok (entry, written) /\
    users (snd run) = users s /\
    trace (snd run) = (trace s ++ [EvGetOrder c])%list /\
    (orders (snd run) = orders s \/
     exists st q, written = true /\
       (st = o_status order \/ In st [FILLED; MATCHED; CANCELLED; LIVE]) /\
       orders (snd run) = alter (order_set_filled (Some st) q) row (orders s)).
Proof.
  cbv zeta. unfold try_catch, syncOne, bind, remote. cbn.
  destruct (w_getOrder w (trace s) c) as [e|[clobOrder|]]; cbn.
  - eexists _, _. split; [done|]. split; [done|]. split; [done|]. by left.
  - destruct (_ || _); cbn.
    + eexists _, _. split; [done|]. split; [done|]. split; [done|]. right.
      eexists _, _. split; [done|]. split; [|done].
      apply syncedStatus_range.
    + eexists _, _. split; [done|]. split; [done|]. split; [done|]. by left.
  - eexists _, _. split; [done|]. split; [done|]. split; [done|]. by left.
Qed.

Lemma reconciled_refl userId os : reconciled userId os os.
Proof.
  split; [done|]. intros j o Hj. exists o. unfold same_order. tauto.
Qed.

Lemma reconciled_write userId before after row order st q :
  reconciled userId before after ->
  before !! row = Some order -> needs_sync userId order = true ->
  (st = o_status order \/ In st [FILLED; MATCHED; CANCELLED; LIVE]) ->
  reconciled userId before (alter (order_set_filled (Some st) q) row after).
Proof.
  intros [Hlen Hrows] Hrow Hsel Hst. split; [by rewrite length_alter|].
  intros j o Hj. destruct (Hrows j o Hj) as (o' & Hj' & Hsame & Hstat & Hkeep).
  destruct (decide (j = row)) as [->|Hne].
  - rewrite list_lookup_alter_eq, Hj'. cbn. eexists. split; [done|].
    assert (o = order) as -> by congruence.
    split; [exact Hsame|]. split; [|congruence].
    cbn. destruct Hst as [->|Hst]; tauto.
  - rewrite list_lookup_alter_ne by done. eauto.
Qed.

Lemma syncLoop_spec w userId before found : forall updated results s,
  (forall row o, (row, o) ∈ found ->
     before !! row = Some o /\ needs_sync userId o = true) ->
  reconciled userId before (orders s) ->
  let run := syncLoop w found updated results s in
  exists updated' new,
    fst run = Ok (updated', (results ++ new)%list) /\
    users (snd run) = users s /\
    reconciled userId before (orders (snd run)) /\
    trace (snd run) = (trace s ++ (EvGetOrder <$> ids_to_sync found))%list /\
    length new = length (ids_to_sync found) /\
    (updated <= updated' <= updated + length new)%nat.
Proof.
  induction found as [|[row order] rest IH]; intros updated results s Hfound Hrec;
    cbn [syncLoop].
  { exists updated, []. cbn. rewrite !app_nil_r. split; [done|].
    split; [done|]. split; [done|]. split; [done|]. split; [done|]. lia. }
  destruct (Hfound row order) as [Hrow Hsel]; [apply elem_of_cons; by left|].
  assert (forall row o, (row, o) ∈ rest ->
            before !! row = Some o /\ needs_sync userId o = true) as Hrest.
  { intros r o H. apply Hfound. apply elem_of_cons. by right. }
  unfold ids_to_sync. cbn [omap list_omap]. fold (ids_to_sync rest).
  unfold Js.truthy. cbn [snd].
  destruct (o_clobOrderId order) as [c|] eqn:Hc; cbn [negb default].
  2:{ apply IH; done. }
  destruct (Js.nonempty c) eqn:Hne; cbn [negb].
  2:{ apply IH; done. }
  cbv zeta. unfold bind. change (id c) with c.
  destruct (syncStep_spec w row order c s) as (entry & written & Hrun & Hu & Ht & Ho).
  cbv zeta in Hrun, Hu, Ht, Ho.
  destruct (try_catch _ _ s) as [r s1]. cbn in Hrun, Hu, Ht, Ho. subst r.
  cbv beta iota zeta.
  assert (reconciled userId before (orders s1)) as Hrec1.
  { destruct Ho as [->|(st & q & _ & Hst & ->)]; [done|].
    by apply (reconciled_write userId before (orders s) row order). }
  destruct (IH (if written then S updated else updated) (results ++ [entry])%list
              s1 Hrest Hrec1) as (updated' & new & H1 & H2 & H3 & H4 & H5 & H6).
  cbv zeta in H1, H2, H3, H4.
  exists updated', (entry :: new).
  rewrite H1, H2, H4, Hu, Ht, <- !app_assoc. cbn.
  split; [done|]. split; [done|]. split; [done|]. split; [done|].
  split; [by rewrite H5|]. destruct written; lia.
Qed.

End ReconciliationProofs.

(** X10.  [syncAllUserOrders] leaves the users alone and the order table
    with the same rows; in a row only the status and the filled size can
    change, the status to FILLED, MATCHED, CANCELLED or LIVE; and a row that
    the query does not select (an order of another user, an order without
    remote id, an order that is FILLED, CANCELLED or FAILED) is left exactly
    as it was, whatever the order book answers. *)
Theorem syncAllUserOrders_reconciles w userId s :
  let s' := snd (OrderReconciliation.syncAllUserOrders w userId s) in
  users s' = users s /\
  ReconciliationFacts.reconciled userId (orders s) (orders s').
Proof.
  cbv zeta. unfold OrderReconciliation.syncAllUserOrders, bind, get.
  cbn [fst snd].
  destruct (OrderReconciliation.order_findMany _ (orders s) 0)
    as [|x found] eqn:Hfound.
  { cbn. split; [done|apply ReconciliationProofs.reconciled_refl]. }
  rewrite <- Hfound.
  pose proof (getUserWallet_pure id userId s) as H1.
  destruct (KeyService.getUserWallet userId s) as [[wallet|e] s1];
    cbn in H1; subst s1.
  2:{ cbn. split; [done|apply ReconciliationProofs.reconciled_refl]. }
  pose proof (getApiCredentials_pure id w userId s) as H2.
  destruct (KeyService.getApiCredentials w userId s) as [[cr|e] s1];
    cbn in H2; subst s1.
  2:{ cbn. split; [done|apply ReconciliationProofs.reconciled_refl]. }
  destruct (ReconciliationProofs.syncLoop_spec w userId (orders s)
              (OrderReconciliation.order_findMany
                 (OrderReconciliation.needs_sync userId) (orders s) 0)
              0 [] s)
    as (updated' & new & Hrun & Hu & Hrec & _).
  { intros row o Hin.
    destruct (ReconciliationProofs.order_findMany_lookup _ _ _ _ _ Hin)
      as (i & -> & Hi & Hp). done. }
  { apply ReconciliationProofs.reconciled_refl. }
  cbv zeta in Hrun, Hu, Hrec.
  destruct (OrderReconciliation.syncLoop _ _ _ _ s) as [r s1].
  cbn in Hrun, Hu, Hrec. subst r. cbn. done.
Qed.

(** Of the rows of a live order, a filled order and another user's live
    order, the reconciliation for user-1 reads the first alone and, finding
    it matched in full, marks it FILLED. *)
Lemma syncAllUserOrders_fills_live_order :
  let run := OrderReconciliation.syncAllUserOrders Cases.book_matched "user-1"
               (Scenario.db Scenario.ready_user Cases.order_book_rows) in
  o_status <$> orders (snd run) = [FILLED; FILLED; LIVE] /\
  trace (snd run) = [EvGetOrder "0xC10B"] /\
  (OrderReconciliation.updated <$>
     match fst run with Ok r => Some r | Throw _ => None end) = Some 1%nat.
Proof. vm_compute. done. Qed.

(** X11.  [syncAllUserOrders] reads every order it has selected exactly
    once from the order book, in the order of the rows, and reports one
    entry per read; no answer of the order book, and no failure of a read,
    makes it raise.  It raises only when there is an order to read and the
    key or the credentials of the user cannot be read, and then it has
    changed nothing. *)
Theorem syncAllUserOrders_reads_each_order_once w userId s :
  let found := OrderReconciliation.order_findMany
                 (OrderReconciliation.needs_sync userId) (orders s) 0 in
  let run := OrderReconciliation.syncAllUserOrders w userId s in
  match fst run with
  | Ok r =>
      OrderReconciliation.synced r = length found /\
      new_events s (snd run)
      = EvGetOrder <$> ReconciliationFacts.ids_to_sync found /\
      length (OrderReconciliation.sync_results r)
      = length (ReconciliationFacts.ids_to_sync found) /\
      (OrderReconciliation.updated r
       <= length (OrderReconciliation.sync_results r))%nat
  | Throw e =>
      snd run = s /\ found <> [] /\
      (fst (KeyService.getUserWallet userId s) = Throw e \/
       fst (KeyService.getApiCredentials w userId s) = Throw e)
  end.
Proof.
  cbv zeta. unfold OrderReconciliation.syncAllUserOrders, bind, get.
  cbn [fst snd].
  destruct (OrderReconciliation.order_findMany _ (orders s) 0)
    as [|x found] eqn:Hfound.
  { cbn. unfold new_events. cbn. by rewrite drop_all. }
  rewrite <- Hfound.
  pose proof (getUserWallet_pure id userId s) as H1.
  destruct (KeyService.getUserWallet userId s) as [[wallet|e] s1];
    cbn in H1; subst s1.
  2:{ cbn. rewrite Hfound. split; [done|]. split; [done|]. by left. }
  pose proof (getApiCredentials_pure id w userId s) as H2.
  destruct (KeyService.getApiCredentials w userId s) as [[cr|e] s1];
    cbn in H2; subst s1.
  2:{ cbn. rewrite Hfound. split; [done|]. split; [done|]. by right. }
  destruct (ReconciliationProofs.syncLoop_spec w userId (orders s)
              (OrderReconciliation.order_findMany
                 (OrderReconciliation.needs_sync userId) (orders s) 0)
              0 [] s)
    as (updated' & new & Hrun & _ & _ & Ht & Hlen & Hupd).
  { intros row o Hin.
    destruct (ReconciliationProofs.order_findMany_lookup _ _ _ _ _ Hin)
      as (i & -> & Hi & Hp). done. }
  { apply ReconciliationProofs.reconciled_refl. }
  cbv zeta in Hrun, Ht.
  destruct (OrderReconciliation.syncLoop _ _ _ _ s) as [r s1].
  cbn in Hrun, Ht. subst r. cbn.
  split; [done|]. split; [by apply WalletProofs.new_events_app|].
  split; [done|]. lia.
Qed.

(** X12.  [verifyOrder] only reads: it leaves the users, the orders and the
    activity log as they were, and raises only for an order id that no row
    has.  It reports an order as real only when the order book returned the
    order in this very call, which is then the only remote call made; for a
    row without remote id it asks nobody and reports NEVER_PLACED. *)
Theorem verifyOrder_reads_only w orderId s :
  let run := OrderReconciliation.verifyOrder w orderId s in
  users (snd run) = users s /\ orders (snd run) = orders s /\
  activityLog (snd run) = activityLog s /\
  match fst run with
  | Throw e =>
      snd run = s /\ e = Js.error "Order not found" /\
      forall row order, orders s !! row = Some order -> o_id order <> orderId
  | Ok v =>
      exists row order,
        orders s !! row = Some order /\ o_id order = orderId /\
        OrderReconciliation.localStatus v = o_status order /\
        OrderReconciliation.hasClobId v = Js.truthy (o_clobOrderId order) /\
        (OrderReconciliation.isReal v = true ->
         OrderReconciliation.verified v = true /\
         exists c clobOrder,
           o_clobOrderId order = Some c /\
           new_events s (snd run) = [EvGetOrder c] /\
           w_getOrder w (trace s) c = GetReturns (Some clobOrder)) /\
        (OrderReconciliation.hasClobId v = false ->
         snd run = s /\ OrderReconciliation.verified v = true /\
         OrderReconciliation.isReal v = false /\
         OrderReconciliation.clobStatus v = Some "NEVER_PLACED")
  end.
Proof.
  cbv zeta. unfold OrderReconciliation.verifyOrder, bind,
    prisma.order_findUnique_id. cbn [fst snd].
  destruct (prisma.find_row _ (orders s) 0) as [[row order]|] eqn:Hfind.
  2:{ cbn. repeat (split; [done|]). intros row order Hrow Hid.
      assert (forall os base, prisma.find_row
                (fun o => bool_decide (o_id o = orderId)) os base = None ->
              forall i o, os !! i = Some o -> o_id o <> orderId) as Hnone.
      { induction os as [|x os IH]; intros base; cbn; [done|].
        destruct (bool_decide (o_id x = orderId)) eqn:E; [done|].
        intros H [|i] o; cbn.
        - intros [= <-]. by apply bool_decide_eq_false in E.
        - by apply (IH (S base)). }
      by apply (Hnone _ _ Hfind row order). }
  destruct (GatewayProofs.find_row_lookup _ _ _ _ _ Hfind) as (i & -> & Hrow & Hid).
  apply bool_decide_eq_true in Hid. cbn [Nat.add] in *.
  destruct (Js.truthy (o_clobOrderId order)) eqn:Htruthy; cbn [negb].
  2:{ cbn. repeat (split; [done|]). exists i, order. rewrite Htruthy. done. }
  destruct (o_clobOrderId order) as [c|] eqn:Hc; [|done]. cbn [default].
  change (id c) with c.
  unfold try_catch, bind.
  pose proof (getUserWallet_pure id (o_userId order) s) as H1.
  destruct (KeyService.getUserWallet (o_userId order) s) as [[wallet|e] s1];
    cbn in H1; subst s1.
  2:{ cbn. repeat (split; [done|]). exists i, order. rewrite ?Hc, ?Htruthy. done. }
  pose proof (getApiCredentials_pure id w (o_userId order) s) as H2.
  destruct (KeyService.getApiCredentials w (o_userId order) s) as [[cr|e] s1];
    cbn in H2; subst s1.
  2:{ cbn. repeat (split; [done|]). exists i, order. rewrite ?Hc, ?Htruthy.
      done. }
  unfold remote. cbn.
  destruct (w_getOrder w (trace s) c) as [e|[clobOrder|]] eqn:Hget; cbn;
    do 3 (split; [done|]); exists i, order; rewrite ?Hc, ?Htruthy;
    do 4 (split; [done|]); (split; [|intros [=]]); try (intros [=]).
  split; [done|]. exists c, clobOrder. split; [done|].
  split; [|done]. unfold new_events. cbn. by rewrite drop_app_length.
Qed.

Lemma cancels_app t1 t2 : cancels (t1 ++ t2) = (cancels t1 ++ cancels t2)%list.
Proof.
  induction t1 as [|e t1 IH]; [done|].
  destruct e; cbn; by rewrite ?IH.
Qed.

Module AtomicProofs.
Import Routes AtomicFacts.

Lemma consistent_start : consistent (mkLocals false [] []).
Proof.
  split; [|done]. split; [done|]. intros H. by apply Exists_nil in H.
Qed.

Lemma consistent_accept acc i dbId c :
  consistent acc ->
  consistent (mkLocals (hasFailure acc) (submittedOrders acc ++ [c])
                (results acc ++ [mkOrderEntry i dbId (Some c) true None])).
Proof.
  intros (Hf & Hs & Hw). split; [|split]; cbn.
  - rewrite Hf, Exists_app. split; [tauto|]. intros [H|H]; [done|].
    apply Exists_cons in H as [H|H]; [done|]. by apply Exists_nil in H.
  - unfold accepted_ids in *. by rewrite omap_app, Hs.
  - apply Forall_app. split; [done|]. apply Forall_singleton. done.
Qed.

Lemma consistent_fail acc i msg :
  consistent acc ->
  consistent (mkLocals true (submittedOrders acc)
                (results acc ++ [mkOrderEntry i None None false msg])).
Proof.
  intros (Hf & Hs & Hw). split; [|split]; cbn.
  - split; [|done]. intros _. apply Exists_app. right. by apply Exists_cons_hd.
  - unfold accepted_ids in *. by rewrite omap_app, Hs, app_nil_r.
  - apply Forall_app. split; [done|]. apply Forall_singleton. done.
Qed.

(** One iteration of the REST loop keeps the bookkeeping consistent, adds
    one entry, and calls nothing but the submission. *)
Lemma iteration_consistent w userId i orderInput acc s :
  consistent acc ->
  let run := try_catch (submitOne w userId i orderInput acc)
                       (recordFailure i acc) s in
  exists acc' entry, fst run = Ok acc' /\ consistent acc' /\
    results acc' = (results acc ++ [entry])%list /\
    users (snd run) = users s /\
    cancels (trace (snd run)) = cancels (trace s).
Proof.
  intros Hacc. cbv zeta.
  unfold try_catch, submitOne, recordFailure, bind, remote,
    prisma.order_create, prisma.order_update, modify.
  cbn.
  destruct (w_postOrder w _ _ _ _) as [e|[r|]]; cbn;
    rewrite ?cancels_app, ?app_nil_r;
    [eexists _, _; split; [done|]; split; [by apply consistent_fail|done]| |
     eexists _, _; split; [done|]; split; [by apply consistent_fail|done]].
  destruct (OrderService.error_shaped r); cbn;
    rewrite ?cancels_app, ?app_nil_r;
    [eexists _, _; split; [done|]; split; [by apply consistent_fail|done]|].
  destruct (Js.or (Js.or (r_orderID r) (r_orderId r)) (r_id r)) as [c|]; cbn;
    rewrite ?cancels_app, ?app_nil_r;
    [|eexists _, _; split; [done|]; split; [by apply consistent_fail|done]].
  destruct (Js.nonempty c); cbn; rewrite ?cancels_app, ?app_nil_r;
    [eexists _, _; split; [done|]; split; [by apply consistent_accept|done]
    |eexists _, _; split; [done|]; split; [by apply consistent_fail|done]].
Qed.

Lemma processOrders_consistent w userId batch : forall i acc s,
  consistent acc ->
  let run := processOrders w userId batch i acc s in
  exists acc' new, fst run = Ok acc' /\ consistent acc' /\
    results acc' = (results acc ++ new)%list /\ length new = length batch /\
    users (snd run) = users s /\
    cancels (trace (snd run)) = cancels (trace s).
Proof.
  induction batch as [|orderInput rest IH]; intros i acc s Hacc.
  { cbn. exists acc, []. by rewrite app_nil_r. }
  cbv zeta. cbn [processOrders]. unfold bind.
  destruct (iteration_consistent w userId i orderInput acc s Hacc)
    as (acc1 & entry & Hok & Hc1 & Hres & Hu & Ht).
  destruct (try_catch _ _ s) as [r s1]. cbn in Hok, Hu, Ht. subst r.
  destruct (IH (S i) acc1 s1 Hc1) as (acc2 & new & H1 & H2 & H3 & H4 & H5 & H6).
  exists acc2, (entry :: new). rewrite H1, H3, Hres, H5, H6, Hu, Ht, <- app_assoc.
  cbn. rewrite H4. done.
Qed.

Lemma cancelSubmitted_trace w submitted : forall s,
  cancelSubmitted w submitted s
  = (Ok tt, mkState (users s) (orders s) (transactions s) (activityLog s)
              (marketNegRiskCache s) (trace s ++ (EvCancelOrder <$> submitted))
              (warnings s) (statusHistory s)).
Proof.
  induction submitted as [|c rest IH]; intros s; cbn.
  { rewrite app_nil_r. by destruct s. }
  unfold bind, remote. cbn. rewrite IH. cbn. by rewrite <- app_assoc.
Qed.

Lemma cancels_of_cancel_calls l : cancels (EvCancelOrder <$> l) = l.
Proof. induction l as [|c l IH]; cbn; by rewrite ?IH. Qed.

(** The answer, given consistent bookkeeping. *)
Lemma respond_spec w acc s :
  consistent acc ->
  exists response,
    fst (respond w acc s) = Ok response /\
    orderResults response = results acc /\
    (success response = false <->
     Exists failed (results acc) /\ Exists accepted (results acc)) /\
    http_status response = (if success response then 200 else 400)%Z /\
    users (snd (respond w acc s)) = users s /\
    cancels (trace (snd (respond w acc s)))
    = (cancels (trace s)
       ++ (if success response then [] else accepted_ids (results acc)))%list.
Proof.
  intros (Hf & Hs & Hw). unfold respond.
  assert (submittedOrders acc <> [] <-> Exists accepted (results acc)) as Hsub.
  { rewrite Hs. unfold accepted_ids. clear Hf Hs.
    induction Hw as [|x l Hx Hl IH]; cbn.
    - split; [done|]. intros H. by apply Exists_nil in H.
    - rewrite Exists_cons. unfold accepted at 1.
      destruct (e_clobOrderId x) as [c|] eqn:Hc.
      + split; [intros _|done]. left. by apply Hx.
      + rewrite IH. split; [tauto|]. intros [H|H]; [|done].
        apply Hx in H. done. }
  destruct (hasFailure acc) eqn:Hh; cbn [andb].
  2:{ cbn. eexists. split; [done|]. cbn. rewrite app_nil_r.
      repeat split; try done. intros [H _]. apply Hf in H. done. }
  destruct (bool_decide (submittedOrders acc = [])) eqn:Hb; cbn [negb].
  { apply bool_decide_eq_true in Hb.
    cbn. eexists. split; [done|]. cbn. rewrite app_nil_r.
    repeat split; try done. intros [_ H]. apply Hsub in H. done. }
  apply bool_decide_eq_false in Hb.
  unfold rollback, bind. rewrite cancelSubmitted_trace. cbn.
  eexists. split; [done|]. cbn.
  rewrite cancels_app, cancels_of_cancel_calls, Hs.
  repeat split; try done.
  - by apply Hf.
  - apply Hsub. done.
Qed.

(** [execute_atomic] either refuses the request with the state as it was,
    or runs the loop on the whole batch and answers. *)
Lemma execute_atomic_runs w req s :
  (exists e, execute_atomic w req s = (Throw e, s)) \/
  exists userId batch,
    req_orders req = Some batch /\ batch <> [] /\ (length batch <= 10)%nat /\
    validateOrders batch 0 s = (Ok tt, s) /\
    execute_atomic w req s
    = (acc <- processOrders w userId batch 0 (mkLocals false [] []) ;;
       respond w acc) s.
Proof.
  unfold execute_atomic.
  destruct (req_orders req) as [[|o1 batch]|] eqn:Hreq;
    [left; by eexists| |left; by eexists].
  destruct (10 <? _)%nat eqn:Hlen; [left; by eexists|].
  apply Nat.ltb_ge in Hlen.
  unfold bind.
  pose proof (BatchProofs.resolveUser_pure id w req s) as Hr.
  destruct (resolveUser w req s) as [[[[userId user]|]|e] s1];
    cbn in Hr; subst s1; [|left; by eexists|left; by eexists].
  destruct (negb _); [left; by eexists|].
  pose proof (BatchProofs.validateOrders_pure id (o1 :: batch) 0 s) as Hv.
  destruct (validateOrders (o1 :: batch) 0 s) as [[[]|e] s1] eqn:Hval;
    cbn in Hv; subst s1; [|left; by eexists].
  pose proof (getUserWallet_pure id userId s) as Hw.
  destruct (KeyService.getUserWallet userId s) as [[wallet|e] s1];
    cbn in Hw; subst s1; [|left; by eexists].
  pose proof (getApiCredentials_pure id w userId s) as Hc.
  destruct (KeyService.getApiCredentials w userId s) as [[credentials|e] s1];
    cbn in Hc; subst s1; [|left; by eexists].
  right. exists userId, (o1 :: batch).
  split; [done|]. split; [done|]. split; [exact Hlen|]. done.
Qed.

Lemma validateOrders_rejects batch s :
  Exists malformed batch ->
  forall i, exists e, validateOrders batch i s = (Throw e, s).
Proof.
  induction 1 as [order rest Hbad|order rest _ IH]; intros i; cbn [validateOrders].
  - destruct (negb (Js.truthy (in_tokenId order))) eqn:E1; [by eexists|].
    apply negb_false_iff in E1.
    destruct (in_price order) as [price|] eqn:Hp; [|by eexists].
    destruct (Qltb price (1 # 100) || Qltb (99 # 100) price) eqn:E2; [by eexists|].
    apply orb_false_iff in E2 as [E2 E2'].
    destruct (in_size order) as [size|] eqn:Hs; [|by eexists].
    destruct (Qleb size 0) eqn:E3; [by eexists|].
    destruct (in_side order) as [side|] eqn:Hside; [|by eexists].
    exfalso. destruct Hbad as [H|[H|[H|H]]].
    + congruence.
    + destruct (H price Hp) as [H'|H']; apply Qltb_true in H'; congruence.
    + specialize (H size Hs). apply Qleb_true in H. congruence.
    + congruence.
  - repeat match goal with
           | |- context [if ?b then _ else _] => destruct b; [by eexists|]
           end.
    apply IH.
Qed.

Lemma mcp_validateOrders_pure {X} (f : State -> X) w batch :
  forall i, preserves f (McpTools.validateOrders w batch i).
Proof.
  induction batch as [|o rest IH]; intros i; cbn [McpTools.validateOrders]; frame.
Qed.


Lemma getClobClient_pure {X} (f : State -> X) w userId :
  preserves f (WalletService.getClobClient w userId).
Proof.
  unfold WalletService.getClobClient, prisma.user_findUnique. frame.
Qed.

(** One iteration of the loop of the MCP tool. *)
Lemma mcp_iteration_consistent w userId i orderInput acc s :
  consistent acc ->
  let run :=
    try_catch
      (acc' <- McpTools.submitOne w userId i orderInput acc ;; ret (acc', false))
      (fun orderError => acc' <- recordFailure i acc orderError ;; ret (acc', true))
      s in
  exists acc' stop, fst run = Ok (acc', stop) /\ consistent acc' /\
    users (snd run) = users s /\
    cancels (trace (snd run)) = cancels (trace s).
Proof.
  intros Hacc. cbv zeta.
  unfold try_catch, McpTools.submitOne, recordFailure, bind, remote,
    prisma.order_create, prisma.order_update, modify.
  cbn.
  destruct (w_postOrder w _ _ _ _) as [e|[r|]]; cbn;
    rewrite ?cancels_app, ?app_nil_r;
    [eexists _, _; split; [done|]; split; [by apply consistent_fail|done]| |
     eexists _, _; split; [done|]; split; [by apply consistent_fail|done]].
  destruct (OrderService.error_shaped r); cbn;
    rewrite ?cancels_app, ?app_nil_r;
    [eexists _, _; split; [done|]; split; [by apply consistent_fail|done]|].
  destruct (Js.or (Js.or (r_orderID r) (r_orderId r)) (r_id r)) as [c|]; cbn;
    rewrite ?cancels_app, ?app_nil_r;
    [|eexists _, _; split; [done|]; split; [by apply consistent_fail|done]].
  destruct (Js.nonempty c); cbn; rewrite ?cancels_app, ?app_nil_r;
    [eexists _, _; split; [done|]; split; [by apply consistent_accept|done]
    |eexists _, _; split; [done|]; split; [by apply consistent_fail|done]].
Qed.

Lemma mcp_processOrders_consistent w userId batch : forall i acc s,
  consistent acc ->
  let run := McpTools.processOrders w userId batch i acc s in
  exists acc', fst run = Ok acc' /\ consistent acc' /\
    users (snd run) = users s /\
    cancels (trace (snd run)) = cancels (trace s).
Proof.
  induction batch as [|orderInput rest IH]; intros i acc s Hacc.
  { cbn. by exists acc. }
  cbv zeta. cbn [McpTools.processOrders]. unfold bind.
  destruct (mcp_iteration_consistent w userId i orderInput acc s Hacc)
    as (acc1 & stop & Hok & Hc1 & Hu & Ht).
  destruct (try_catch _ _ s) as [r s1]. cbn in Hok, Hu, Ht. subst r.
  destruct stop.
  - cbn. by exists acc1.
  - destruct (IH (S i) acc1 s1 Hc1) as (acc2 & H1 & H2 & H5 & H6).
    exists acc2. rewrite H1, H5, H6, Hu, Ht. done.
Qed.

Lemma execute_atomic_orders_runs w userId orders s :
  (exists e, McpTools.execute_atomic_orders w userId orders s = (Throw e, s)) \/
  exists batch,
    orders = Some batch /\ batch <> [] /\ (length batch <= 10)%nat /\
    McpTools.validateOrders w batch 0 s = (Ok tt, s) /\
    McpTools.execute_atomic_orders w userId orders s
    = (acc <- McpTools.processOrders w userId batch 0 (mkLocals false [] []) ;;
       respond w acc) s.
Proof.
  unfold McpTools.execute_atomic_orders.
  destruct orders as [[|o1 batch]|]; [left; by eexists| |left; by eexists].
  destruct (10 <? _)%nat eqn:Hlen; [left; by eexists|].
  apply Nat.ltb_ge in Hlen.
  unfold bind.
  pose proof (mcp_validateOrders_pure id w (o1 :: batch) 0 s) as Hv.
  destruct (McpTools.validateOrders w (o1 :: batch) 0 s) as [[[]|e] s1] eqn:Hval;
    cbn in Hv; subst s1; [|left; by eexists].
  pose proof (getClobClient_pure id w userId s) as Hc.
  destruct (WalletService.getClobClient w userId s) as [[credentials|e] s1];
    cbn in Hc; subst s1; [|left; by eexists].
  right. exists (o1 :: batch).
  split; [done|]. split; [done|]. split; [exact Hlen|]. done.
Qed.

(** The loop of the MCP tool: every entry but the last is an accepted one,
    and the loop goes through the whole batch unless the last entry is a
    failure. *)
Lemma mcp_processOrders_shape w userId batch : forall i acc s,
  let run := McpTools.processOrders w userId batch i acc s in
  exists acc' new, fst run = Ok acc' /\
    results acc' = (results acc ++ new)%list /\
    ((Forall accepted new /\ length new = length batch) \/
     (exists pre last, new = (pre ++ [last])%list /\ Forall accepted pre /\
        failed last /\ (length new <= length batch)%nat)).
Proof.
  induction batch as [|orderInput rest IH]; intros i acc s.
  { cbn. exists acc, []. rewrite app_nil_r. split; [done|]. split; [done|].
    left. done. }
  cbv zeta. cbn [McpTools.processOrders]. unfold bind.
  destruct (BatchProofs.mcp_iteration w userId i orderInput acc s)
    as (acc1 & stop & entry & Hok & _ & _ & Hres & Hs).
  destruct (try_catch _ _ s) as [r s1]. cbn in Hok. subst r.
  destruct stop.
  - cbn. exists acc1, [entry]. split; [done|]. split; [done|]. right.
    exists [], entry. cbn. repeat split; try done. lia.
  - destruct (IH (S i) acc1 s1) as (acc2 & new & H1 & H2 & H3).
    exists acc2, (entry :: new).
    split; [done|]. split; [by rewrite H2, Hres, <- app_assoc|].
    destruct H3 as [[Hall Hlen]|(pre & last & -> & Hpre & Hlast & Hlen)].
    + left. split; [by apply Forall_cons|cbn; lia].
    + right. exists (entry :: pre), last. split; [done|].
      split; [by apply Forall_cons|]. split; [done|]. cbn. cbn in Hlen. lia.
Qed.

End AtomicProofs.

(** X13.  The REST handler of the atomic batch refuses a request whose
    batch is missing, empty or longer than ten orders, or holds an order
    without token id, with a price missing or outside 0.01 to 0.99, with a
    size missing or not positive, or without side: it raises and leaves the
    state as it was, so no row is created and nothing is submitted, also
    for the well-formed orders that precede the bad one. *)
Theorem execute_atomic_rejects_malformed_batch w req s :
  (forall batch, Routes.req_orders req = Some batch ->
     batch = [] \/ (10 < length batch)%nat \/ Exists AtomicFacts.malformed batch) ->
  exists e, Routes.execute_atomic w req s = (Throw e, s).
Proof.
  intros Hbad.
  destruct (AtomicProofs.execute_atomic_runs w req s)
    as [H|(userId & batch & Hreq & Hne & Hlen & Hval & _)]; [exact H|].
  destruct (Hbad batch Hreq) as [H|[H|H]]; [done|lia|].
  destruct (AtomicProofs.validateOrders_rejects batch s H 0) as [e He].
  congruence.
Qed.

Lemma execute_atomic_rejects_oversized_batch :
  exists e,
    Routes.execute_atomic Scenario.book_accepting Cases.oversized_request
      (Scenario.db Scenario.ready_user [])
    = (Throw e, Scenario.db Scenario.ready_user []).
Proof.
  apply (execute_atomic_rejects_malformed_batch Scenario.book_accepting
           Cases.oversized_request (Scenario.db Scenario.ready_user [])).
  intros batch [= <-]. right. left. cbn. lia.
Defined.



(** X15.  Whenever the REST handler of the atomic batch answers, the loop
    has gone through the whole batch: the answer has one entry per order,
    one row was created per order and one submission made per order,
    whether or not an earlier order of the batch had failed. *)
Theorem execute_atomic_processes_whole_batch w req s response :
  fst (Routes.execute_atomic w req s) = Ok response ->
  let s' := snd (Routes.execute_atomic w req s) in
  exists batch,
    Routes.req_orders req = Some batch /\
    length (Routes.orderResults response) = length batch /\
    length (orders s') = (length (orders s) + length batch)%nat /\
    posts (trace s') = (posts (trace s) ++ replicate (length batch) false)%list.
Proof.
  cbv zeta.
  destruct (AtomicProofs.execute_atomic_runs w req s)
    as [[e ->]|(userId & batch & Hreq & _ & _ & _ & ->)]; [done|].
  unfold bind.
  destruct (AtomicProofs.processOrders_consistent w userId batch 0
              (Routes.mkLocals false [] []) s AtomicProofs.consistent_start)
    as (acc & new & Hok & Hcons & Hres & Hlen & _).
  destruct (BatchProofs.processOrders_reaches_all w userId batch 0
              (Routes.mkLocals false [] []) s) as [Hrows Hposts].
  cbv zeta in Hok, Hrows, Hposts.
  destruct (Routes.processOrders w userId batch 0 _ s) as [r s1].
  cbn in Hok, Hrows, Hposts. subst r.
  destruct (AtomicProofs.respond_spec w acc s1 Hcons)
    as (resp & Hresp & Hentries & _).
  rewrite Hresp. intros [= <-]. exists batch. split; [done|].
  rewrite Hentries, Hres. cbn. split; [done|].
  unfold Routes.respond.
  destruct (_ && _); cbn.
  - unfold Routes.rollback, bind. rewrite AtomicProofs.cancelSubmitted_trace.
    cbn. rewrite length_fmap, OrderProofs.posts_app, Hrows, Hposts.
    split; [done|].
    assert (forall l, posts (EvCancelOrder <$> l) = []) as ->.
    { induction l; cbn; done. }
    by rewrite app_nil_r.
  - done.
Qed.

Lemma execute_atomic_processes_whole_batch_of_three :
  let run := Routes.execute_atomic Scenario.book_refusing_second
               Scenario.batch_request (Scenario.db Scenario.ready_user []) in
  exists batch,
    Routes.req_orders Scenario.batch_request = Some batch /\
    length (Routes.orderResults
              (Routes.mkResponse 400 false
                 "Atomic batch failed - all orders cancelled"
                 [Routes.mkOrderEntry 0 (Some "order-0") (Some "0xC10B-0") true None;
                  Routes.mkOrderEntry 1 None None false
                    (Some "not enough balance / allowance");
                  Routes.mkOrderEntry 2 (Some "order-2") (Some "0xC10B-2") true None]))
    = length batch /\
    length (orders (snd run))
    = (length (orders (Scenario.db Scenario.ready_user [])) + length batch)%nat /\
    posts (trace (snd run))
    = (posts (trace (Scenario.db Scenario.ready_user []))
       ++ replicate (length batch) false)%list.
Proof.
  apply (execute_atomic_processes_whole_batch Scenario.book_refusing_second
           Scenario.batch_request (Scenario.db Scenario.ready_user [])).
  vm_compute. reflexivity.
Defined.

(** X16.  When the REST handler of the atomic batch answers, it answers
    failure (status 400, [success: false]) exactly when the batch is mixed:
    some order failed and some order was accepted.  A batch whose orders
    were all accepted is answered with success, and so is a batch whose
    orders all failed. *)
Theorem execute_atomic_answers_failure_iff_mixed w req s response :
  fst (Routes.execute_atomic w req s) = Ok response ->
  (Routes.success response = false <->
   Exists AtomicFacts.failed (Routes.orderResults response) /\
   Exists AtomicFacts.accepted (Routes.orderResults response)) /\
  Routes.http_status response = (if Routes.success response then 200 else 400)%Z.
Proof.
  destruct (AtomicProofs.execute_atomic_runs w req s)
    as [[e ->]|(userId & batch & Hreq & _ & _ & _ & ->)]; [done|].
  unfold bind.
  destruct (AtomicProofs.processOrders_consistent w userId batch 0
              (Routes.mkLocals false [] []) s AtomicProofs.consistent_start)
    as (acc & new & Hok & Hcons & _).
  cbv zeta in Hok.
  destruct (Routes.processOrders w userId batch 0 _ s) as [r s1].
  cbn in Hok. subst r.
  destruct (AtomicProofs.respond_spec w acc s1 Hcons)
    as (resp & Hresp & Hentries & Hans & Hstatus & _).
  rewrite Hresp. intros [= <-]. rewrite Hentries. done.
Qed.

(** A batch of three orders that the order book refuses one and all is
    answered with status 200 and [success: true]. *)
Lemma execute_atomic_answers_success_when_all_fail :
  let response :=
    Routes.mkResponse 200 true "Successfully executed 3 orders atomically"
      [Routes.mkOrderEntry 0 None None false (Some "not enough balance / allowance");
       Routes.mkOrderEntry 1 None None false (Some "not enough balance / allowance");
       Routes.mkOrderEntry 2 None None false (Some "not enough balance / allowance")] in
  (Routes.success response = false <->
   Exists AtomicFacts.failed (Routes.orderResults response) /\
   Exists AtomicFacts.accepted (Routes.orderResults response)) /\
  Routes.http_status response = (if Routes.success response then 200 else 400)%Z.
Proof.
  apply (execute_atomic_answers_failure_iff_mixed Cases.book_refusing
           Scenario.batch_request (Scenario.db Scenario.ready_user [])).
  vm_compute. reflexivity.
Defined.

(** X17.  The REST handler of the atomic batch never writes to a user, and
    the cancel calls it makes are these: none when it answers success; when
    it answers failure, one call per accepted order, in the order in which
    the orders were accepted, each made whatever the call before it
    answered. *)
Theorem execute_atomic_cancel_calls w req s response :
  fst (Routes.execute_atomic w req s) = Ok response ->
  let s' := snd (Routes.execute_atomic w req s) in
  users s' = users s /\
  cancels (trace s')
  = (cancels (trace s)
     ++ (if Routes.success response then []
         else AtomicFacts.accepted_ids (Routes.orderResults response)))%list.
Proof.
  cbv zeta.
  destruct (AtomicProofs.execute_atomic_runs w req s)
    as [[e ->]|(userId & batch & Hreq & _ & _ & _ & ->)]; [done|].
  unfold bind.
  destruct (AtomicProofs.processOrders_consistent w userId batch 0
              (Routes.mkLocals false [] []) s AtomicProofs.consistent_start)
    as (acc & new & Hok & Hcons & _ & _ & Hu & Ht).
  cbv zeta in Hok, Hu, Ht.
  destruct (Routes.processOrders w userId batch 0 _ s) as [r s1].
  cbn in Hok, Hu, Ht. subst r.
  destruct (AtomicProofs.respond_spec w acc s1 Hcons)
    as (resp & Hresp & Hentries & _ & _ & Hu' & Hc).
  rewrite Hresp. intros [= <-]. rewrite Hu', Hc, Hu, Ht, Hentries. done.
Qed.

Lemma execute_atomic_cancel_calls_of_three :
  let s := Scenario.db Scenario.ready_user [] in
  let s' := snd (Routes.execute_atomic Scenario.book_refusing_second
                   Scenario.batch_request s) in
  users s' = users s /\
  cancels (trace s') = (cancels (trace s) ++ ["0xC10B-0"; "0xC10B-2"])%list.
Proof.
  apply (execute_atomic_cancel_calls Scenario.book_refusing_second
           Scenario.batch_request (Scenario.db Scenario.ready_user [])
           (Routes.mkResponse 400 false
              "Atomic batch failed - all orders cancelled"
              [Routes.mkOrderEntry 0 (Some "order-0") (Some "0xC10B-0") true None;
               Routes.mkOrderEntry 1 None None false
                 (Some "not enough balance / allowance");
               Routes.mkOrderEntry 2 (Some "order-2") (Some "0xC10B-2") true None])).
  vm_compute. reflexivity.
Defined.

(** X18.  Whenever the MCP tool [execute_atomic_orders] answers, its loop
    has stopped at the first failure and not before: either every order of
    the batch has an entry and all were accepted, or the entries are
    accepted orders followed by one failed order, the last entry.  As many
    rows were created and as many orders submitted as there are entries. *)
Theorem execute_atomic_orders_stops_at_first_failure w userId orders0 s response :
  fst (McpTools.execute_atomic_orders w userId orders0 s) = Ok response ->
  let s' := snd (McpTools.execute_atomic_orders w userId orders0 s) in
  let entries := Routes.orderResults response in
  exists batch,
    orders0 = Some batch /\
    ((Forall AtomicFacts.accepted entries /\ length entries = length batch) \/
     (exists pre last, entries = (pre ++ [last])%list /\
        Forall AtomicFacts.accepted pre /\ AtomicFacts.failed last /\
        (length entries <= length batch)%nat)) /\
    length (orders s') = (length (orders s) + length entries)%nat /\
    posts (trace s') = (posts (trace s) ++ replicate (length entries) false)%list.
Proof.
  cbv zeta.
  destruct (AtomicProofs.execute_atomic_orders_runs w userId orders0 s)
    as [[e ->]|(batch & Hreq & _ & _ & _ & ->)]; [done|].
  unfold bind.
  destruct (AtomicProofs.mcp_processOrders_consistent w userId batch 0
              (Routes.mkLocals false [] []) s AtomicProofs.consistent_start)
    as (acc & Hok & Hcons & _).
  destruct (AtomicProofs.mcp_processOrders_shape w userId batch 0
              (Routes.mkLocals false [] []) s)
    as (acc' & new & Hok' & Hres & Hshape).
  destruct (BatchProofs.mcp_processOrders_halts w userId batch 0
              (Routes.mkLocals false [] []) s)
    as (acc'' & new' & Hok'' & Hres' & _ & Hrows & Hposts & _).
  cbv zeta in Hok, Hok', Hok'', Hrows, Hposts.
  destruct (McpTools.processOrders w userId batch 0 _ s) as [r s1].
  cbn in Hok, Hok', Hok'', Hrows, Hposts. subst r.
  injection Hok' as <-. injection Hok'' as <-.
  cbn in Hres, Hres'. rewrite Hres in Hres'. subst new'.
  destruct (AtomicProofs.respond_spec w acc s1 Hcons)
    as (resp & Hresp & Hentries & _).
  rewrite Hresp. intros [= <-]. exists batch. split; [done|].
  rewrite Hentries, Hres. split; [exact Hshape|].
  unfold Routes.respond.
  destruct (_ && _); cbn.
  - unfold Routes.rollback, bind. rewrite AtomicProofs.cancelSubmitted_trace.
    cbn. rewrite length_fmap, OrderProofs.posts_app, Hrows, Hposts.
    split; [done|].
    assert (forall l, posts (EvCancelOrder <$> l) = []) as ->.
    { induction l; cbn; done. }
    by rewrite app_nil_r.
  - done.
Qed.

Lemma execute_atomic_orders_stops_at_second_of_three :
  let s := Scenario.db Scenario.ready_user [] in
  let s' := snd (McpTools.execute_atomic_orders Scenario.book_refusing_second
                   "user-1" (Some Scenario.batch) s) in
  let entries :=
    [Routes.mkOrderEntry 0 (Some "order-0") (Some "0xC10B-0") true None;
     Routes.mkOrderEntry 1 None None false (Some "not enough balance / allowance")] in
  exists batch,
    Some Scenario.batch = Some batch /\
    ((Forall AtomicFacts.accepted entries /\ length entries = length batch) \/
     (exists pre last, entries = (pre ++ [last])%list /\
        Forall AtomicFacts.accepted pre /\ AtomicFacts.failed last /\
        (length entries <= length batch)%nat)) /\
    length (orders s') = (length (orders s) + length entries)%nat /\
    posts (trace s') = (posts (trace s) ++ replicate (length entries) false)%list.
Proof.
  apply (execute_atomic_orders_stops_at_first_failure Scenario.book_refusing_second
           "user-1" (Some Scenario.batch) (Scenario.db Scenario.ready_user [])
           (Routes.mkResponse 400 false
              "Atomic batch failed - all orders cancelled"
              [Routes.mkOrderEntry 0 (Some "order-0") (Some "0xC10B-0") true None;
               Routes.mkOrderEntry 1 None None false
                 (Some "not enough balance / allowance")])).
  vm_compute. reflexivity.
Defined.

(** X19.  The MCP tool answers and rolls back like the REST handler: it
    answers failure exactly when an accepted order is followed by the failed
    one, and then makes one cancel call per accepted order, in order; it
    makes no cancel call otherwise.  A batch whose first order fails is
    answered with success. *)
Theorem execute_atomic_orders_answer w userId orders0 s response :
  fst (McpTools.execute_atomic_orders w userId orders0 s) = Ok response ->
  let s' := snd (McpTools.execute_atomic_orders w userId orders0 s) in
  (Routes.success response = false <->
   Exists AtomicFacts.failed (Routes.orderResults response) /\
   Exists AtomicFacts.accepted (Routes.orderResults response)) /\
  users s' = users s /\
  cancels (trace s')
  = (cancels (trace s)
     ++ (if Routes.success response then []
         else AtomicFacts.accepted_ids (Routes.orderResults response)))%list.
Proof.
  cbv zeta.
  destruct (AtomicProofs.execute_atomic_orders_runs w userId orders0 s)
    as [[e ->]|(batch & Hreq & _ & _ & _ & ->)]; [done|].
  unfold bind.
  destruct (AtomicProofs.mcp_processOrders_consistent w userId batch 0
              (Routes.mkLocals false [] []) s AtomicProofs.consistent_start)
    as (acc & Hok & Hcons & Hu & Ht).
  cbv zeta in Hok, Hu, Ht.
  destruct (McpTools.processOrders w userId batch 0 _ s) as [r s1].
  cbn in Hok, Hu, Ht. subst r.
  destruct (AtomicProofs.respond_spec w acc s1 Hcons)
    as (resp & Hresp & Hentries & Hans & _ & Hu' & Hc).
  rewrite Hresp. intros [= <-]. rewrite Hu', Hc, Hu, Ht, Hentries. done.
Qed.

Lemma execute_atomic_orders_answers_success_when_first_fails :
  let s := Scenario.db Scenario.ready_user [] in
  let s' := snd (McpTools.execute_atomic_orders Cases.book_refusing
                   "user-1" (Some Scenario.batch) s) in
  let response :=
    Routes.mkResponse 200 true "Successfully executed 1 orders atomically"
      [Routes.mkOrderEntry 0 None None false
         (Some "not enough balance / allowance")] in
  (Routes.success response = false <->
   Exists AtomicFacts.failed (Routes.orderResults response) /\
   Exists AtomicFacts.accepted (Routes.orderResults response)) /\
  users s' = users s /\
  cancels (trace s')
  = (cancels (trace s)
     ++ (if Routes.success response then []
         else AtomicFacts.accepted_ids (Routes.orderResults response)))%list.
Proof.
  apply (execute_atomic_orders_answer Cases.book_refusing "user-1"
           (Some Scenario.batch) (Scenario.db Scenario.ready_user [])).
  vm_compute. reflexivity.
Defined.

Module BatchRouteProofs.
Import OrderService BatchRoute.

Lemma isNegRiskMarket_cancels w c t : preserves cancel_calls (isNegRiskMarket w c t).
Proof.
  unfold isNegRiskMarket. frame; intros s0; unfold cancel_calls; cbn;
    by rewrite cancels_app, app_nil_r.
Qed.

Lemma attemptOrder_cancels w oo ty f : preserves cancel_calls (attemptOrder w oo ty f).
Proof.
  unfold attemptOrder. frame; intros s0; unfold cancel_calls; cbn;
    by rewrite cancels_app, app_nil_r.
Qed.

#[local] Hint Resolve isNegRiskMarket_cancels attemptOrder_cancels
  OrderProofs.validate_pure : frame.




End BatchRouteProofs.


(** Three orders of which the order book refuses the second: the first
    and the third stay LIVE, and nothing is cancelled. *)
Lemma batch_keeps_accepted_orders :
  let run := BatchRoute.batch Cases.book_closed_for_token_1
               Cases.independent_request (Scenario.db Scenario.ready_user []) in
  (BatchRoute.be_success <$>
     match fst run with
     | Ok response => BatchRoute.b_results response
     | Throw _ => []
     end) = [true; false; true] /\
  o_status <$> orders (snd run) = [LIVE; FAILED; LIVE] /\
  cancel_calls (snd run) = [].
Proof. vm_compute. done. Qed.

Module CredentialProofs.
Import WalletService KeyService CredentialFacts.

Lemma credentials_of_complete r c : credentials_of r = Some c -> complete c.
Proof.
  unfold credentials_of. destruct r as [response|]; [|done].
  cbv zeta.
  destruct (Js.nonempty _) eqn:E1; [|done].
  destruct (Js.nonempty (Js.or_default (Js.or (k_apiSecret response) _) _)) eqn:E2;
    [|done].
  destruct (Js.nonempty (Js.or_default (Js.or (k_apiPassphrase response) _) _))
    eqn:E3; [|done].
  cbn. intros [= <-]. done.
Qed.




Lemma obtainCredentials_complete w wallet s c :
  fst (obtainCredentials w wallet s) = Ok (Some c) -> complete c.
Proof.
  unfold obtainCredentials, bind, remote. cbn.
  destruct (match w_deriveApiKey w (trace s) wallet with
            | KeyReturns r => credentials_of r
            | KeyThrows _ => None
            end) as [c'|] eqn:Hd.
  - cbn. intros [= <-]. destruct (w_deriveApiKey w (trace s) wallet) as [e|r];
      [done|]. by apply (credentials_of_complete r).
  - cbn. destruct (w_createApiKey w _ wallet) as [e|r]; [done|].
    intros [= H]. by apply (credentials_of_complete r).
Qed.

End CredentialProofs.

Module ProvisioningProofs.
Import WalletService WalletFacts.

Lemma alter_as_insert (f : User -> User) (userId : string) (m : gmap string User) u :
  m !! userId = Some u -> alter f userId m = <[userId := f u]> m.
Proof.
  intros Hu. apply map_eq. intros j. destruct (decide (j = userId)) as [->|Hne].
  - by rewrite lookup_alter_eq, lookup_insert_eq, Hu.
  - by rewrite lookup_alter_ne, lookup_insert_ne.
Qed.

Lemma users_update_user userId f s u :
  users s !! userId = Some u ->
  users (update_user userId f s) = <[userId := f u]> (users s).
Proof. intros Hu. cbn. by apply alter_as_insert. Qed.

Lemma users_of_db_view s s' : db_view s' = db_view s -> users s' = users s.
Proof. intros H. exact (f_equal fst H). Qed.

(** The users after a first write of the status and the write of a saved
    deployment. *)
Lemma users_saved userId s u st s2 a :
  users s !! userId = Some u ->
  saved userId (update_user userId (user_set_status st) s) s2 a ->
  users s2 = <[userId := user_set_safe a u]> (users s).
Proof.
  intros Hu Hs. apply users_of_db_view in Hs. rewrite Hs.
  rewrite (users_update_user userId _ _ (user_set_status st u)).
  - rewrite (users_update_user userId _ s u Hu). by rewrite insert_insert_eq.
  - rewrite (users_update_user userId _ s u Hu). by rewrite lookup_insert_eq.
Qed.

(** The users after a first write of the status and a second one. *)
Lemma users_reverted userId s u st s2 st' :
  users s !! userId = Some u ->
  untouched (update_user userId (user_set_status st) s) s2 ->
  users (update_user userId (user_set_status st') s2)
  = <[userId := user_set_status st' u]> (users s).
Proof.
  intros Hu Hs. apply users_of_db_view in Hs.
  rewrite (users_update_user userId _ s2 (user_set_status st u)).
  - rewrite Hs, (users_update_user userId _ s u Hu). by rewrite insert_insert_eq.
  - rewrite Hs, (users_update_user userId _ s u Hu). by rewrite lookup_insert_eq.
Qed.

Lemma deploySafeWallet_users w userId s user :
  users s !! userId = Some user ->
  let run := deploySafeWallet w userId s in
  match fst run with
  | Ok a =>
      (snd run = s /\ u_safeDeployed user = true /\ u_safeAddress user = Some a) \/
      users (snd run) = <[userId := user_set_safe a user]> (users s)
  | Throw e => users (snd run) = <[userId := user_set_status CREATED user]> (users s)
  end.
Proof.
  intros Hu. cbv zeta.
  unfold deploySafeWallet, bind, prisma.user_findUnique. rewrite Hu.
  destruct (u_safeDeployed user && Js.truthy (u_safeAddress user)) eqn:Hg.
  { apply andb_true_iff in Hg as [Hd Ht]. cbn. left.
    destruct (u_safeAddress user) as [a|]; done. }
  unfold prisma.user_update, modify. cbn [fst snd].
  set (s1 := update_user userId (user_set_status SAFE_DEPLOYING) s).
  unfold try_catch.
  pose proof (WalletProofs.deploySafeWallet_try_saves w userId s1) as Ht.
  destruct (deploySafeWallet_try w userId s1) as [[a|e] s2]; cbn in Ht.
  { right. cbn [snd]. by apply (users_saved userId s user SAFE_DEPLOYING s2 a). }
  unfold deploySafeWallet_catch, bind.
  destruct (already_deployed (Js.message e)).
  - pose proof (WalletProofs.recoverDeployed_saves w userId (Js.message e) s2) as Hr.
    destruct (WalletProofs.recoverDeployed_returns w userId (Js.message e) s2)
      as [r Hok].
    destruct (recoverDeployed w userId (Js.message e) s2) as [r' s3].
    cbn in Hok. subst r'. cbn in Hr.
    destruct r as [a|]; cbn in Hr.
    + right. cbn [fst snd].
      apply (users_saved userId s user SAFE_DEPLOYING s3 a Hu).
      by apply (WalletProofs.saved_after_untouched userId s1 s2 s3 a).
    + cbn.
      apply (users_reverted userId s user SAFE_DEPLOYING s3 CREATED Hu).
      by apply (WalletProofs.untouched_trans s1 s2 s3).
  - cbn.
    by apply (users_reverted userId s user SAFE_DEPLOYING s2 CREATED Hu).
Qed.

Lemma users_stored userId s u st c s1 s2 :
  users s !! userId = Some u ->
  untouched (update_user userId (user_set_status st) s) s1 ->
  db_view s2 = db_view (stored userId c s1) ->
  users s2
  = <[userId := user_set_status READY (user_set_credentials (Some c) u)]> (users s).
Proof.
  intros Hu H1 H2. apply users_of_db_view in H1. apply users_of_db_view in H2.
  rewrite H2. unfold stored.
  assert (users s1 = <[userId := user_set_status st u]> (users s)) as Hs1.
  { rewrite H1. by apply users_update_user. }
  rewrite (users_update_user userId _ _
             (user_set_credentials (Some c) (user_set_status st u))).
  - rewrite (users_update_user userId _ s1 (user_set_status st u)).
    + rewrite Hs1, !insert_insert_eq. done.
    + by rewrite Hs1, lookup_insert_eq.
  - rewrite (users_update_user userId _ s1 (user_set_status st u)).
    + by rewrite lookup_insert_eq.
    + by rewrite Hs1, lookup_insert_eq.
Qed.

Lemma createApiCredentials_try_stores w userId s :
  let run := createApiCredentials_try w userId s in
  match fst run with
  | Ok _ => exists c s1, CredentialFacts.complete c /\ untouched s s1 /\
              db_view (snd run) = db_view (stored userId c s1)
  | Throw _ => untouched s (snd run)
  end.
Proof.
  cbv zeta. unfold createApiCredentials_try, bind.
  pose proof (getUserWallet_pure db_view userId s) as Hw.
  destruct (KeyService.getUserWallet userId s) as [[wallet|e] s1];
    cbn in Hw; [|done].
  pose proof (WalletProofs.obtainCredentials_untouched w wallet s1) as Ho.
  pose proof (CredentialProofs.obtainCredentials_complete w wallet s1) as Hc.
  destruct (obtainCredentials w wallet s1) as [[[c|]|e] s2]; cbn in Ho, Hc;
    cbn [fst snd]; [|unfold untouched; cbn; congruence..].
  pose proof (WalletProofs.validateAndStore_writes w userId c s2) as Hv.
  cbv zeta in Hv.
  destruct (validateAndStore w userId c s2) as [[[]|e] s3]; cbn in Hv; cbn.
  - exists c, s2. split; [by apply Hc|]. split; [unfold untouched; congruence|done].
  - unfold untouched in *. congruence.
Qed.

Lemma createApiCredentials_users w userId s user :
  users s !! userId = Some user ->
  let run := createApiCredentials w userId s in
  match fst run with
  | Ok _ =>
      exists c,
        CredentialFacts.complete c /\
        users (snd run)
        = <[userId := user_set_status READY (user_set_credentials (Some c) user)]>
            (users s)
  | Throw e =>
      (snd run = s /\ Js.truthy (u_safeAddress user) = false) \/
      users (snd run) = <[userId := user_set_status SAFE_DEPLOYED user]> (users s)
  end.
Proof.
  intros Hu. cbv zeta.
  unfold createApiCredentials, bind, prisma.user_findUnique. rewrite Hu.
  destruct (Js.truthy (u_safeAddress user)) eqn:Hsafe; cbn [negb].
  2:{ cbn. by left. }
  unfold prisma.user_update, modify. cbn [fst snd].
  set (s1 := update_user userId (user_set_status SETTING_UP) s).
  unfold try_catch.
  pose proof (createApiCredentials_try_stores w userId s1) as Ht.
  cbv zeta in Ht.
  destruct (createApiCredentials_try w userId s1) as [[[]|e] s2]; cbn in Ht.
  - destruct Ht as (c & s1' & Hc & H1 & H2). cbn [fst snd]. exists c.
    split; [done|].
    by apply (users_stored userId s user SETTING_UP c s1' s2).
  - right. cbn.
    by apply (users_reverted userId s user SETTING_UP s2 SAFE_DEPLOYED Hu).
Qed.

End ProvisioningProofs.

(** X21.  What [deploySafeWallet] leaves in the users.  When it returns an
    address, the row of the user holds that address and the deployment
    flag, with the owner address and the credentials it had.  When it
    raises, the row is as it was but for the status, which is CREATED: no
    address is left behind by a failed deployment.  No other user's row
    changes either way. *)
Theorem deploySafeWallet_outcome w userId s user :
  users s !! userId = Some user ->
  let run := WalletService.deploySafeWallet w userId s in
  match fst run with
  | Ok safeAddress =>
      exists user',
        users (snd run) = <[userId := user']> (users s) /\
        u_safeAddress user' = Some safeAddress /\ u_safeDeployed user' = true /\
        u_eoaAddress user' = u_eoaAddress user /\
        u_credentials user' = u_credentials user
  | Throw _ =>
      users (snd run) = <[userId := user_set_status CREATED user]> (users s)
  end.
Proof.
  intros Hu. pose proof (ProvisioningProofs.deploySafeWallet_users w userId s user Hu)
    as H.
  cbv zeta in *. destruct (fst _) as [a|e]; [|exact H].
  destruct H as [(-> & Hd & Ha)|H].
  - exists user. by rewrite insert_id.
  - exists (user_set_safe a user). done.
Qed.

Lemma deploySafeWallet_outcome_new_safe :
  let s := Scenario.db Scenario.fresh_user [] in
  let run := WalletService.deploySafeWallet Cases.relayer_deploying "user-1" s in
  match fst run with
  | Ok safeAddress =>
      exists user',
        users (snd run) = <["user-1" := user']> (users s) /\
        u_safeAddress user' = Some safeAddress /\ u_safeDeployed user' = true /\
        u_eoaAddress user' = u_eoaAddress Scenario.fresh_user /\
        u_credentials user' = u_credentials Scenario.fresh_user
  | Throw _ =>
      users (snd run)
      = <["user-1" := user_set_status CREATED Scenario.fresh_user]> (users s)
  end.
Proof.
  apply (deploySafeWallet_outcome Cases.relayer_deploying "user-1"
           (Scenario.db Scenario.fresh_user []) Scenario.fresh_user).
  reflexivity.
Defined.

(** The deployment of the scenario succeeds. *)
Lemma deploySafeWallet_new_safe_returns :
  fst (WalletService.deploySafeWallet Cases.relayer_deploying "user-1"
         (Scenario.db Scenario.fresh_user [])) = Ok "0x5AFE".
Proof. vm_compute. done. Qed.

(** X22.  What [createApiCredentials] leaves in the users.  When it
    returns, the row of the user holds a complete credential set (key,
    secret and passphrase all non-empty) and the status READY.  When it raises, either the account has no Safe address and
    nothing was touched, or the row is as it was but for the status, which
    is SAFE_DEPLOYED: the credentials that the account had are kept.  No
    other user's row changes. *)
Theorem createApiCredentials_outcome w userId s user :
  users s !! userId = Some user ->
  let run := WalletService.createApiCredentials w userId s in
  match fst run with
  | Ok _ =>
      exists c,
        CredentialFacts.complete c /\
        users (snd run)
        = <[userId := user_set_status READY (user_set_credentials (Some c) user)]>
            (users s)
  | Throw _ =>
      (snd run = s /\ Js.truthy (u_safeAddress user) = false) \/
      users (snd run) = <[userId := user_set_status SAFE_DEPLOYED user]> (users s)
  end.
Proof. exact (ProvisioningProofs.createApiCredentials_users w userId s user). Qed.

Lemma createApiCredentials_outcome_keys_unavailable :
  let s := Scenario.db Scenario.ready_user [] in
  let run := WalletService.createApiCredentials Scenario.relay_down "user-1" s in
  match fst run with
  | Ok _ =>
      exists c,
        CredentialFacts.complete c /\
        users (snd run)
        = <["user-1" := user_set_status READY
                          (user_set_credentials (Some c) Scenario.ready_user)]>
            (users s)
  | Throw _ =>
      (snd run = s /\ Js.truthy (u_safeAddress Scenario.ready_user) = false) \/
      users (snd run)
      = <["user-1" := user_set_status SAFE_DEPLOYED Scenario.ready_user]> (users s)
  end.
Proof.
  apply (createApiCredentials_outcome Scenario.relay_down "user-1"
           (Scenario.db Scenario.ready_user []) Scenario.ready_user).
  reflexivity.
Defined.

(** X23.  What [resetApiCredentials] leaves in the users of an account
    with a Safe address.  When it returns, the row holds a complete
    credential set and the status READY.  When it raises, the row holds no credentials
    and the status SAFE_DEPLOYED: a reset that fails has already discarded
    the credentials that the account had. *)
Theorem resetApiCredentials_outcome w userId s user :
  users s !! userId = Some user ->
  Js.truthy (u_safeAddress user) = true ->
  let run := WalletService.resetApiCredentials w userId s in
  match fst run with
  | Ok _ =>
      exists c,
        CredentialFacts.complete c /\
        users (snd run)
        = <[userId := user_set_status READY (user_set_credentials (Some c) user)]>
            (users s)
  | Throw _ =>
      users (snd run)
      = <[userId := user_set_status SAFE_DEPLOYED (user_set_credentials None user)]>
          (users s)
  end.
Proof.
  intros Hu Hsafe. cbv zeta.
  unfold WalletService.resetApiCredentials, bind, prisma.user_findUnique.
  rewrite Hu, Hsafe. cbn [negb fst snd].
  unfold prisma.user_update, modify.
  set (f := fun u => user_set_status SAFE_DEPLOYED (user_set_credentials None u)).
  set (s1 := update_user userId f s).
  assert (f user
          = user_set_status SAFE_DEPLOYED (user_set_credentials None user))
    as Hf by done.
  assert (users s1 = <[userId := f user]> (users s)) as Hs1.
  { by apply ProvisioningProofs.users_update_user. }
  assert (users s1 !! userId = Some (f user)) as Hu1.
  { by rewrite Hs1, lookup_insert_eq. }
  assert (Js.truthy (u_safeAddress (f user)) = true) as Hsafe1 by exact Hsafe.
  clearbody s1 f.
  pose proof (ProvisioningProofs.createApiCredentials_users w userId s1 (f user) Hu1)
    as H. cbv zeta in H.
  destruct (WalletService.createApiCredentials w userId s1) as [[[]|e] s2];
    cbn in H; cbn.
  - destruct H as (c & Hc & H). exists c. split; [done|].
    rewrite H, Hs1, insert_insert_eq. rewrite Hf. by destruct user.
  - destruct H as [[_ H]|H].
    + congruence.
    + rewrite H, Hs1, insert_insert_eq. rewrite Hf. by destruct user.
Qed.

Lemma resetApiCredentials_outcome_keys_unavailable :
  let s := Scenario.db Scenario.ready_user [] in
  let run := WalletService.resetApiCredentials Scenario.relay_down "user-1" s in
  match fst run with
  | Ok _ =>
      exists c,
        CredentialFacts.complete c /\
        users (snd run)
        = <["user-1" := user_set_status READY
                          (user_set_credentials (Some c) Scenario.ready_user)]>
            (users s)
  | Throw _ =>
      users (snd run)
      = <["user-1" := user_set_status SAFE_DEPLOYED
                        (user_set_credentials None Scenario.ready_user)]>
          (users s)
  end.
Proof.
  apply (resetApiCredentials_outcome Scenario.relay_down "user-1"
           (Scenario.db Scenario.ready_user []) Scenario.ready_user);
    reflexivity.
Defined.

(** The reset of the scenario fails. *)
Lemma resetApiCredentials_keys_unavailable_raises :
  exists e,
    fst (WalletService.resetApiCredentials Scenario.relay_down "user-1"
           (Scenario.db Scenario.ready_user [])) = Throw e.
Proof. vm_compute. by eexists. Qed.

(** X24.  [obtainCredentials] never raises and never writes to the
    database; it asks the CLOB to derive the key first and to create one
    only when the derivation threw or gave an incomplete set; and what it
    returns, if anything, is a complete set: key, secret and passphrase are
    all non-empty. *)
Theorem obtainCredentials_derives_first w wallet s :
  let run := WalletService.obtainCredentials w wallet s in
  let derived :=
    match w_deriveApiKey w (trace s) wallet with
    | KeyReturns r => WalletService.credentials_of r
    | KeyThrows _ => None
    end in
  db_view (snd run) = db_view s /\
  exists found,
    fst run = Ok found /\
    (forall c, found = Some c -> CredentialFacts.complete c) /\
    match derived with
    | Some c =>
        found = Some c /\ new_events s (snd run) = [EvDeriveApiKey wallet]
    | None =>
        new_events s (snd run) = [EvDeriveApiKey wallet; EvCreateApiKey wallet]
    end.
Proof.
  cbv zeta. split; [apply WalletProofs.obtainCredentials_untouched|].
  unfold WalletService.obtainCredentials, bind, remote. cbn.
  assert (forall o, (match o with
                     | KeyReturns r => WalletService.credentials_of r
                     | KeyThrows _ => None
                     end) = None \/
                    exists c, (match o with
                     | KeyReturns r => WalletService.credentials_of r
                     | KeyThrows _ => None
                     end) = Some c /\ CredentialFacts.complete c) as Hcases.
  { intros [e|r]; [by left|].
    destruct (WalletService.credentials_of r) as [c|] eqn:E; [|by left].
    right. exists c. split; [done|].
    by apply (CredentialProofs.credentials_of_complete r). }
  destruct (Hcases (w_deriveApiKey w (trace s) wallet)) as [->|(c & -> & Hc)].
  - cbn. eexists. split; [done|]. split.
    + intros c Hc.
      destruct (Hcases (w_createApiKey w (trace s ++ [EvDeriveApiKey wallet]) wallet))
        as [H|(c' & H & Hc')]; rewrite H in Hc; [done|]. by injection Hc as <-.
    + unfold new_events. cbn. by rewrite <- app_assoc, drop_app_length.
  - cbn. eexists. split; [done|]. split; [by intros ? [= <-]|].
    split; [done|]. unfold new_events. cbn. by rewrite drop_app_length.
Qed.



Module RecoveryProofs.
Import WalletService WalletFacts WalletRecovery ProvenanceFacts.

Lemma verifyOnChain_spec w a s :
  match verifyOnChain w a s with
  | (Ok (Some a'), s1) =>
      a' = a /\ s1 = add_event (EvGetCode a) s /\
      exists code, w_getCode w (trace s) a = CodeReturns code /\ has_code code = true
  | (Ok None, s1) => s1 = add_event (EvGetCode a) s
  | (Throw _, s1) => s1 = add_event (EvGetCode a) s
  end.
Proof.
  unfold verifyOnChain, getCode, bind, remote. cbn.
  destruct (w_getCode w (trace s) a) as [e|code] eqn:Hc; cbn; [done|].
  destruct (has_code code) eqn:Hh; [|done]. eauto.
Qed.

Lemma during_here ev s s' e after :
  trace s' = (trace s ++ e :: after)%list -> ev (trace s) e -> during ev s s'.
Proof.
  intros Ht He. exists [], e, after. cbn. by rewrite app_nil_r.
Qed.

Lemma during_later ev s s1 s' tail :
  trace s1 = (trace s ++ tail)%list -> during ev s1 s' -> during ev s s'.
Proof.
  intros Ht (before & e & after & Ht' & He).
  exists (tail ++ before)%list, e, after.
  rewrite Ht', Ht, <- !app_assoc. split; [done|].
  by rewrite Ht, <- app_assoc in He.
Qed.

Lemma during_earlier ev s s1 s' tail :
  during ev s s1 -> trace s' = (trace s1 ++ tail)%list -> during ev s s'.
Proof.
  intros (before & e & after & Ht & He) Ht'.
  exists before, e, (after ++ tail)%list.
  rewrite Ht', Ht, <- !app_assoc. done.
Qed.

(** What [askRelayer] returns is an address that the relayer named or
    that the chain holds. *)
Lemma askRelayer_spec w wallet s :
  let run := askRelayer w wallet s in
  db_view (snd run) = db_view s /\
  (exists tail, trace (snd run) = (trace s ++ tail)%list) /\
  forall a, fst run = Ok (Some a) -> during (recovered_at w a) s (snd run).
Proof.
  cbv zeta. unfold askRelayer.
  destruct (w_builderConfigured w).
  2:{ cbn. split; [done|]. split; [exists []; by rewrite app_nil_r|done]. }
  unfold bind, remote. cbn.
  destruct (w_relayDeploy w (trace s) wallet) as [e|[response|]] eqn:Hd; cbn.
  - destruct (Js.match_address (Js.message e)) as [a|]; cbn.
    2:{ split; [done|]. split; [by eexists|done]. }
    pose proof (verifyOnChain_spec w a (add_event (EvRelayDeploy wallet) s)) as Hv.
    destruct (verifyOnChain w a _) as [[[a'|]|e'] s1]; cbn.
    + destruct Hv as (-> & -> & code & Hc & Hh). split; [done|].
      split; [cbn; rewrite <- app_assoc; by eexists|].
      intros ? [= <-]. exists [EvRelayDeploy wallet], (EvGetCode a), [].
      split; [cbn; by rewrite <- app_assoc|]. left. split; [done|]. eauto.
    + subst s1. split; [done|]. split; [|done].
      cbn. rewrite <- app_assoc. by eexists.
    + subst s1. split; [done|]. split; [|done].
      cbn. rewrite <- app_assoc. by eexists.
  - split; [done|]. split; [by eexists|].
    destruct (Js.truthy (d_proxyAddress response)) eqn:Ht; [|done].
    destruct (d_proxyAddress response) as [a|] eqn:Ha; [|done].
    intros ? [= <-]. apply (during_here _ s _ (EvRelayDeploy wallet) []); [done|].
    right. exists wallet, response. done.
  - split; [done|]. split; [by eexists|done].
Qed.

Lemma finds_ret_none w : finds w (ret None).
Proof.
  intros s. cbn. split; [done|]. split; [exists []; by rewrite app_nil_r|done].
Qed.

Lemma finds_verifyOnChain w a : finds w (verifyOnChain w a).
Proof.
  intros s. pose proof (verifyOnChain_spec w a s) as H.
  destruct (verifyOnChain w a s) as [[[a'|]|e] s1]; cbn.
  - destruct H as (-> & -> & code & Hc & Hh). split; [done|].
    split; [by eexists|]. intros ? [= <-].
    apply (during_here _ s _ (EvGetCode a) []); [done|]. left. split; [done|]. eauto.
  - subst s1. split; [done|]. split; [by eexists|done].
  - subst s1. split; [done|]. split; [by eexists|done].
Qed.

Lemma finds_askRelayer w wallet : finds w (askRelayer w wallet).
Proof. intros s. apply askRelayer_spec. Qed.

Lemma finds_candidate w (candidate : option string) :
  finds w match candidate with
          | Some a => if Js.nonempty a then verifyOnChain w a else ret None
          | None => ret None
          end.
Proof.
  destruct candidate as [a|]; [|apply finds_ret_none].
  destruct (Js.nonempty a); [apply finds_verifyOnChain|apply finds_ret_none].
Qed.

(** The steps in a row: the first address found is the one kept. *)
Lemma finds_or_else w (m1 m2 : M (option string)) :
  finds w m1 -> finds w m2 ->
  finds w (found <- m1 ;;
           match found with
           | Some a => ret (Some a)
           | None => m2
           end).
Proof.
  intros H1 H2 s. unfold bind. specialize (H1 s).
  destruct (m1 s) as [[[a|]|e] s1]; cbn in H1; cbn; [done| |done].
  destruct H1 as (Hd1 & [t1 Ht1] & _). specialize (H2 s1).
  destruct H2 as (Hd2 & [t2 Ht2] & Hf2).
  split; [congruence|]. split.
  - exists (t1 ++ t2)%list. by rewrite Ht2, Ht1, <- app_assoc.
  - intros a Ha. by apply (during_later _ s s1 _ t1 Ht1), Hf2.
Qed.

Lemma finds_search w wallet known : finds w (search w wallet known).
Proof.
  unfold search. apply finds_or_else; [|apply finds_askRelayer].
  apply finds_or_else; apply finds_candidate.
Qed.

Lemma bind_assoc {A B C} (m : M A) (k : A -> M B) (h : B -> M C) s :
  bind (bind m k) h s = bind m (fun a => bind (k a) h) s.
Proof. unfold bind. destruct (m s) as [[a|e] s1]; done. Qed.

Lemma recoverSafeAddress_search w userId known s user :
  users s !! userId = Some user ->
  (u_safeDeployed user && Js.truthy (u_safeAddress user)) = false ->
  recoverSafeAddress w userId known s
  = (wallet <- KeyService.getUserWallet userId ;;
     recovered <- search w wallet known ;;
     match recovered with
     | None => ret None
     | Some safeAddress =>
         prisma.user_update userId (user_set_safe safeAddress) >>
         prisma.activityLog_create
           (mkActivity userId "SAFE_RECOVERED" safeAddress) >>
         ret (Some safeAddress)
     end) s.
Proof.
  intros Hu Hg. unfold recoverSafeAddress, search, prisma.user_findUnique, bind.
  cbn [fst snd]. rewrite Hu, Hg.
  repeat (first [reflexivity
                | match goal with
                  | |- context [match ?x with _ => _ end] => destruct x
                  end]).
Qed.

End RecoveryProofs.

(** X26.  What [recoverSafeAddress] leaves behind.  When it returns an
    address, either the account was already recorded as deployed at that
    address and nothing was touched, or the row of the user now holds the
    address with the deployment flag and the status SAFE_DEPLOYED, and a
    remote call of this run backs the address: a read of the chain that
    showed code there, or a deployment request that the relayer answered
    with this address.  When it returns null or raises, the users are as
    they were. *)
Theorem recoverSafeAddress_outcome w userId known s user :
  users s !! userId = Some user ->
  let run := WalletRecovery.recoverSafeAddress w userId known s in
  match fst run with
  | Ok (Some a) =>
      (snd run = s /\ u_safeDeployed user = true /\ u_safeAddress user = Some a) \/
      (users (snd run) = <[userId := user_set_safe a user]> (users s) /\
       ProvenanceFacts.during (ProvenanceFacts.recovered_at w a) s (snd run))
  | _ => db_view (snd run) = db_view s
  end.
Proof.
  intros Hu. cbv zeta.
  destruct (u_safeDeployed user && Js.truthy (u_safeAddress user)) eqn:Hg.
  { unfold WalletRecovery.recoverSafeAddress, bind, prisma.user_findUnique.
    cbn [fst snd]. rewrite Hu, Hg. cbn.
    apply andb_true_iff in Hg as [Hd Ht].
    destruct (u_safeAddress user) as [a|]; [|done]. by left. }
  rewrite (RecoveryProofs.recoverSafeAddress_search w userId known s user Hu Hg).
  unfold bind.
  pose proof (getUserWallet_pure id userId s) as Hw.
  destruct (KeyService.getUserWallet userId s) as [[wallet|e] s1];
    cbn in Hw; subst s1; [|done].
  destruct (RecoveryProofs.finds_search w wallet known s) as (Hd & [tail Ht] & Hf).
  destruct (ProvenanceFacts.search w wallet known s) as [[[a|]|e] s1];
    cbn in Hd, Ht, Hf; cbn; [|done|done].
  right. split.
  - rewrite (f_equal fst Hd : users s1 = users s).
    by apply ProvisioningProofs.alter_as_insert.
  - apply (RecoveryProofs.during_earlier _ s s1 _ []); [by apply Hf|].
    cbn. by rewrite app_nil_r.
Qed.

Lemma recoverSafeAddress_outcome_named_by_relayer :
  let s := Scenario.db Scenario.fresh_user [] in
  let run := WalletRecovery.recoverSafeAddress Cases.relayer_naming_unbuilt_safe
               "user-1" None s in
  match fst run with
  | Ok (Some a) =>
      (snd run = s /\ u_safeDeployed Scenario.fresh_user = true /\
       u_safeAddress Scenario.fresh_user = Some a) \/
      (users (snd run) = <["user-1" := user_set_safe a Scenario.fresh_user]> (users s) /\
       ProvenanceFacts.during
         (ProvenanceFacts.recovered_at Cases.relayer_naming_unbuilt_safe a)
         s (snd run))
  | _ => db_view (snd run) = db_view s
  end.
Proof.
  apply (recoverSafeAddress_outcome Cases.relayer_naming_unbuilt_safe "user-1" None
           (Scenario.db Scenario.fresh_user []) Scenario.fresh_user).
  reflexivity.
Defined.

(** An address that the relayer names is recorded as deployed without a
    read of the chain. *)
Lemma recoverSafeAddress_records_named_address :
  let run := WalletRecovery.recoverSafeAddress Cases.relayer_naming_unbuilt_safe
               "user-1" None (Scenario.db Scenario.fresh_user []) in
  fst run = Ok (Some "0x5AFE") /\
  trace (snd run) = [EvRelayDeploy "0xE0A"] /\
  (u_safeAddress <$> users (snd run) !! "user-1") = Some (Some "0x5AFE") /\
  user_status (snd run) "user-1" = Some SAFE_DEPLOYED.
Proof. vm_compute. done. Qed.

(** X27.  When the chain holds code at the address handed to
    [recoverSafeAddress] for an account not yet recorded as deployed, the
    call returns that address after that one read of the chain: the
    relayer is not contacted, and the row of the user holds the address. *)
Theorem recoverSafeAddress_verified_candidate w userId a s user code :
  users s !! userId = Some user ->
  (u_safeDeployed user && Js.truthy (u_safeAddress user)) = false ->
  u_privateKey user = true ->
  Js.nonempty a = true ->
  w_getCode w (trace s) a = CodeReturns code ->
  WalletService.has_code code = true ->
  let run := WalletRecovery.recoverSafeAddress w userId (Some a) s in
  fst run = Ok (Some a) /\
  new_events s (snd run) = [EvGetCode a] /\
  users (snd run) = <[userId := user_set_safe a user]> (users s).
Proof.
  intros Hu Hg Hk Hne Hc Hh. cbv zeta.
  rewrite (RecoveryProofs.recoverSafeAddress_search w userId (Some a) s user Hu Hg).
  unfold bind. rewrite (WalletProofs.getUserWallet_ok userId s user Hu Hk).
  unfold ProvenanceFacts.search, WalletRecovery.verifyOnChain,
    WalletService.getCode, bind, remote.
  rewrite Hne. cbn. rewrite Hc. cbn. rewrite Hh. cbn.
  split; [done|]. split.
  - unfold new_events. cbn. by rewrite drop_app_length.
  - by apply ProvisioningProofs.alter_as_insert.
Qed.

Lemma recoverSafeAddress_verified_candidate_on_chain :
  let s := Scenario.db Scenario.fresh_user [] in
  let run := WalletRecovery.recoverSafeAddress Cases.chain_with_code "user-1"
               (Some "0x5AFE") s in
  fst run = Ok (Some "0x5AFE") /\
  new_events s (snd run) = [EvGetCode "0x5AFE"] /\
  users (snd run) = <["user-1" := user_set_safe "0x5AFE" Scenario.fresh_user]> (users s).
Proof.
  apply (recoverSafeAddress_verified_candidate Cases.chain_with_code "user-1"
           "0x5AFE" (Scenario.db Scenario.fresh_user []) Scenario.fresh_user
           "0x6080"); reflexivity.
Defined.

Module ProvenanceProofs.
Import WalletService WalletFacts ProvenanceFacts.

Lemma grows_ret {A} (a : A) : grows (ret a).
Proof. intros s. exists []. by rewrite app_nil_r. Qed.

Lemma grows_throw {A} e : grows (@throw A e).
Proof. intros s. exists []. by rewrite app_nil_r. Qed.

Lemma grows_bind {A B} (m : M A) (k : A -> M B) :
  grows m -> (forall a, grows (k a)) -> grows (bind m k).
Proof.
  intros Hm Hk s. unfold bind. destruct (Hm s) as [t1 H1].
  destruct (m s) as [[a|e] s1]; cbn in H1; [|by exists t1].
  destruct (Hk a s1) as [t2 H2]. exists (t1 ++ t2)%list.
  by rewrite H2, H1, <- app_assoc.
Qed.

Lemma grows_try_catch {A} (m : M A) (h : Js.Error -> M A) :
  grows m -> (forall e, grows (h e)) -> grows (try_catch m h).
Proof.
  intros Hm Hh s. unfold try_catch. destruct (Hm s) as [t1 H1].
  destruct (m s) as [[a|e] s1]; cbn in H1; [by exists t1|].
  destruct (Hh e s1) as [t2 H2]. exists (t1 ++ t2)%list.
  by rewrite H2, H1, <- app_assoc.
Qed.

Lemma grows_remote {A} (ask : list Event -> A) e : grows (remote ask e).
Proof. intros s. by exists [e]. Qed.

Lemma grows_preserves {A} (m : M A) : preserves trace m -> grows m.
Proof. intros H s. exists []. by rewrite app_nil_r, H. Qed.

Create HintDb grows.

Ltac grows_step :=
  first
    [ solve [auto with grows]
    | apply grows_ret
    | apply grows_throw
    | apply grows_remote
    | apply grows_bind
    | apply grows_try_catch
    | match goal with
      | |- grows (match ?x with _ => _ end) => destruct x
      | |- grows (if ?x then _ else _) => destruct x
      | |- grows (let '(_, _) := ?x in _) => destruct x
      end
    | progress cbv zeta
    | solve [apply grows_preserves; frame] ].

Ltac grows := repeat (intros; grows_step).

Lemma grows_getCode w a : grows (getCode w a).
Proof. unfold getCode. grows. Qed.

Lemma grows_saveSafeDeployment userId owner a tx :
  grows (saveSafeDeployment userId owner a tx).
Proof. apply grows_preserves. unfold saveSafeDeployment. frame. Qed.

Lemma grows_sleep ms : grows (sleep ms).
Proof. unfold sleep. grows. Qed.

Lemma grows_getUserWallet userId : grows (KeyService.getUserWallet userId).
Proof. apply grows_preserves. auto with frame. Qed.

Lemma grows_user_update userId f : grows (prisma.user_update userId f).
Proof. apply grows_preserves. intros s. done. Qed.

Lemma grows_activityLog_create a : grows (prisma.activityLog_create a).
Proof. apply grows_preserves. intros s. done. Qed.

#[local] Hint Resolve grows_getCode grows_saveSafeDeployment grows_sleep
  grows_getUserWallet grows_user_update grows_activityLog_create : grows.

Lemma grows_deployAttempt_catch w userId wallet attempt loc e :
  grows (deployAttempt_catch w userId wallet attempt loc e).
Proof. unfold deployAttempt_catch. grows. Qed.

#[local] Hint Resolve grows_deployAttempt_catch : grows.

Lemma grows_deployAttempt w userId wallet attempt loc :
  grows (deployAttempt w userId wallet attempt loc).
Proof. unfold deployAttempt. grows. Qed.

#[local] Hint Resolve grows_deployAttempt : grows.

Lemma grows_deployLoop w userId wallet n : forall attempt loc,
  grows (deployLoop w userId wallet n attempt loc).
Proof. induction n as [|n IH]; intros attempt loc; cbn [deployLoop]; grows. Qed.

Lemma grows_recoverAfterPolling w userId wallet known :
  grows (recoverAfterPolling w userId wallet known).
Proof. unfold recoverAfterPolling. grows. Qed.

#[local] Hint Resolve grows_deployLoop grows_recoverAfterPolling : grows.

Lemma grows_confirmDeployment w userId wallet loc :
  grows (confirmDeployment w userId wallet loc).
Proof. unfold confirmDeployment. grows. Qed.

#[local] Hint Resolve grows_confirmDeployment : grows.

Lemma grows_deploySafeWallet_try w userId : grows (deploySafeWallet_try w userId).
Proof. unfold deploySafeWallet_try. grows. Qed.

Lemma grows_recoverDeployed w userId msg : grows (recoverDeployed w userId msg).
Proof. unfold recoverDeployed. grows. Qed.

#[local] Hint Resolve grows_deploySafeWallet_try grows_recoverDeployed : grows.

(** *** Where an address comes from *)

Section Sourced.
Context {A : Type} (ev : string -> list Event -> Event -> Prop)
  (sel : A -> option string).

Lemma sourced_ret_none x : sel x = None -> sourced ev sel (ret x).
Proof. intros H s. cbn. by rewrite H. Qed.

Lemma sourced_throw e : sourced ev sel (throw e).
Proof. intros s. done. Qed.

Lemma sourced_bind {B} (m : M B) (k : B -> M A) :
  grows m -> (forall b, sourced ev sel (k b)) -> sourced ev sel (bind m k).
Proof.
  intros Hm Hk s. unfold bind. destruct (Hm s) as [t1 H1].
  destruct (m s) as [[b|e] s1]; cbn in H1; [|done].
  specialize (Hk b s1).
  destruct (k b s1) as [[x|e] s2]; cbn in *; [|done].
  destruct (sel x); [|done].
  by apply (RecoveryProofs.during_later _ s s1 s2 t1).
Qed.

Lemma sourced_try_catch (m : M A) (h : Js.Error -> M A) :
  sourced ev sel m -> grows m -> (forall e, sourced ev sel (h e)) ->
  sourced ev sel (try_catch m h).
Proof.
  intros Hs Hm Hh s. unfold try_catch. specialize (Hs s).
  destruct (Hm s) as [t1 H1].
  destruct (m s) as [[x|e] s1]; cbn in *; [done|].
  specialize (Hh e s1).
  destruct (h e s1) as [[x|e'] s2]; cbn in *; [|done].
  destruct (sel x); [|done].
  by apply (RecoveryProofs.during_later _ s s1 s2 t1).
Qed.

(** A read of the chain whose result decides: with code at [a], a branch
    that can only return [a]; without, the rest. *)
Lemma sourced_checked w a (found rest : M A) :
  (forall a' t e, code_at w a' t e -> ev a' t e) ->
  grows found ->
  (forall s x a', fst (found s) = Ok x -> sel x = Some a' -> a' = a) ->
  sourced ev sel rest ->
  sourced ev sel (code <- getCode w a ;; if has_code code then found else rest).
Proof.
  intros Hev Hg Honly Hrest s. unfold bind, getCode, remote. cbn.
  destruct (w_getCode w (trace s) a) as [e|code] eqn:Hc; cbn; [done|].
  destruct (has_code code) eqn:Hh.
  - set (s1 := add_event (EvGetCode a) s).
    destruct (Hg s1) as [tail Ht]. specialize (Honly s1).
    destruct (found s1) as [[x|e] s2]; cbn in *; [|done].
    destruct (sel x) as [a'|] eqn:Hsel; [|done].
    rewrite (Honly x a' eq_refl Hsel).
    apply (RecoveryProofs.during_here _ s s2 (EvGetCode a) tail).
    + by rewrite Ht, <- app_assoc.
    + apply Hev. split; [done|]. eauto.
  - set (s1 := add_event (EvGetCode a) s). specialize (Hrest s1).
    destruct (rest s1) as [[x|e] s2]; cbn in *; [|done].
    destruct (sel x); [|done].
    by apply (RecoveryProofs.during_later _ s s1 s2 [EvGetCode a]).
Qed.

(** The same with the read written out and a handler for a read that
    throws. *)
Lemma sourced_checked_or_caught w a (found rest : M A) (h : Js.Error -> M A) :
  (forall a' t e, code_at w a' t e -> ev a' t e) ->
  grows found ->
  (forall s x a', fst (found s) = Ok x -> sel x = Some a' -> a' = a) ->
  sourced ev sel rest -> (forall e, sourced ev sel (h e)) ->
  sourced ev sel
    (out <- remote (fun t => w_getCode w t a) (EvGetCode a) ;;
     match out with
     | CodeThrows e => h e
     | CodeReturns code => if has_code code then found else rest
     end).
Proof.
  intros Hev Hg Honly Hrest Hh s. unfold bind, remote. cbn.
  set (s1 := add_event (EvGetCode a) s).
  destruct (w_getCode w (trace s) a) as [e|code] eqn:Hc.
  { specialize (Hh e s1).
    destruct (h e s1) as [[x|e'] s2]; cbn in *; [|done].
    destruct (sel x); [|done].
    by apply (RecoveryProofs.during_later _ s s1 s2 [EvGetCode a]). }
  destruct (has_code code) eqn:Hhas.
  - destruct (Hg s1) as [tail Ht]. specialize (Honly s1).
    destruct (found s1) as [[x|e] s2]; cbn in *; [|done].
    destruct (sel x) as [a'|] eqn:Hsel; [|done].
    rewrite (Honly x a' eq_refl Hsel).
    apply (RecoveryProofs.during_here _ s s2 (EvGetCode a) tail).
    + by rewrite Ht, <- app_assoc.
    + apply Hev. split; [done|]. eauto.
  - specialize (Hrest s1).
    destruct (rest s1) as [[x|e] s2]; cbn in *; [|done].
    destruct (sel x); [|done].
    by apply (RecoveryProofs.during_later _ s s1 s2 [EvGetCode a]).
Qed.

(** A step whose address, if it has one, is handed on as it is. *)
Lemma sourced_handed_on {B} (sel' : B -> option string) (m : M B) (k : B -> M A) :
  sourced ev sel' m -> grows m ->
  (forall b, match sel' b with
             | Some a => exists x, k b = ret x /\ sel x = Some a
             | None => sourced ev sel (k b)
             end) ->
  sourced ev sel (bind m k).
Proof.
  intros Hs Hm Hk s. unfold bind. specialize (Hs s). destruct (Hm s) as [t1 H1].
  destruct (m s) as [[b|e] s1]; cbn in *; [|done].
  specialize (Hk b). destruct (sel' b) as [a|].
  - destruct Hk as (x & -> & Hx). cbn. by rewrite Hx.
  - specialize (Hk s1).
    destruct (k b s1) as [[x|e] s2]; cbn in *; [|done].
    destruct (sel x); [|done].
    by apply (RecoveryProofs.during_later _ s s1 s2 t1).
Qed.

End Sourced.

Lemma code_is_deployed w a t e : code_at w a t e -> deployed_at w a t e.
Proof. by left. Qed.

Ltac sourced_step :=
  first
    [ solve [auto with grows]
    | progress cbv zeta
    | apply sourced_throw
    | apply sourced_ret_none; reflexivity
    | apply sourced_checked;
        [exact (code_is_deployed _)
        |solve [grows]
        |intros ? ? ? [= <-] [= <-]; reflexivity
        |]
    | apply sourced_bind; [solve [grows]|intros]
    | match goal with
      | |- sourced _ _ (match ?x with _ => _ end) => destruct x
      | |- sourced _ _ (if ?x then _ else _) => destruct x
      end ].

Ltac sourced := repeat sourced_step.

Lemma deployAttempt_catch_sourced w userId wallet attempt loc e :
  sourced (deployed_at w) returned
    (deployAttempt_catch w userId wallet attempt loc e).
Proof. unfold deployAttempt_catch. sourced. Qed.

Lemma deployAttempt_sourced w userId wallet attempt loc :
  sourced (deployed_at w) returned (deployAttempt w userId wallet attempt loc).
Proof.
  unfold deployAttempt. apply sourced_bind; [grows|intros out].
  destruct out as [e|r]; [apply deployAttempt_catch_sourced|].
  cbv zeta.
  assert (forall loc1,
    sourced (deployed_at w) returned
      (if Js.truthy match r with Some d => d_transactionID d | None => None end
       then ret (Break loc1)
       else deployAttempt_catch w userId wallet attempt loc1
              (Js.error "No transaction ID in deploy response"))) as Hfinish.
  { intros loc1. destruct (Js.truthy _);
      [by apply sourced_ret_none|apply deployAttempt_catch_sourced]. }
  destruct (match r with Some d => Js.or (d_proxyAddress d) (d_proxyWallet d)
            | None => None end) as [a|]; [|apply Hfinish].
  destruct (Js.nonempty a); [|apply Hfinish].
  apply sourced_checked_or_caught.
  - exact (code_is_deployed w).
  - grows.
  - intros ? ? ? [= <-] [= <-]. reflexivity.
  - apply Hfinish.
  - intros e. apply deployAttempt_catch_sourced.
Qed.

Lemma deployLoop_sourced w userId wallet n : forall attempt loc,
  sourced (deployed_at w) returned (deployLoop w userId wallet n attempt loc).
Proof.
  induction n as [|n IH]; intros attempt loc; cbn [deployLoop].
  { by apply sourced_ret_none. }
  apply (sourced_handed_on _ _ returned);
    [apply deployAttempt_sourced|apply grows_deployAttempt|].
  intros [a|l|l]; cbn; [by eexists|by apply sourced_ret_none|apply IH].
Qed.

Lemma recoverAfterPolling_sourced w userId wallet known :
  sourced (deployed_at w) Some (recoverAfterPolling w userId wallet known).
Proof. unfold recoverAfterPolling. sourced. Qed.

Lemma confirmDeployment_sourced w userId wallet loc :
  sourced (deployed_at w) Some (confirmDeployment w userId wallet loc).
Proof.
  unfold confirmDeployment. cbv zeta.
  destruct (response loc) as [d|]; [|apply sourced_throw].
  destruct (d_transactionID d) as [txId|]; [|apply sourced_throw].
  destruct (Js.nonempty txId); [|apply sourced_throw].
  intros s. unfold bind, remote. cbn.
  set (s1 := add_event (EvPollUntilState txId) s).
  pose proof (recoverAfterPolling_sourced w userId wallet (knownProxyWallet loc) s1)
    as Hr.
  assert (match fst (recoverAfterPolling w userId wallet (knownProxyWallet loc) s1) with
          | Ok a => during (deployed_at w a) s
                      (snd (recoverAfterPolling w userId wallet
                              (knownProxyWallet loc) s1))
          | Throw _ => True
          end) as Hr'.
  { destruct (recoverAfterPolling _ _ _ _ s1) as [[a|e] s2]; cbn in *; [|done].
    by apply (RecoveryProofs.during_later _ s s1 s2 [EvPollUntilState txId]). }
  destruct (w_pollUntilState w (trace s) txId) as [e|[result|]] eqn:Hp;
    try exact Hr'.
  destruct (pr_proxyAddress result) as [a|] eqn:Ha; [|exact Hr'].
  destruct (Js.nonempty a); [|exact Hr']. cbn.
  apply (RecoveryProofs.during_here _ s _ (EvPollUntilState txId) []); [done|].
  right. exists txId, result. done.
Qed.

Lemma deploySafeWallet_try_sourced w userId :
  sourced (deployed_at w) Some (deploySafeWallet_try w userId).
Proof.
  unfold deploySafeWallet_try. apply sourced_bind; [grows|intros wallet].
  destruct (negb _); [apply sourced_throw|].
  apply (sourced_handed_on _ _ returned);
    [apply deployLoop_sourced|apply grows_deployLoop|].
  intros [a|l|l]; cbn; [by eexists|apply confirmDeployment_sourced..].
Qed.

Lemma recoverDeployed_sourced w userId msg :
  sourced (deployed_at w) id (recoverDeployed w userId msg).
Proof.
  unfold recoverDeployed. apply sourced_try_catch.
  - apply sourced_bind; [grows|intros wallet].
    destruct (w_builderConfigured w); [|by apply sourced_ret_none].
    apply sourced_bind; [grows|intros fromRetry]. cbv zeta.
    destruct (match fromRetry with Some a => Some a
              | None => getPredictedSafeAddress w wallet end) as [a|];
      [|by apply sourced_ret_none].
    destruct (Js.nonempty a); [|by apply sourced_ret_none].
    apply sourced_checked.
    + exact (code_is_deployed w).
    + grows.
    + intros ? ? ? [= <-] [= <-]. reflexivity.
    + by apply sourced_ret_none.
  - grows.
  - intros e. by apply sourced_ret_none.
Qed.

Lemma deploySafeWallet_catch_sourced w userId e :
  sourced (deployed_at w) Some (deploySafeWallet_catch w userId e).
Proof.
  unfold deploySafeWallet_catch. cbv zeta.
  apply (sourced_handed_on _ _ id).
  - destruct (already_deployed _);
      [apply recoverDeployed_sourced|by apply sourced_ret_none].
  - grows.
  - intros [a|]; cbn; [by eexists|].
    apply sourced_bind; [grows|intros; apply sourced_throw].
Qed.

End ProvenanceProofs.

(** X28.  Every address that [deploySafeWallet] returns for an account not
    yet recorded as deployed is backed by a remote call made during that
    very run: a read of the chain that showed code at the address, or a
    poll of the relayer that returned a deployment at that address.  An
    address named in the deploy answer of the relayer or in an error text,
    or only predicted, is returned only after such a read. *)
Theorem deploySafeWallet_address_is_backed w userId s user safeAddress :
  users s !! userId = Some user ->
  (u_safeDeployed user && Js.truthy (u_safeAddress user)) = false ->
  fst (WalletService.deploySafeWallet w userId s) = Ok safeAddress ->
  ProvenanceFacts.during (ProvenanceFacts.deployed_at w safeAddress) s
    (snd (WalletService.deploySafeWallet w userId s)).
Proof.
  intros Hu Hg.
  unfold WalletService.deploySafeWallet, bind, prisma.user_findUnique.
  cbn [fst snd]. rewrite Hu, Hg.
  unfold prisma.user_update, modify. cbn [fst snd].
  set (s1 := update_user userId (user_set_status SAFE_DEPLOYING) s).
  assert (trace s1 = (trace s ++ [])%list) as Ht1 by (by rewrite app_nil_r).
  pose proof (ProvenanceProofs.sourced_try_catch
                (ProvenanceFacts.deployed_at w) Some
                (WalletService.deploySafeWallet_try w userId)
                (WalletService.deploySafeWallet_catch w userId)
                (ProvenanceProofs.deploySafeWallet_try_sourced w userId)
                (ProvenanceProofs.grows_deploySafeWallet_try w userId)
                (ProvenanceProofs.deploySafeWallet_catch_sourced w userId) s1) as H.
  destruct (try_catch _ _ s1) as [[a|e] s2]; cbn in H; cbn; [|done].
  intros [= <-]. by apply (RecoveryProofs.during_later _ s s1 s2 []).
Qed.

Lemma deploySafeWallet_address_is_backed_new_safe :
  let s := Scenario.db Scenario.fresh_user [] in
  ProvenanceFacts.during (ProvenanceFacts.deployed_at Cases.relayer_deploying "0x5AFE")
    s (snd (WalletService.deploySafeWallet Cases.relayer_deploying "user-1" s)).
Proof.
  apply (deploySafeWallet_address_is_backed Cases.relayer_deploying "user-1"
           (Scenario.db Scenario.fresh_user []) Scenario.fresh_user "0x5AFE");
    reflexivity.
Defined.

Module ToolProofs.
Import OrderService.


End ToolProofs.


(** X30.  The list of approvals that [setTokenApprovals] builds for the
    relayer.  The list is empty exactly when the three flags of the user
    are set and the call is not forced; a forced call lists all six
    approvals; in every case the list holds, in the fixed order and without
    repetition, exactly those of the six approvals whose flag is not set or
    that are forced. *)
Theorem safeTransactions_covers_missing_approvals user force :
  let batch := Approvals.safeTransactions user force in
  (batch = [] <->
   u_usdcApproved user = true /\ u_ctfApproved user = true /\
   u_negRiskApproved user = true /\ force = false) /\
  (force = true -> batch = Approvals.required) /\
  batch = filter (fun approval =>
                    Approvals.flag_of user approval = false \/ force = true)
                 Approvals.required /\
  NoDup batch.
Proof.
  cbv zeta. unfold Approvals.safeTransactions, Approvals.required.
  destruct user as [st eoa pk safe deployed creds usdc ctf neg].
  destruct usdc, ctf, neg, force; cbn;
    (split; [split; [try done; intros [=]|intros (?&?&?&?); done]|]);
    (split; [try done|]); (split; [reflexivity|]);
    by apply (bool_decide_unpack _).
Qed.
